(** * kduda: prototype memory bank and DACS training step

    Shallow embedding of
      - [mmseg/models/utils/proto_estimator.py] (class [ProtoEstimator]) and
      - [mmseg/models/uda/dacs.py] (the helpers [_params_equal] and
        [calc_grad_magnitude]; class [DACS], methods [__init__],
        [train_step], [calc_feat_dist] and [forward_train]).

    Numbers.  Tensor entries are torch floats in the source.  They are
    modelled as canonical rationals ([Qc]): exact arithmetic, no rounding,
    no NaN and no infinities.  Integer tensors (labels) are [Z].

    Tensors.  A tensor is a nested list, outermost dimension first. *)

From Stdlib Require Import ZArith QArith Qcanon Lia String.
From stdpp Require Import base list sorting numbers strings gmap.

Local Open Scope Qc_scope.
Local Open Scope Z_scope.
Local Open Scope nat_scope.

(** ** Computations on an object

    A method reads and writes the attributes of its object and either
    returns or raises; what it wrote before raising stays written. *)
Inductive exn :=
  | ZeroDivisionError | IndexError | RuntimeError | AttributeError.

Inductive result (A : Type) := Ok (a : A) | Raise (e : exn).
Arguments Ok {_} _.
Arguments Raise {_} _.

Definition M (S A : Type) : Type := S → result A * S.

#[export] Instance M_ret {S} : MRet (M S) := λ A a self, (Ok a, self).
#[export] Instance M_bind {S} : MBind (M S) := λ A B f m self,
  match m self with
  | (Ok a, self') => f a self'
  | (Raise e, self') => (Raise e, self')
  end.

Definition raise {S A} (e : exn) : M S A := λ self, (Raise e, self).
Definition get {S} : M S S := λ self, (Ok self, self).
Definition put {S} (self' : S) : M S () := λ _, (Ok (), self').
Definition try_ {S A} (e : exn) (o : option A) : M S A :=
  match o with Some a => mret a | None => raise e end.

(** [wp m Q self]: running [m] on [self] ends in an outcome and an object
    that satisfy [Q]. *)
Definition wp {S A} (m : M S A) (Q : result A → S → Prop) (self : S) : Prop :=
  Q (m self).1 (m self).2.

(** [for x in l: body(x)]. *)
Fixpoint for_ {S A} (l : list A) (body : A → M S ()) : M S () :=
  match l with
  | [] => mret ()
  | x :: l' => _ ← body x; for_ l' body
  end.

(** ** [collections.deque] with a [maxlen] *)

Module Deque.

Section deque.
Context {A : Type}.

(** A bounded deque: its items, oldest first, and its [maxlen]. *)
Record deque := mk { items : list A; maxlen : nat }.

(** [d.append(x)]: the item is put at the right end, then the deque is
    trimmed from the left when it is longer than [maxlen]. *)
Definition append (d : deque) (x : A) : deque :=
  let its := items d ++ [x] in
  mk (if maxlen d <? length its then tail its else its) (maxlen d).

(** [deque(iterable, maxlen)]: the items are appended one by one. *)
Definition init (its : list A) (n : nat) : deque :=
  foldl append (mk [] n) its.

(** The last [n] items of a list. *)
Definition lastn (n : nat) (l : list A) : list A :=
  drop (length l - n) l.
End deque.

Arguments deque : clear implicits.

End Deque.

(** ** Tensors as nested lists *)

Abbreviation vector := (list Qc) (only parsing).
Abbreviation matrix := (list (list Qc)) (only parsing).
Abbreviation tensor3 := (list (list (list Qc))) (only parsing).

(** [torch.zeros(r, c)], [torch.zeros(n)]. *)
Definition zeros1 (n : nat) : vector := replicate n 0%Qc.
Definition zeros2 (r c : nat) : matrix := replicate r (zeros1 c).

(** [t.sum(0)] of a tensor of shape [N, r, c]: the [N] slices are added
    entry by entry. *)
Definition sum0 (r c : nat) (t : tensor3) : matrix :=
  foldr (zip_with (zip_with Qcplus)) (zeros2 r c) t.

(** A count as a tensor entry. *)
Definition of_nat (n : nat) : Qc := Q2Qc (inject_Z (Z.of_nat n)).

(** [x == 0] on tensor entries. *)
Definition is_zero (x : Qc) : bool := Qeq_bool x 0.

(** [torch.unique(labels)]: the distinct values, sorted. *)
Definition unique (labels : list Z) : list Z :=
  merge_sort Z.le (remove_dups labels).

(** ** [ProtoEstimator] *)

Module ProtoEstimator.

(** One queue entry is a tensor of shape [1, A]
    ([ave_CxA[cls].unsqueeze(0)]). *)
Abbreviation bank := (list (Deque.deque matrix)) (only parsing).

(** What [torch.load(resume)] yields.  The keys ['CoVariance'], ['Ave'] and
    ['Amount'] are read unconditionally; ['MemoryBank'] may be absent.
    When it is present it holds the bank as the estimator has it, a Python
    list of deques. *)
Record checkpoint := mk_checkpoint {
  ck_CoVariance : matrix;
  ck_Ave : matrix;
  ck_Amount : vector;
  ck_MemoryBank : option bank }.

(** The estimator object.  [MemoryBank = None] stands for an object on
    which the attribute was never assigned. *)
Record t := mk {
  dim : nat;
  class_num : nat;
  CoVariance : matrix;
  Ave : matrix;
  Amount : vector;
  MemoryBank : option bank }.

(** [ProtoEstimator.__init__(dim, class_num, memory_length, resume)]; the
    result is [None] when the constructor raises.  [memory_length] is a
    natural number: [deque] raises on a negative [maxlen].  [torch_load]
    is the file system seen through [torch.load], [None] when loading
    raises.  [.cuda()] moves a tensor to the device and is the identity
    on the three tensors; a Python list has no method [cuda], so the call
    raises on a bank that is present. *)
Definition __init__ (torch_load : string → option checkpoint)
    (dim class_num memory_length : nat) (resume : string) : option t :=
  if bool_decide (resume = ""%string) then
    let Ave := zeros2 class_num dim in
    Some (mk dim class_num (zeros2 class_num dim) Ave (zeros1 class_num)
            (Some ((λ cls, Deque.init [[nth cls Ave []]] memory_length)
                     <$> seq 0 class_num)))
  else
    checkpoint ← torch_load resume;
    match ck_MemoryBank checkpoint with
    | Some _ => None
    | None =>
        Some (mk dim class_num (ck_CoVariance checkpoint) (ck_Ave checkpoint)
                (ck_Amount checkpoint) None)
    end.

(** [onehot.scatter_(1, labels.view(-1, 1), 1)]: row [i] gets a 1 in column
    [labels[i]]; rows beyond the index are left as they are. *)
Fixpoint scatter_rows (onehot : matrix) (index : list Z) : matrix :=
  match onehot, index with
  | row :: onehot', l :: index' =>
      <[Z.to_nat l := 1%Qc]> row :: scatter_rows onehot' index'
  | _, _ => onehot
  end.

(** [scatter_] raises when the index has more rows than the tensor or
    holds a column that is not in [0, C). *)
Definition scatter_ (C : nat) (onehot : matrix) (index : list Z)
    : option matrix :=
  if bool_decide (length index ≤ length onehot)
     && forallb (λ l, (0 <=? l)%Z && (l <? Z.of_nat C)%Z) index
  then Some (scatter_rows onehot index) else None.

(** The body of [update_proto] up to [ave_CxA]. *)
Definition ave_CxA (C : nat) (features : matrix) (labels : list Z)
    : option matrix :=
  let N := length features in
  let A := length (nth 0 features []) in
  let NxCxA_Features : tensor3 :=
    (λ f : vector, replicate C f) <$> features in
  onehot ← scatter_ C (zeros2 N C) labels;
  let NxCxA_onehot : tensor3 :=
    (λ row : vector, (λ o : Qc, replicate A o) <$> row) <$> onehot in
  let features_by_sort :=
    zip_with (zip_with (zip_with Qcmult)) NxCxA_Features NxCxA_onehot in
  let Amount_CxA := sum0 C A NxCxA_onehot in
  let Amount_CxA : matrix :=
    (λ row : vector, (λ x : Qc, if is_zero x then 1%Qc else x) <$> row)
      <$> Amount_CxA in
  Some (zip_with (zip_with Qcdiv) (sum0 C A features_by_sort) Amount_CxA).

Definition set_MemoryBank (self : t) (b : bank) : t :=
  mk (dim self) (class_num self) (CoVariance self) (Ave self) (Amount self)
     (Some b).

(** [self.MemoryBank[cls].append(ave_CxA[cls].unsqueeze(0).detach())]. *)
Definition bank_append (ave : matrix) (cls : Z) : M t () :=
  self ← get;
  b ← try_ AttributeError (MemoryBank self);
  d ← try_ IndexError (b !! Z.to_nat cls);
  put (set_MemoryBank self
         (<[Z.to_nat cls := Deque.append d [nth (Z.to_nat cls) ave []]]> b)).

(** [ProtoEstimator.update_proto(features, labels)]. *)
Definition update_proto (features : matrix) (labels : list Z) : M t () :=
  self ← get;
  ave ← try_ RuntimeError (ave_CxA (class_num self) features labels);
  (* update memory bank *)
  for_ (unique labels) (bank_append ave).

(** A session: a sequence of calls of [update_proto]. *)
Definition run_updates (batches : list (matrix * list Z)) : M t () :=
  for_ batches (λ batch, update_proto batch.1 batch.2).

(** The mean feature vector over the pixels of class [c] in a batch, in
    the words of the specification: the features of the pixels labelled
    [c] are added up and divided by their number. *)
Definition class_pixels (features : matrix) (labels : list Z) (c : Z)
    : matrix :=
  fst <$> filter (λ p, p.2 = c) (zip features labels).

Definition class_mean (A : nat) (features : matrix) (labels : list Z)
    (c : Z) : vector :=
  let pixels := class_pixels features labels c in
  (λ s, s / of_nat (length pixels))%Qc
    <$> foldr (zip_with Qcplus) (zeros1 A) pixels.

(** The entries a class receives over a session, oldest first. *)
Definition received (C : nat) (c : nat) (batches : list (matrix * list Z))
    : list matrix :=
  batch ← batches;
  if bool_decide (Z.of_nat c ∈ batch.2)
  then [[nth c (default [] (ave_CxA C batch.1 batch.2)) []]] else [].

End ProtoEstimator.

(** ** [DACS]: the training step *)

Abbreviation plane A := (list (list A)) (only parsing).
Abbreviation image := (list (list (list Qc))) (only parsing).
Abbreviation tensor4 := (list (list (list (list Qc)))) (only parsing).
Abbreviation dict := (gmap string Qc) (only parsing).

(** Number of entries of a tensor of three dimensions ([np.size],
    [Tensor.numel]). *)
Definition numel3 {A} (t : list (plane A)) : nat :=
  length (mjoin (mjoin t)).

(** An entry of a plane and of a tensor of three dimensions, when the
    index is in range. *)
Definition at2 {A} (p : plane A) (r c : nat) : option A :=
  row ← p !! r; row !! c.

Definition at3 {A} (t : list (plane A)) (b r c : nat) : option A :=
  img ← t !! b; at2 img r c.

Definition map3 {A B} (f : A → B) (t : list (plane A)) : list (plane B) :=
  (λ img : plane A, (λ row : list A, f <$> row) <$> img) <$> t.

(** The shape of a tensor: the tensor with its entries forgotten. *)
Definition shape {A} (t : list (plane A)) : list (plane ()) :=
  map3 (λ _, ()) t.

(** [torch.max(t, dim=1)] on one sample of shape [C, H, W]: the running
    maximum over the class planes with the index of its first
    occurrence.  [None] for [C = 0], where torch raises. *)
Definition max_step (k : Z) (acc : plane (Qc * Z)) (p : plane Qc)
    : plane (Qc * Z) :=
  zip_with (zip_with (λ (mi : Qc * Z) (v : Qc),
                        if Qle_bool v mi.1 then mi else (v, k))) acc p.

Fixpoint max_planes (k : Z) (acc : plane (Qc * Z)) (ps : list (plane Qc))
    : plane (Qc * Z) :=
  match ps with
  | [] => acc
  | p :: ps' => max_planes (k + 1)%Z (max_step k acc p) ps'
  end.

Definition max_dim1_sample (s : list (plane Qc)) : option (plane (Qc * Z)) :=
  match s with
  | [] => None
  | p0 :: ps =>
      Some (max_planes 1%Z
              ((λ row : list Qc, (λ v : Qc, (v, 0%Z)) <$> row) <$> p0) ps)
  end.

Definition max_dim1 (t : tensor4) : option (tensor3 * list (plane Z)) :=
  vi ← mapM max_dim1_sample t;
  Some (map3 fst vi, map3 snd vi).

(** [t.view(a, b, c, d)] of a contiguous tensor of three dimensions:
    the entries are regrouped; [None] when their number is not
    [a * b * c * d]. *)
Fixpoint chunks {A} (k n : nat) (l : list A) : list (list A) :=
  match k with
  | 0 => []
  | S k' => take n l :: chunks k' n (drop n l)
  end.

Definition view4 {A} (a b c d : nat) (t : list (plane A))
    : option (list (list (plane A))) :=
  if bool_decide (numel3 t = a * b * c * d) then
    Some ((λ s : list A,
             (λ u : list A, chunks c d u) <$> chunks b (c * d) s)
            <$> chunks a (b * c * d) (mjoin (mjoin t)))
  else None.

(** ** The module-level helpers of [dacs.py] *)

(** A parameter or gradient tensor of any rank: its size and its entries
    in row-major order. *)
Record flat_tensor := mk_flat { dims : list nat; entries : list Qc }.

(** [torch.equal(a, b)]: the same size and the same entries. *)
Definition torch_equal (a b : flat_tensor) : bool :=
  bool_decide (dims a = dims b) && bool_decide (entries a = entries b).

(** [_params_equal(ema_model, model)].  A model is seen through
    [named_parameters()], the list of its parameters with their names;
    the loop runs over the [zip] of the two lists and returns at the
    first pair that differs. *)
Fixpoint params_equal_loop
    (pairs : list ((string * flat_tensor) * (string * flat_tensor))) : bool :=
  match pairs with
  | [] => true
  | (ema_param, param) :: pairs' =>
      if negb (torch_equal ema_param.2 param.2) then false
      else params_equal_loop pairs'
  end.

Definition _params_equal (ema_model model : list (string * flat_tensor))
    : bool :=
  params_equal_loop (zip ema_model model).

(** A Python float as [float(norm_type)] yields it: a number, one of the
    two infinities or NaN. *)
Inductive float := Finite (x : Qc) | Infinity | NegInfinity | NaN.

(** [x.abs()] on an entry. *)
Definition abs (x : Qc) : Qc := if bool_decide (x < 0)%Qc then (- x)%Qc else x.

(** Python's [max(a, b, ...)] over an iterable: the first of the largest
    items; [None] on an empty iterable, where [max] raises [ValueError]. *)
Definition py_max (l : list Qc) : option Qc :=
  match l with
  | [] => None
  | x :: l' =>
      Some (foldl (λ m y : Qc, if bool_decide (m < y)%Qc then y else m) x l')
  end.

(** [p.abs().max()]; [None] on a tensor without entries, where torch
    raises [RuntimeError]. *)
Definition abs_max (p : flat_tensor) : option Qc := py_max (abs <$> entries p).

(** [calc_grad_magnitude(grads, norm_type)]; [None] when the call raises.
    [torch_norm] is [torch.norm(t, p)], whose roots are not rational
    numbers; [torch.stack] raises on an empty list and makes a tensor of
    one dimension of the norms otherwise. *)
Definition calc_grad_magnitude (torch_norm : flat_tensor → float → Qc)
    (grads : list flat_tensor) (norm_type : float) : option Qc :=
  match norm_type with
  | Infinity => mapM abs_max grads ≫= py_max
  | _ =>
      let norms := (λ p, torch_norm p norm_type) <$> grads in
      if bool_decide (norms = []) then None
      else Some (torch_norm (mk_flat [length norms] norms) norm_type)
  end.

Module DACS.

(** The losses of the step that are back-propagated. *)
Inductive term := Clean | FDist | Mix | Contrastive | KL.

(** One call of [loss.backward()]: the gradients of the term are added
    to the gradient buffers of the student. *)
Inductive event := Backward (t : term) (loss : Qc).

(** The attributes of the [DACS] object that the step reads. *)
Record t := mk {
  local_iter : nat;
  pseudo_threshold : Qc;
  psweight_ignore_top : Z;
  psweight_ignore_bottom : Z;
  fdist_lambda : Qc;
  enable_fdist : bool;
  debug_img_interval : Z;
  start_distribution_iter : nat;
  feat_distributions : ProtoEstimator.t;
  (* every [backward()] of the session, oldest first *)
  grads : list event }.

(** The configuration entries read by [__init__]. *)
Record cfg := mk_cfg {
  cfg_pseudo_threshold : Qc;
  cfg_pseudo_weight_ignore_top : Z;
  cfg_pseudo_weight_ignore_bottom : Z;
  cfg_imnet_feature_dist_lambda : Qc;
  cfg_debug_img_interval : Z;
  cfg_mix : string }.

(** [DACS.__init__]: [assert self.mix == 'class']; the warm-up threshold
    is the constant 50 and the memory bank holds 19 classes of dimension
    512 with queues of length 200. *)
Definition __init__ (c : cfg) : option t :=
  if bool_decide (cfg_mix c = "class"%string) then
    est ← ProtoEstimator.__init__ (λ _, None) 512 19 200 "";
    Some (mk 0 (cfg_pseudo_threshold c) (cfg_pseudo_weight_ignore_top c)
            (cfg_pseudo_weight_ignore_bottom c)
            (cfg_imnet_feature_dist_lambda c)
            (bool_decide (0 < cfg_imnet_feature_dist_lambda c)%Qc)
            (cfg_debug_img_interval c) 50 est [])
  else None.

(** *** Pseudo-label generation (lines 284-298) *)

(** [pseudo_prob.ge(self.pseudo_threshold).long() == 1]. *)
Definition ge (threshold : Qc) (p : Qc) : bool := Qle_bool threshold p.
Definition long (b : bool) : Z := if b then 1%Z else 0%Z.
Definition ps_large_p (threshold : Qc) (pseudo_prob : tensor3)
    : list (plane bool) :=
  map3 (λ p, (long (ge threshold p) =? 1)%Z) pseudo_prob.

(** [torch.sum] of a boolean tensor. *)
Definition sum_bool (t : list (plane bool)) : nat :=
  length (filter (λ b, b = true) (mjoin (mjoin t))).

(** [pseudo_weight_]: [torch.sum(ps_large_p).item() / ps_size], a division
    of two Python integers, which raises for [ps_size = 0]. *)
Definition trust_weight (threshold : Qc) (pseudo_prob : tensor3)
    (pseudo_label : list (plane Z)) : option Qc :=
  let ps_size := numel3 pseudo_label in
  if bool_decide (ps_size = 0) then None
  else Some (of_nat (sum_bool (ps_large_p threshold pseudo_prob))
             / of_nat ps_size)%Qc.

(** The number of trusted pixels in the words of the specification: the
    pixels whose confidence is at least the threshold. *)
Definition trusted_pixels (threshold : Qc) (pseudo_prob : tensor3) : nat :=
  length (filter (λ p, (threshold ≤ p)%Qc) (mjoin (mjoin pseudo_prob))).

(** [torch.ones(t.shape)]: a tensor of the shape of [t]. *)
Definition ones_like {A} (t : list (plane A)) : tensor3 :=
  map3 (λ _, 1%Qc) t.

Definition scale (s : Qc) (t : tensor3) : tensor3 :=
  map3 (λ x, (s * x)%Qc) t.

(** [t[:, :top, :] = 0] for [top > 0]: the rows [0 .. top-1] of every
    sample. *)
Definition zero_top (top : Z) (t : tensor3) : tensor3 :=
  (λ img : plane Qc,
     imap (λ r (row : list Qc),
             if (Z.of_nat r <? top)%Z then (λ _, 0%Qc) <$> row else row)
          img) <$> t.

(** [t[:, -bottom:, :] = 0] for [bottom > 0]: the rows from
    [max(H - bottom, 0)] on. *)
Definition zero_bottom (bottom : Z) (t : tensor3) : tensor3 :=
  (λ img : plane Qc,
     imap (λ r (row : list Qc),
             if (Z.of_nat (length img) - bottom <=? Z.of_nat r)%Z
             then (λ _, 0%Qc) <$> row else row)
          img) <$> t.

(** [pseudo_weight]: the scalar everywhere, then the two bands. *)
Definition weight_map (psweight_ignore_top psweight_ignore_bottom : Z)
    (scalar : Qc) (pseudo_prob : tensor3) : tensor3 :=
  let w := scale scalar (ones_like pseudo_prob) in
  let w := if (0 <? psweight_ignore_top)%Z
           then zero_top psweight_ignore_top w else w in
  if (0 <? psweight_ignore_bottom)%Z
  then zero_bottom psweight_ignore_bottom w else w.

(** *** Collaborators

    The networks, the loss bookkeeping of the base class and the helpers
    of [dacs_transforms.py] and [contrastive_loss.py] are outside the two
    files embedded here.  They enter as an interface; every call of a
    collaborator is taken to return. *)
Class Collaborators := {
  (* feature maps and logits, which only travel between collaborators *)
  feat : Type;
  (* the entries of [strong_parameters] other than ['mix']: the random
     draws for colour jitter and blur, the mean and the std *)
  aug_params : Type;
  draw_strong_parameters : list image → aug_params;
  (* [self._parse_losses(losses)]: the total loss and the log variables *)
  parse_losses : dict → Qc * dict;
  (* [add_prefix(inputs, prefix)] *)
  add_prefix : dict → string → dict;
  (* [self.get_model().forward_train(img, img_metas, gt, seg_weight,
     return_feat=True)]: the losses and the ['features'] entry *)
  student_forward_train :
    list image → list (list (plane Z)) → option tensor3 → dict * feat;
  (* the feature distance of [calc_feat_dist] before it is scaled *)
  masked_feat_dist : list image → list (list (plane Z)) → feat → Qc;
  (* [torch.softmax(teacher.encode_decode(target_img), dim=1)] *)
  teacher_softmax : list image → tensor4;
  (* the two calls of the random [get_class_masks] *)
  mix_masks_of : list (list (plane Z)) → list (plane bool);
  target_masks_of : list (plane Z) → list (plane bool);
  (* colour jitter and blur of [strong_transform] *)
  augment : aug_params → image → image;
  target_strong_transform :
    aug_params → list (plane bool) → list image → list image * list image;
  student_encode_decode : list image → feat;
  student_extract_decode_context : list image → feat;
  teacher_encode_decode : list image → feat;
  teacher_extract_decode_context : list image → feat;
  (* [contrast_preparations(feat, labels, True, 0.75, 19, 255)] *)
  contrast_preparations :
    feat → list (list (plane Z)) → list (list Qc) * list Z;
  (* [bank_contrastive(feat, labels, bank)] *)
  bank_contrastive :
    feat → list (list (plane Z)) → list (Deque.deque (list (list Qc))) → Qc;
  (* [F.kl_div(log_softmax(student), softmax(teacher), 'batchmean')] *)
  kl_div : feat → feat → Qc }.

(** *** Domain mixing (lines 302-316) *)

(** [param['mix']] and the remaining entries. *)
Record strong_parameters `{Collaborators} := mk_params {
  mix : option (plane bool);
  aug : aug_params }.
Arguments mk_params {_} _ _.

(** The composite of two planes under a mask. *)
Definition select {A} (mask : plane bool) (src tgt : plane A) : plane A :=
  zip_with (λ (mrow : list bool) (st : list A * list A),
              zip_with (λ (m : bool) (xy : A * A), if m then xy.1 else xy.2)
                       mrow (zip st.1 st.2))
           mask (zip src tgt).

(** Modelled from the spec: [strong_transform] of
    [mmseg/models/utils/dacs_transforms.py], which is not among the
    sources.  Section 4.2: image, label and weight are composited with the
    mix mask (mask = 1 keeps source content, mask = 0 keeps target
    content), and the strong augmentation (colour jitter, blur) is applied
    to the composite image only.  [data] and [target] hold the stacked
    pair (source, target); an argument that is not passed comes back as
    [None]. *)
Definition strong_transform `{Collaborators} {A}
    (param : strong_parameters)
    (data : option (image * image)) (target : option (plane A * plane A))
    : option image * option (plane A) :=
  match mix param with
  | None => (fst <$> data, fst <$> target)
  | Some mask =>
      ((λ d : image * image,
          augment (aug param)
            (zip_with (λ s t : plane Qc, select mask s t) d.1 d.2)) <$> data,
       (λ p : plane A * plane A, select mask p.1 p.2) <$> target)
  end.

(** The state of the loop over the samples. *)
Record mixing := mk_mixing {
  mixed_img : list (option image);
  mixed_lbl : list (option (plane Z));
  mixed_weight : tensor3 }.

(** One iteration of [for i in range(batch_size)]; [None] when an index is
    out of range. *)
Definition mix_sample `{Collaborators} (params : aug_params)
    (mix_masks : list (plane bool))
    (img target_img : list image) (gt_semantic_seg : list (list (plane Z)))
    (pseudo_label : list (plane Z)) (gt_pixel_weight : tensor3)
    (st : mixing) (i : nat) : option mixing :=
  mask ← mix_masks !! i;
  let strong_parameters := mk_params (Some mask) params in
  img_i ← img !! i;
  target_img_i ← target_img !! i;
  gt_i ← gt_semantic_seg !! i;
  gt_i_0 ← gt_i !! 0;
  pseudo_label_i ← pseudo_label !! i;
  let '(d, l) := strong_transform strong_parameters
                   (Some (img_i, target_img_i))
                   (Some (gt_i_0, pseudo_label_i)) in
  gt_pixel_weight_i ← gt_pixel_weight !! i;
  pseudo_weight_i ← mixed_weight st !! i;
  w ← (strong_transform strong_parameters None
         (Some (gt_pixel_weight_i, pseudo_weight_i))).2;
  Some (mk_mixing (<[i := d]> (mixed_img st)) (<[i := l]> (mixed_lbl st))
          (<[i := w]> (mixed_weight st))).

(** Sample [i] has been mixed between two states of the loop: its image
    and its label are set and its weights are composited, all with the
    mix mask of the sample. *)
Definition mixed_sample `{Collaborators} (params : aug_params)
    (mix_masks : list (plane bool))
    (img target_img : list image) (gt_semantic_seg : list (list (plane Z)))
    (pseudo_label : list (plane Z)) (gt_pixel_weight : tensor3)
    (st st' : mixing) (i : nat) : Prop :=
  ∃ mask src tgt gt_i g p gw w,
    mix_masks !! i = Some mask ∧ img !! i = Some src ∧
    target_img !! i = Some tgt ∧
    gt_semantic_seg !! i = Some gt_i ∧ gt_i !! 0 = Some g ∧
    pseudo_label !! i = Some p ∧ gt_pixel_weight !! i = Some gw ∧
    mixed_weight st !! i = Some w ∧
    (i < length (mixed_img st) →
     mixed_img st' !! i
     = Some (Some (augment params
                     (zip_with (λ s t : plane Qc, select mask s t)
                               src tgt)))) ∧
    (i < length (mixed_lbl st) →
     mixed_lbl st' !! i = Some (Some (select mask g p))) ∧
    mixed_weight st' !! i = Some (select mask gw w).

(** Sample [i] is the same in two states of the loop. *)
Definition same_sample (st st' : mixing) (i : nat) : Prop :=
  mixed_img st' !! i = mixed_img st !! i ∧
  mixed_lbl st' !! i = mixed_lbl st !! i ∧
  mixed_weight st' !! i = mixed_weight st !! i.

(** The loop, then [torch.cat] of the two lists, which raises on an entry
    that is still [None]. *)
Definition apply_mixing `{Collaborators} (params : aug_params)
    (mix_masks : list (plane bool))
    (img target_img : list image) (gt_semantic_seg : list (list (plane Z)))
    (pseudo_label : list (plane Z)) (pseudo_weight : tensor3)
    : option (list image * list (plane Z) * tensor3) :=
  let batch_size := length img in
  let gt_pixel_weight := ones_like pseudo_weight in
  st ← foldl (λ (acc : option mixing) (i : nat),
                acc ≫= λ st, mix_sample params mix_masks img target_img
                               gt_semantic_seg pseudo_label gt_pixel_weight
                               st i)
             (Some (mk_mixing (replicate batch_size None)
                      (replicate batch_size None) pseudo_weight))
             (seq 0 batch_size);
  mixed_img ← mapM id (mixed_img st);
  mixed_lbl ← mapM id (mixed_lbl st);
  Some (mixed_img, mixed_lbl, mixed_weight st).

(** *** The step *)

(** The object with some attributes replaced. *)
Definition set_state (self : t) (n : nat) (est : ProtoEstimator.t)
    (g : list event) : t :=
  mk n (pseudo_threshold self) (psweight_ignore_top self)
     (psweight_ignore_bottom self) (fdist_lambda self) (enable_fdist self)
     (debug_img_interval self) (start_distribution_iter self) est g.

(** [loss.backward()]. *)
Definition backward (tm : term) (loss : Qc) : M t () :=
  self ← get;
  put (set_state self (local_iter self) (feat_distributions self)
         (grads self ++ [Backward tm loss])).

(** A method call on [self.feat_distributions]. *)
Definition on_feat_distributions {A} (m : M ProtoEstimator.t A) : M t A :=
  λ self,
    let '(r, est) := m (feat_distributions self) in
    (r, set_state self (local_iter self) est (grads self)).

(** [self.local_iter += 1]. *)
Definition incr_local_iter : M t () :=
  self ← get;
  put (set_state self (local_iter self + 1) (feat_distributions self)
         (grads self)).

(** [d.update(other)]: the entries of [other] win. *)
Definition update (d other : dict) : dict := other ∪ d.

(** [calc_feat_dist(img, gt, feat)]. *)
Definition calc_feat_dist `{Collaborators} (self : t) (img : list image)
    (gt : list (list (plane Z))) (feat : feat) : Qc * dict :=
  let feat_dist := masked_feat_dist img gt feat in
  let feat_dist := (fdist_lambda self * feat_dist)%Qc in
  let '(feat_loss, feat_log) :=
    parse_losses {[ "loss_imnet_feat_dist"%string := feat_dist ]} in
  (feat_loss, delete "loss"%string feat_log).

(** [DACS.forward_train(img, img_metas, gt_semantic_seg, target_img,
    target_img_metas)].  The meta data only travel to the collaborators
    and are left out; so are the construction of the teacher from its
    checkpoint at the head of the method, the log messages and the
    rendering of the debug images, which writes files and nothing
    else. *)
Definition forward_train `{Collaborators} (img : list image)
    (gt_semantic_seg : list (list (plane Z))) (target_img : list image)
    : M t dict :=
  self ← get;
  let log_vars : dict := ∅ in
  let strong_parameters := draw_strong_parameters img in
  (* Train on source images *)
  let '(clean_losses, src_feat) :=
    student_forward_train img gt_semantic_seg None in
  let '(clean_loss, clean_log_vars) := parse_losses clean_losses in
  let log_vars := update log_vars clean_log_vars in
  _ ← backward Clean clean_loss;
  (* ImageNet feature distance *)
  log_vars ←
    (if enable_fdist self then
       let '(feat_loss, feat_log) :=
         calc_feat_dist self img gt_semantic_seg src_feat in
       _ ← backward FDist feat_loss;
       mret (update log_vars (add_prefix feat_log "src"))
     else mret log_vars);
  (* Generate pseudo-label *)
  let ema_softmax := teacher_softmax target_img in
  '(pseudo_prob, pseudo_label) ← try_ RuntimeError (max_dim1 ema_softmax);
  pseudo_weight_ ← try_ ZeroDivisionError
    (trust_weight (pseudo_threshold self) pseudo_prob pseudo_label);
  let pseudo_weight :=
    weight_map (psweight_ignore_top self) (psweight_ignore_bottom self)
      pseudo_weight_ pseudo_prob in
  (* Apply mixing *)
  let mix_masks := mix_masks_of gt_semantic_seg in
  let target_masks := target_masks_of pseudo_label in
  '(mixed_img, mixed_lbl, pseudo_weight) ← try_ IndexError
    (apply_mixing strong_parameters mix_masks img target_img
       gt_semantic_seg pseudo_label pseudo_weight);
  (* Train on mixed images *)
  let '(mix_losses, _) :=
    student_forward_train mixed_img ((λ l, [l]) <$> mixed_lbl)
      (Some pseudo_weight) in
  let mix_losses := add_prefix mix_losses "mix" in
  let '(mix_loss, mix_log_vars) := parse_losses mix_losses in
  let log_vars := update log_vars mix_log_vars in
  _ ← backward Mix mix_loss;
  (* augment target image *)
  let '(aug_target_img, ori_target_img) :=
    target_strong_transform strong_parameters target_masks target_img in
  let target_kl_feat := student_encode_decode aug_target_img in
  let student_trg_feat := student_extract_decode_context target_img in
  let tea_target_feat := teacher_encode_decode ori_target_img in
  let tea_trg_feat := teacher_extract_decode_context target_img in
  (* bank update *)
  pseudo_label_cl ← try_ RuntimeError (view4 2 1 512 512 pseudo_label);
  let '(feat, mask) := contrast_preparations tea_trg_feat pseudo_label_cl in
  _ ← on_feat_distributions (ProtoEstimator.update_proto feat mask);
  self' ← get;
  bank ← try_ AttributeError
    (ProtoEstimator.MemoryBank (feat_distributions self'));
  (* contrastive loss *)
  _ ← (if bool_decide (start_distribution_iter self ≤ local_iter self) then
         let cl_loss := bank_contrastive student_trg_feat pseudo_label_cl bank in
         let '(cl_loss, _) :=
           parse_losses {[ "contrastive loss"%string := cl_loss ]} in
         backward Contrastive cl_loss
       else mret ());
  (* target kl loss *)
  let kl_loss_trg := kl_div target_kl_feat tea_target_feat in
  let kl_loss_trg := (pseudo_weight_ * kl_loss_trg)%Qc in
  let '(kl_loss_trg, _) :=
    parse_losses {[ "KL_div_loss_trg"%string := kl_loss_trg ]} in
  _ ← backward KL kl_loss_trg;
  (* [self.local_iter % self.debug_img_interval == 0] *)
  _ ← (if bool_decide (debug_img_interval self = 0%Z)
       then raise ZeroDivisionError else mret ());
  _ ← incr_local_iter;
  mret log_vars.


(** *** [train_step] *)

(** The term of a backward pass. *)
Definition event_term (ev : event) : term :=
  match ev with Backward tm _ => tm end.

(** One entry of [img_metas]. *)
Abbreviation meta := (gmap string string) (only parsing).

(** The entries of [data_batch] that a UDA data loader yields. *)
Record data_batch := mk_data_batch {
  db_img : list image;
  db_img_metas : list meta;
  db_gt_semantic_seg : list (list (plane Z));
  db_target_img : list image;
  db_target_img_metas : list meta }.

(** The optimizer, as far as [train_step] sees it: for every call of
    [step()], the backward passes whose gradients were in the gradient
    buffers when it was called, oldest call first. *)
Record optimizer := mk_optimizer { applied : list (list event) }.

(** What [train_step] returns: [dict(log_vars=..., num_samples=...)]. *)
Record outputs := mk_outputs { out_log_vars : dict; out_num_samples : nat }.

(** [optimizer.zero_grad()]: the gradient buffers are cleared. *)
Definition zero_grad : M (t * optimizer) () :=
  λ s, (Ok (), (set_state s.1 (local_iter s.1) (feat_distributions s.1) [],
                s.2)).

(** [optimizer.step()]: the parameters move along what the gradient
    buffers hold. *)
Definition step : M (t * optimizer) () :=
  λ s, (Ok (), (s.1, mk_optimizer (applied s.2 ++ [grads s.1]))).

(** A method call on [self]. *)
Definition on_self {A} (m : M t A) : M (t * optimizer) A :=
  λ s, let '(r, self') := m s.1 in (r, (self', s.2)).

(** [DACS.train_step(data_batch, optimizer)].  [call] is the
    call of [self] on the entries of [data_batch]. *)
Definition train_step (call : data_batch → M t dict)
    (data_batch : data_batch) : M (t * optimizer) outputs :=
  _ ← zero_grad;
  log_vars ← on_self (call data_batch);
  _ ← step;
  (* remove the unnecessary 'loss' *)
  let log_vars := delete "loss"%string log_vars in
  mret (mk_outputs log_vars (length (db_img_metas data_batch))).

(** The call of [self] on the entries of [data_batch]: it goes through [forward] of the base
    class [UDADecorator], which is outside the two files; with
    [return_loss] at its default it is taken to hand the entries of the
    batch to [forward_train], as the segmentors of mmseg do. *)
Definition forward `{Collaborators} (data_batch : data_batch) : M t dict :=
  forward_train (db_img data_batch) (db_gt_semantic_seg data_batch)
    (db_target_img data_batch).

(** One iteration of the runner: the networks as they are in that
    iteration (the optimizer moves the student between two iterations)
    and the batch. *)
Record iteration := mk_iteration {
  it_networks : Collaborators;
  it_data : data_batch }.

(** A training session: [train_step] once per iteration, until one
    raises. *)
Definition train (its : list iteration) : M (t * optimizer) () :=
  for_ its (λ it, _ ← train_step (@forward (it_networks it)) (it_data it);
                  mret ()).
End DACS.

(** ** Concrete sessions

    Small inputs on which the definitions above are run. *)

Definition q (n : Z) (d : positive) : Qc := Q2Qc (n # d).

Module Demo.

(** No file can be loaded. *)
Definition no_file : string → option ProtoEstimator.checkpoint := λ _, None.

(** A snapshot that was written without the key ['MemoryBank']. *)
Definition old_snapshot : ProtoEstimator.checkpoint :=
  ProtoEstimator.mk_checkpoint (zeros2 3 2) (zeros2 3 2) (zeros1 3) None.

Definition snapshot_file : string → option ProtoEstimator.checkpoint :=
  λ _, Some old_snapshot.

(** Four batches of two pixels of dimension 2; the first pixel is of
    class 2, the second of class 0. *)
Definition batch (k : Z) : list (list Qc) * list Z :=
  ([[q k 1; q (2 * k) 1]; [q 1 2; q k 3]], [2; 0]%Z).

Definition four_batches : list (list (list Qc) * list Z) :=
  [batch 1; batch 2; batch 3; batch 4].

(** Three pixels of dimension 2: two of class 2 and one of class 0. *)
Definition features3 : list (list Qc) :=
  [[q 1 1; q 2 1]; [q 3 1; q 5 1]; [q 7 1; q 7 2]].
Definition labels3 : list Z := [2; 0; 2]%Z.

(** An estimator for 3 classes of dimension 2 with queues of length 3. *)
Definition estimator : ProtoEstimator.t :=
  default (ProtoEstimator.mk 0 0 [] [] [] None)
          (ProtoEstimator.__init__ no_file 2 3 3 "").

End Demo.

(** ** Concrete steps *)

Module DemoStep.

(** Whether an outcome is a return. *)
Definition returns {A} (r : result A) : bool :=
  match r with Ok _ => true | Raise _ => false end.

(** The names of the log variables that a step returns, and the terms
    that have been back-propagated on an object, oldest first. *)
Definition logged (r : result (gmap string Qc)) : list string :=
  match r with Ok log_vars => (map_to_list log_vars).*1 | Raise _ => [] end.

Definition terms (self : DACS.t) : list DACS.term :=
  (λ ev, match ev with DACS.Backward tm _ => tm end) <$> DACS.grads self.


(** Stand-ins for the collaborators.  The losses are parsed as the base
    class of the segmentors does: the total is the sum of the entries
    whose name contains "loss", and it is logged under the name "loss".
    The teacher has two classes and takes the first channel of a pixel as
    the probability of class 0.  The mix mask of a sample selects the
    pixels of class 0. *)
Definition contains_loss (name : string) : bool :=
  match index 0 "loss" name with Some _ => true | None => false end.

Definition parse_losses (losses : gmap string Qc) : Qc * gmap string Qc :=
  let loss := map_fold (λ name value acc,
                          if contains_loss name then (value + acc)%Qc else acc)
                       0%Qc losses in
  (loss, <[ "loss"%string := loss ]> losses).

Definition add_prefix (inputs : gmap string Qc) (prefix : string)
    : gmap string Qc :=
  list_to_map
    ((λ kv : string * Qc, ((prefix +:+ "." +:+ kv.1)%string, kv.2))
       <$> map_to_list inputs).

Definition class_0_mask (label : list (list Z)) : list (list bool) :=
  (λ row : list Z, (λ l : Z, (l =? 0)%Z) <$> row) <$> label.

Definition collaborators : DACS.Collaborators := {|
  DACS.feat := ();
  DACS.aug_params := ();
  DACS.draw_strong_parameters := λ _, ();
  DACS.parse_losses := parse_losses;
  DACS.add_prefix := add_prefix;
  DACS.student_forward_train := λ _ _ _,
    ({[ "decode.loss_seg"%string := q 3 2;
        "decode.acc_seg"%string := q 1 2 ]}, ());
  DACS.masked_feat_dist := λ _ _ _, q 1 8;
  DACS.teacher_softmax := λ imgs,
    (λ img : list (list (list Qc)),
       let p := nth 0 img [] in
       [p; (λ row : list Qc, (λ x : Qc, (1 - x)%Qc) <$> row) <$> p])
      <$> imgs;
  DACS.mix_masks_of := λ gt,
    (λ g : list (list (list Z)), class_0_mask (nth 0 g [])) <$> gt;
  DACS.target_masks_of := λ pl, class_0_mask <$> pl;
  DACS.augment := λ _ img, img;
  DACS.target_strong_transform := λ _ _ imgs, (imgs, imgs);
  DACS.student_encode_decode := λ _, ();
  DACS.student_extract_decode_context := λ _, ();
  DACS.teacher_encode_decode := λ _, ();
  DACS.teacher_extract_decode_context := λ _, ();
  DACS.contrast_preparations := λ _ _, ([[q 1 1; q 2 1]], [3%Z]);
  DACS.bank_contrastive := λ _ _ _, q 5 4;
  DACS.kl_div := λ _ _, q 1 4 |}.

(** A batch of [n] grey images of [h] x [w] pixels, labelled 0. *)
Definition grey (n h w : nat) : list (list (list (list Qc))) :=
  replicate n (replicate 3 (replicate h (replicate w (q 1 2)))).
Definition labelled_0 (n h w : nat) : list (list (list (list Z))) :=
  replicate n [replicate h (replicate w 0%Z)].

Definition cfg : DACS.cfg :=
  DACS.mk_cfg (q 9 10) 15 120 0%Qc 1000 "class".

(** The object after construction, and in iteration 50. *)
Definition self0 : DACS.t :=
  default (DACS.mk 0 0%Qc 0 0 0%Qc false 0 0
             (ProtoEstimator.mk 0 0 [] [] [] None) [])
          (DACS.__init__ cfg).
Definition self50 : DACS.t :=
  DACS.set_state self0 50 (DACS.feat_distributions self0) (DACS.grads self0).

(** The scenario of the specification: 16 pixels, 4 of them with a
    confidence of at least 0.9. *)
Definition softmax_4x4 : list (list (list (list Qc))) :=
  [[ [ [q 19 20; q 1 2; q 9 10; q 3 5];
       [q 1 2; q 1 2; q 3 5; q 7 10];
       [q 4 5; q 99 100; q 1 2; q 1 2];
       [q 1 2; q 3 5; q 1 1; q 1 2] ];
     [ [q 1 20; q 1 2; q 1 10; q 2 5];
       [q 1 2; q 1 2; q 2 5; q 3 10];
       [q 1 5; q 1 100; q 1 2; q 1 2];
       [q 1 2; q 2 5; q 0 1; q 1 2] ] ]].

(** Two samples of 2 x 2 pixels for the mixing loop. *)
Definition img_2x2 : list (list (list (list Qc))) :=
  [ replicate 3 [[q 1 10; q 2 10]; [q 3 10; q 4 10]];
    replicate 3 [[q 5 10; q 6 10]; [q 7 10; q 8 10]] ].
Definition target_2x2 : list (list (list (list Qc))) :=
  [ replicate 3 [[q 1 1; q 1 1]; [q 0 1; q 0 1]];
    replicate 3 [[q 0 1; q 1 1]; [q 0 1; q 1 1]] ].
Definition gt_2x2 : list (list (list (list Z))) :=
  [ [[[0; 7]; [7; 0]]]; [[[0; 0]; [5; 5]]] ]%Z.
Definition pseudo_label_2x2 : list (list (list Z)) :=
  [ [[0; 0]; [1; 1]]; [[1; 0]; [1; 0]] ]%Z.
Definition pseudo_weight_2x2 : list (list (list Qc)) :=
  replicate 2 (replicate 2 (replicate 2 (q 1 4))).

(** What the two samples are mixed to: the pixels of class 0 of the
    source are pasted into the target. *)
Definition mixed_2x2 : list (list (list (list Qc))) :=
  [ replicate 3 [[q 1 10; q 1 1]; [q 0 1; q 4 10]];
    replicate 3 [[q 5 10; q 6 10]; [q 0 1; q 1 1]] ].

End DemoStep.


(** ** Concrete training iterations *)

Module DemoTrain.
Import DemoStep.

(** What an outcome returns, or a default when it is a raise. *)
Definition returned {A} (d : A) (r : result A) : A :=
  match r with Ok a => a | Raise _ => d end.


(** Two source and two target images of 512 x 512 pixels as the data
    loader yields them, and the object and a new optimizer in iteration
    50, with a gradient of an earlier iteration still in the buffers. *)
Definition batch_512 : DACS.data_batch :=
  DACS.mk_data_batch (grey 2 512 512) [∅; ∅] (labelled_0 2 512 512)
    (grey 2 512 512) [∅; ∅].
Definition stale50 : DACS.t * DACS.optimizer :=
  (DACS.set_state self50 50 (DACS.feat_distributions self50)
     [DACS.Backward DACS.KL (q 1 4)],
   DACS.mk_optimizer []).

(** A call of [self] that returns three log variables and leaves one
    backward pass. *)
Definition logging_call (_ : DACS.data_batch) : M DACS.t (gmap string Qc) :=
  _ ← DACS.backward DACS.Clean (q 3 2);
  mret ({[ "loss"%string := q 3 2; "decode.loss_seg"%string := q 3 2;
           "decode.acc_seg"%string := q 1 2 ]} : gmap string Qc).

(** A batch of two small images with three entries of meta data. *)
Definition small_batch : DACS.data_batch :=
  DACS.mk_data_batch (grey 2 2 2) [∅; ∅; ∅] (labelled_0 2 2 2) (grey 2 2 2)
    [∅; ∅].

End DemoTrain.


(** * Properties *)
Section deque_facts.
Context {A : Type}.
Implicit Types (d : Deque.deque A) (x : A) (l k : list A).
Import Deque.

Lemma lastn_all n l : length l ≤ n → lastn n l = l.
Proof. intros Hl. unfold lastn. by replace (length l - n) with 0 by lia. Qed.

Lemma lastn_length n l : length (lastn n l) = length l `min` n.
Proof. unfold lastn. rewrite length_drop. lia. Qed.

Lemma lastn_app_lastn n l k : lastn n (lastn n l ++ k) = lastn n (l ++ k).
Proof.
  destruct (decide (length l ≤ n)) as [Hl|Hl].
  { by rewrite (lastn_all n l). }
  unfold lastn at 1 3. rewrite !length_app, lastn_length.
  replace (length l `min` n) with n by lia.
  unfold lastn.
  destruct (decide (length k ≤ n)) as [Hk|Hk].
  - rewrite drop_app_le by (rewrite length_drop; lia).
    rewrite drop_app_le by lia. rewrite drop_drop. f_equal. f_equal. lia.
  - rewrite !drop_app_ge by (rewrite ?length_drop; lia).
    rewrite length_drop. f_equal. lia.
Qed.

Lemma append_maxlen d x : maxlen (append d x) = maxlen d.
Proof. done. Qed.

Lemma append_items d x :
  length (items d) ≤ maxlen d →
  items (append d x) = lastn (maxlen d) (items d ++ [x]).
Proof.
  intros Hd. unfold append, lastn. simpl. rewrite length_app. simpl.
  destruct (Nat.ltb_spec (maxlen d) (length (items d) + 1)).
  - replace (length (items d) + 1 - maxlen d) with 1 by lia.
    by destruct (items d ++ [x]).
  - by replace (length (items d) + 1 - maxlen d) with 0 by lia.
Qed.

Lemma append_length d x :
  length (items d) ≤ maxlen d → length (items (append d x)) ≤ maxlen d.
Proof. intros Hd. rewrite append_items, lastn_length by done. lia. Qed.

Lemma foldl_append_maxlen d l : maxlen (foldl append d l) = maxlen d.
Proof. revert d. induction l as [|x l IH]; intros d; simpl; [done|]. by rewrite IH. Qed.

Lemma foldl_append_items d l :
  length (items d) ≤ maxlen d →
  items (foldl append d l) = lastn (maxlen d) (items d ++ l).
Proof.
  revert d. induction l as [|x l IH]; intros d Hd; simpl.
  - rewrite app_nil_r. by rewrite lastn_all.
  - rewrite IH; [|by apply (append_length d x)].
    rewrite append_maxlen. rewrite (append_items d x Hd).
    rewrite lastn_app_lastn. by rewrite <- app_assoc.
Qed.

Lemma init_items l n : items (init l n) = lastn n l.
Proof. unfold init. by rewrite foldl_append_items by (simpl; lia). Qed.

Lemma init_maxlen l n : maxlen (init l n) = n.
Proof. unfold init. by rewrite foldl_append_maxlen. Qed.

Lemma init_length l n : length (items (init l n)) ≤ n.
Proof. rewrite init_items, lastn_length. lia. Qed.
End deque_facts.

Section tensor_facts.
Local Open Scope Qc_scope.

Lemma of_nat_S (n : nat) : of_nat (S n) = 1 + of_nat n.
Proof.
  unfold of_nat. apply Qc_is_canon. simpl.
  rewrite !Qred_correct. rewrite Nat2Z.inj_succ, <- Z.add_1_l.
  by rewrite inject_Z_plus.
Qed.

Lemma is_zero_of_nat_S (n : nat) : is_zero (of_nat (S n)) = false.
Proof.
  unfold is_zero, of_nat. apply not_true_is_false. intros H.
  apply Qeq_bool_iff in H. simpl in H. rewrite Qred_correct in H.
  unfold Qeq in H. simpl in H. lia.
Qed.

Lemma zip_with_mult_replicate (f : list Qc) (o : Qc) :
  zip_with Qcmult f (replicate (length f) o) = (λ x, x * o) <$> f.
Proof. induction f as [|x f IH]; csimpl; [done|]. by rewrite IH. Qed.

Lemma scale_by_1 (f : list Qc) : (λ x, x * 1) <$> f = f.
Proof. induction f as [|x f IH]; csimpl; [done|]. by rewrite IH, Qcmult_1_r. Qed.

Lemma scale_by_0 (f : list Qc) : (λ x, x * 0) <$> f = zeros1 (length f).
Proof. unfold zeros1. induction f as [|x f IH]; csimpl; [done|]. by rewrite IH, Qcmult_0_r. Qed.

Lemma vadd_zeros_l (v : list Qc) : zip_with Qcplus (zeros1 (length v)) v = v.
Proof. unfold zeros1. induction v as [|x v IH]; csimpl; [done|]. by rewrite IH, Qcplus_0_l. Qed.

Lemma vadd_replicate (n : nat) (x y : Qc) :
  zip_with Qcplus (replicate n x) (replicate n y) = replicate n (x + y).
Proof. induction n as [|n IH]; simpl; [done|]. by rewrite IH. Qed.

Lemma vsum_length (A : nat) (rows : list (list Qc)) :
  Forall (λ f, length f = A) rows →
  length (foldr (zip_with Qcplus) (zeros1 A) rows) = A.
Proof.
  induction 1 as [|f rows Hf _ IH]; simpl.
  - apply length_replicate.
  - rewrite length_zip_with. lia.
Qed.

Lemma sum0_cons (r c : nat) t (ts : list (list (list Qc))) :
  sum0 r c (t :: ts) = zip_with (zip_with Qcplus) t (sum0 r c ts).
Proof. done. Qed.

Lemma zeros2_lookup (r c i : nat) :
  (i < r)%nat → zeros2 r c !! i = Some (zeros1 c).
Proof. intros. by apply lookup_replicate_2. Qed.
End tensor_facts.

Section proto_mean.
Import ProtoEstimator.
Context (C A c : nat) (Hc : c < C).
Implicit Types (features : list (list Qc)) (labels : list Z).

Lemma scatter_rows_nil (m : list (list Qc)) : scatter_rows m [] = m.
Proof. by destruct m. Qed.

Lemma onehot_row_lookup (l : Z) :
  (0 ≤ l)%Z →
  <[Z.to_nat l := 1%Qc]> (zeros1 C) !! c
  = Some (if bool_decide (l = Z.of_nat c) then 1%Qc else 0%Qc).
Proof.
  intros Hl. unfold zeros1. case_bool_decide as Heq.
  - subst l. rewrite Nat2Z.id.
    apply list_lookup_insert_eq. by rewrite length_replicate.
  - rewrite list_lookup_insert_ne by lia. by apply lookup_replicate_2.
Qed.

Lemma by_sort_row (f oh : list Qc) (o : Qc) :
  length f = A → oh !! c = Some o →
  zip_with (zip_with Qcmult) (replicate C f)
    ((λ o : Qc, replicate A o) <$> oh) !! c
  = Some ((λ x, x * o)%Qc <$> f).
Proof.
  intros Hf Ho. rewrite lookup_zip_with.
  rewrite lookup_replicate_2 by done. simpl.
  rewrite list_lookup_fmap, Ho. simpl.
  by rewrite <- Hf, zip_with_mult_replicate.
Qed.

Lemma amount_row (oh : list Qc) (o : Qc) :
  oh !! c = Some o →
  ((λ o : Qc, replicate A o) <$> oh) !! c = Some (replicate A o).
Proof. intros Ho. by rewrite list_lookup_fmap, Ho. Qed.

Lemma class_pixels_cons f features l labels (k : Z) :
  class_pixels (f :: features) (l :: labels) k
  = if bool_decide (l = k) then f :: class_pixels features labels k
    else class_pixels features labels k.
Proof.
  unfold class_pixels. simpl. rewrite filter_cons. simpl.
  case_bool_decide; by case_decide.
Qed.

Lemma class_pixels_nil_r features (k : Z) : class_pixels features [] k = [].
Proof. unfold class_pixels. by destruct features. Qed.

Lemma class_pixels_rows features labels (k : Z) :
  Forall (λ f, length f = A) features →
  Forall (λ f, length f = A) (class_pixels features labels k).
Proof.
  intros Hf. revert labels. induction Hf as [|f features Hf _ IH]; intros [|l labels];
    try (by rewrite ?class_pixels_nil_r; constructor).
  rewrite class_pixels_cons. case_bool_decide; [constructor|]; auto.
Qed.

(** Row [c] of [features_by_sort.sum(0)]. *)
Lemma feature_sum features labels :
  Forall (λ f, length f = A) features →
  Forall (λ l, (0 ≤ l)%Z) labels →
  sum0 C A
    (zip_with (zip_with (zip_with Qcmult))
       ((λ f : list Qc, replicate C f) <$> features)
       ((λ row : list Qc, (λ o : Qc, replicate A o) <$> row)
          <$> scatter_rows (zeros2 (length features) C) labels)) !! c
  = Some (foldr (zip_with Qcplus) (zeros1 A)
            (class_pixels features labels (Z.of_nat c))).
Proof.
  intros Hf. revert labels.
  induction Hf as [|f features Hf Hfs IH]; intros labels Hl.
  { simpl. rewrite class_pixels_nil_r || (unfold class_pixels; simpl).
    all: by apply zeros2_lookup. }
  pose proof (class_pixels_rows features) as Hrows.
  change (zeros2 (length (f :: features)) C)
    with (zeros1 C :: zeros2 (length features) C).
  destruct labels as [|l labels]; csimpl.
  - rewrite lookup_zip_with.
    rewrite <- (scatter_rows_nil (zeros2 _ _)), (IH []) by constructor.
    rewrite (by_sort_row f _ 0%Qc) by (done || by apply lookup_replicate_2).
    simpl. rewrite ?class_pixels_nil_r. simpl.
    rewrite scale_by_0, Hf. f_equal.
    rewrite <- (length_replicate A 0%Qc) at 1. apply vadd_zeros_l.
  - apply Forall_cons in Hl as [Hl0 Hl'].
    rewrite lookup_zip_with, IH by done.
    rewrite (by_sort_row f _ _ Hf (onehot_row_lookup l Hl0)). simpl.
    rewrite class_pixels_cons. case_bool_decide; simpl.
    + by rewrite scale_by_1.
    + rewrite scale_by_0, Hf.
      rewrite <- (vsum_length A (class_pixels features labels (Z.of_nat c)))
        at 1 by by apply Hrows.
      by rewrite vadd_zeros_l.
Qed.

(** Row [c] of [NxCxA_onehot.sum(0)]. *)
Lemma amount_sum features labels :
  Forall (λ l, (0 ≤ l)%Z) labels →
  sum0 C A
    ((λ row : list Qc, (λ o : Qc, replicate A o) <$> row)
       <$> scatter_rows (zeros2 (length features) C) labels) !! c
  = Some (replicate A
            (of_nat (length (class_pixels features labels (Z.of_nat c))))).
Proof.
  revert labels. induction features as [|f features IH]; intros labels Hl.
  { simpl. rewrite zeros2_lookup by done. unfold class_pixels. by simpl. }
  change (zeros2 (length (f :: features)) C)
    with (zeros1 C :: zeros2 (length features) C).
  destruct labels as [|l labels]; csimpl.
  - rewrite lookup_zip_with.
    rewrite <- (scatter_rows_nil (zeros2 _ _)), (IH []) by constructor.
    rewrite (amount_row _ 0%Qc) by by apply lookup_replicate_2.
    simpl. rewrite ?class_pixels_nil_r. simpl.
    by rewrite vadd_replicate, Qcplus_0_l.
  - apply Forall_cons in Hl as [Hl0 Hl'].
    rewrite lookup_zip_with, IH by done.
    rewrite (amount_row _ _ (onehot_row_lookup l Hl0)). simpl.
    rewrite class_pixels_cons, vadd_replicate.
    case_bool_decide; simpl.
    + by rewrite of_nat_S.
    + by rewrite Qcplus_0_l.
Qed.
End proto_mean.

Section proto_update.
Import ProtoEstimator.
Implicit Types (features ave : list (list Qc)) (labels classes : list Z).
Implicit Types (self : ProtoEstimator.t).
Implicit Types (b : list (Deque.deque (list (list Qc)))).

Lemma zip_with_div_replicate (v : list Qc) (o : Qc) :
  zip_with Qcdiv v (replicate (length v) o) = (λ x, x / o)%Qc <$> v.
Proof. induction v as [|x v IH]; csimpl; [done|]. by rewrite IH. Qed.

Lemma scatter_Some C (onehot : list (list Qc)) labels m :
  scatter_ C onehot labels = Some m →
  m = scatter_rows onehot labels ∧ length labels ≤ length onehot
  ∧ Forall (λ l, (0 ≤ l < Z.of_nat C)%Z) labels.
Proof.
  unfold scatter_. destruct (_ && _) eqn:E; [|done].
  intros [= <-]. apply andb_true_iff in E as [E1 E2].
  apply bool_decide_eq_true in E1. split_and!; [done..|].
  apply Forall_forall. intros l Hl.
  apply list_elem_of_In in Hl.
  rewrite forallb_forall in E2. specialize (E2 l Hl).
  apply andb_true_iff in E2 as [?%Z.leb_le ?%Z.ltb_lt]. lia.
Qed.

Lemma ave_CxA_Some C features labels ave :
  ave_CxA C features labels = Some ave →
  length labels ≤ length features
  ∧ Forall (λ l, (0 ≤ l < Z.of_nat C)%Z) labels.
Proof.
  unfold ave_CxA. destruct (scatter_ _ _ _) as [m|] eqn:E; [|done].
  intros _. apply scatter_Some in E as (_ & Hlen & Hl).
  unfold zeros2 in Hlen. by rewrite length_replicate in Hlen.
Qed.

Lemma ave_CxA_None C features labels :
  ave_CxA C features labels = None ↔
  ¬ (length labels ≤ length features
     ∧ Forall (λ l, (0 ≤ l < Z.of_nat C)%Z) labels).
Proof.
  split.
  - intros Hn [H1 H2]. unfold ave_CxA, scatter_ in Hn.
    rewrite bool_decide_eq_true_2 in Hn
      by (unfold zeros2; by rewrite length_replicate).
    replace (forallb _ labels) with true in Hn; [done|].
    symmetry. apply forallb_forall. intros l Hl%list_elem_of_In.
    rewrite Forall_forall in H2. specialize (H2 l Hl).
    apply andb_true_iff. split; [apply Z.leb_le | apply Z.ltb_lt]; lia.
  - intros Hn. destruct (ave_CxA C features labels) eqn:E; [|done].
    by apply ave_CxA_Some in E.
Qed.

Lemma class_pixels_present features labels (k : Z) :
  length labels ≤ length features → k ∈ labels →
  class_pixels features labels k ≠ [].
Proof.
  revert features. induction labels as [|l labels IH]; intros features Hlen Hk.
  { by apply elem_of_nil in Hk. }
  destruct features as [|f features]; simpl in Hlen; [lia|].
  rewrite class_pixels_cons. case_bool_decide; [done|].
  apply elem_of_cons in Hk as [->|Hk]; [done|].
  apply IH; [lia|done].
Qed.

(** The row of a class that is present is the mean of its pixels. *)
Lemma ave_CxA_class_mean C features labels ave (c : nat) :
  let A := length (nth 0 features []) in
  ave_CxA C features labels = Some ave →
  Forall (λ f, length f = A) features →
  Z.of_nat c ∈ labels →
  nth c ave [] = class_mean A features labels (Z.of_nat c).
Proof.
  intros A Have Hrect Hc.
  pose proof (ave_CxA_Some _ _ _ _ Have) as [Hlen Hrange].
  assert (c < C) as HcC.
  { rewrite Forall_forall in Hrange. specialize (Hrange _ Hc). lia. }
  assert (Forall (λ l, (0 ≤ l)%Z) labels) as Hnn.
  { eapply Forall_impl; [exact Hrange|]. simpl. lia. }
  unfold ave_CxA in Have. fold A in Have.
  destruct (scatter_ _ _ _) as [m|] eqn:E; [|done].
  apply scatter_Some in E as (-> & _ & _).
  simpl in Have. injection Have as <-.
  rewrite nth_lookup, lookup_zip_with.
  rewrite (feature_sum C A c HcC) by done. simpl.
  rewrite list_lookup_fmap, (amount_sum C A c HcC) by done. simpl.
  rewrite fmap_replicate.
  pose proof (class_pixels_present features labels _ Hlen Hc) as Hne.
  unfold class_mean.
  destruct (class_pixels features labels (Z.of_nat c)) as [|p ps] eqn:Ep;
    [done|].
  change (length (p :: ps)) with (S (length ps)). rewrite is_zero_of_nat_S.
  rewrite <- (vsum_length A (p :: ps)) at 2.
  - by rewrite zip_with_div_replicate.
  - rewrite <- Ep. by apply class_pixels_rows.
Qed.
End proto_update.

Section proto_bank.
Import ProtoEstimator.
Implicit Types (features ave : list (list Qc)) (labels classes : list Z).
Implicit Types (self : ProtoEstimator.t).
Implicit Types (b : list (Deque.deque (list (list Qc)))).

Lemma set_MemoryBank_id self b :
  MemoryBank self = Some b → set_MemoryBank self b = self.
Proof. destruct self; simpl. by intros ->. Qed.

Lemma set_MemoryBank_twice self b b' :
  set_MemoryBank (set_MemoryBank self b) b' = set_MemoryBank self b'.
Proof. done. Qed.

Lemma unique_elem_of labels (k : Z) : k ∈ unique labels ↔ k ∈ labels.
Proof.
  unfold unique. rewrite merge_sort_Permutation. apply elem_of_remove_dups.
Qed.

Lemma unique_NoDup labels : NoDup (unique labels).
Proof.
  unfold unique. rewrite merge_sort_Permutation. apply NoDup_remove_dups.
Qed.

(** One pass of the loop over the classes, when it returns. *)
Lemma for_bank_append_Ok ave classes :
  ∀ self b self',
    MemoryBank self = Some b →
    NoDup classes →
    Forall (λ k, (0 ≤ k)%Z) classes →
    for_ classes (bank_append ave) self = (Ok (), self') →
    ∃ b', self' = set_MemoryBank self b' ∧ length b' = length b ∧
      ∀ i d, b !! i = Some d →
        b' !! i = Some (if bool_decide (Z.of_nat i ∈ classes)
                        then Deque.append d [nth i ave []] else d).
Proof.
  induction classes as [|cls classes IH]; intros self b self' Hb Hnd Hnn.
  - simpl. intros [= <-]. exists b. split_and!; [by rewrite set_MemoryBank_id|done|].
    by intros i d Hi.
  - apply NoDup_cons in Hnd as [Hcls Hnd].
    apply Forall_cons in Hnn as [Hcls0 Hnn].
    cbn [for_]. unfold mbind, M_bind, bank_append at 1.
    unfold mbind, M_bind, get, try_. rewrite Hb.
    unfold mret, M_ret.
    destruct (b !! Z.to_nat cls) as [d0|] eqn:Ed0; [|by unfold raise].
    unfold put. intros Hrun.
    eapply IH in Hrun as (b' & -> & Hlen & Hlook); [|done..].
    exists b'. rewrite length_insert in Hlen. split_and!; [done..|].
    intros i d Hi. destruct (decide (i = Z.to_nat cls)) as [->|Hne].
    + rewrite (Hlook _ (Deque.append d0 [nth (Z.to_nat cls) ave []])).
      * rewrite Z2Nat.id by done.
        rewrite (bool_decide_eq_false_2 (cls ∈ classes)) by done.
        rewrite (bool_decide_eq_true_2 (cls ∈ cls :: classes))
          by apply list_elem_of_here.
        congruence.
      * apply list_lookup_insert_eq. by eapply lookup_lt_Some.
    + rewrite (Hlook i d) by by rewrite list_lookup_insert_ne.
      rewrite (bool_decide_ext (Z.of_nat i ∈ cls :: classes)
                 (Z.of_nat i ∈ classes)); [done|].
      rewrite elem_of_cons. split; [|tauto]. intros [?|?]; [lia|done].
Qed.

(** The loop returns when the bank has a queue for each class. *)
Lemma for_bank_append_returns ave classes :
  ∀ self b,
    MemoryBank self = Some b →
    Forall (λ k, Z.to_nat k < length b) classes →
    ∃ self', for_ classes (bank_append ave) self = (Ok (), self').
Proof.
  induction classes as [|cls classes IH]; intros self b Hb Hin.
  - by eexists.
  - apply Forall_cons in Hin as [Hcls Hin].
    cbn [for_]. unfold mbind, M_bind, bank_append at 1.
    unfold mbind, M_bind, get, try_. rewrite Hb.
    unfold mret, M_ret.
    destruct (lookup_lt_is_Some_2 b _ Hcls) as [d0 ->].
    unfold put. eapply IH; [done|].
    by rewrite length_insert.
Qed.

Lemma update_proto_unfold features labels self :
  update_proto features labels self =
  match ave_CxA (class_num self) features labels with
  | Some ave => for_ (unique labels) (bank_append ave) self
  | None => (Raise RuntimeError, self)
  end.
Proof.
  unfold update_proto, mbind, M_bind, get, try_.
  by destruct (ave_CxA _ _ _).
Qed.

(** [update_proto] when it returns. *)
Lemma update_proto_Ok features labels self b self' :
  MemoryBank self = Some b →
  update_proto features labels self = (Ok (), self') →
  ∃ ave b', ave_CxA (class_num self) features labels = Some ave ∧
    self' = set_MemoryBank self b' ∧ length b' = length b ∧
    ∀ i d, b !! i = Some d →
      b' !! i = Some (if bool_decide (Z.of_nat i ∈ labels)
                      then Deque.append d [nth i ave []] else d).
Proof.
  intros Hb. rewrite update_proto_unfold.
  destruct (ave_CxA _ _ _) as [ave|] eqn:Eave; [|done].
  intros Hrun. eapply for_bank_append_Ok in Hrun as (b' & -> & Hlen & Hlook);
    [|done|apply unique_NoDup|].
  - exists ave, b'. split_and!; [done..|].
    intros i d Hi. rewrite (Hlook i d Hi).
    by rewrite (bool_decide_ext _ _ (unique_elem_of labels (Z.of_nat i))).
  - apply ave_CxA_Some in Eave as [_ Hr].
    apply Forall_forall. intros k Hk. rewrite unique_elem_of in Hk.
    rewrite Forall_forall in Hr. specialize (Hr k Hk). lia.
Qed.

(** On an estimator with a queue for each class, [update_proto] either
    returns or raises on its labels before it has written anything. *)
Lemma update_proto_total features labels self b :
  MemoryBank self = Some b → class_num self ≤ length b →
  (∃ self', update_proto features labels self = (Ok (), self'))
  ∨ (ave_CxA (class_num self) features labels = None
     ∧ update_proto features labels self = (Raise RuntimeError, self)).
Proof.
  intros Hb HC. rewrite update_proto_unfold.
  destruct (ave_CxA _ _ _) as [ave|] eqn:Eave; [left|by right].
  eapply for_bank_append_returns; [done|].
  apply ave_CxA_Some in Eave as [_ Hr].
  apply Forall_forall. intros k Hk. rewrite unique_elem_of in Hk.
  rewrite Forall_forall in Hr. specialize (Hr k Hk). lia.
Qed.
End proto_bank.

Section proto_session.
Import ProtoEstimator.
Implicit Types (self : ProtoEstimator.t).
Implicit Types (b : list (Deque.deque (list (list Qc)))).
Implicit Types (batches : list (list (list Qc) * list Z)).

Lemma init_fresh load dim C mlen self0 :
  __init__ load dim C mlen "" = Some self0 →
  class_num self0 = C ∧
  ∃ b0, MemoryBank self0 = Some b0 ∧ length b0 = C ∧
    ∀ c, c < C → b0 !! c = Some (Deque.init [[zeros1 dim]] mlen).
Proof.
  unfold __init__. rewrite bool_decide_eq_true_2 by done.
  intros [= <-]. simpl. split; [done|]. eexists. split; [done|].
  split; [by rewrite length_fmap, length_seq|].
  intros c Hc. rewrite list_lookup_fmap, lookup_seq_lt by done. simpl.
  rewrite nth_lookup, zeros2_lookup by done. done.
Qed.

Lemma received_cons C c batch batches :
  received C c (batch :: batches)
  = received C c [batch] ++ received C c batches.
Proof. unfold received. csimpl. by rewrite app_nil_r. Qed.

(** Whatever the outcome of a session, the bank is what the batches
    of a prefix of the session, all of them when it returns, have
    appended to the queues. *)
Lemma run_updates_bank batches :
  ∀ self b r self',
    MemoryBank self = Some b → class_num self ≤ length b →
    run_updates batches self = (r, self') →
    ∃ b' seen, MemoryBank self' = Some b' ∧ length b' = length b ∧
      seen `prefix_of` batches ∧ (r = Ok () → seen = batches) ∧
      ∀ i d, b !! i = Some d →
        b' !! i
        = Some (foldl Deque.append d (received (class_num self) i seen)).
Proof.
  induction batches as [|[features labels] batches IH];
    intros self b r self' Hb HC.
  { intros [= <- <-]. exists b, []. by split_and!. }
  unfold run_updates. cbn [for_]. unfold mbind at 1, M_bind at 1. simpl.
  destruct (update_proto_total features labels self b Hb HC)
    as [[self1 Hok]|[Hnone Hfail]].
  - rewrite Hok. intros Hrun.
    destruct (update_proto_Ok _ _ _ _ _ Hb Hok)
      as (ave & b1 & Have & -> & Hlen1 & Hlook1).
    eapply (IH _ b1) in Hrun as (b' & seen & Hb' & Hlen & Hpre & Hall & Hlook);
      [|done|simpl; lia].
    exists b', ((features, labels) :: seen). split_and!; [done|lia| | |].
    + by apply prefix_cons.
    + intros Hr. by rewrite Hall.
    + intros i d Hi. rewrite received_cons, foldl_app.
      rewrite (Hlook i _ (Hlook1 i d Hi)). simpl. f_equal. f_equal.
      unfold received. csimpl. rewrite Have. simpl.
      by case_bool_decide.
  - rewrite Hfail. intros [= <- <-]. exists b, []. split_and!; [done..| |done| ].
    + apply prefix_nil.
    + by intros i d Hi.
Qed.
End proto_session.

Section proto_claims.
Import ProtoEstimator.

(** C1.  A session that starts from a freshly constructed estimator:
    whatever the sequence of updates and whether or not it ends by
    raising, the queue of every class holds at most [memory_length]
    entries, and it holds the last [memory_length] entries of the zero
    seed followed by the entries the class received, in the order of
    insertion.  In particular, with [memory_length = 3] a class that
    received [v1, v2, v3, v4] holds exactly [v2, v3, v4]. *)
Theorem memory_bank_fifo load dim C memory_length batches self0 r self' c :
  __init__ load dim C memory_length "" = Some self0 →
  run_updates batches self0 = (r, self') →
  c < C →
  ∃ b d seen,
    MemoryBank self' = Some b ∧ b !! c = Some d ∧
    Deque.maxlen d = memory_length ∧
    length (Deque.items d) ≤ memory_length ∧
    seen `prefix_of` batches ∧ (r = Ok () → seen = batches) ∧
    Deque.items d
    = Deque.lastn memory_length ([zeros1 dim] :: received C c seen) ∧
    (memory_length = 3 → ∀ v1 v2 v3 v4,
       received C c seen = [v1; v2; v3; v4] →
       Deque.items d = [v2; v3; v4]).
Proof.
  intros Hinit Hrun Hc.
  destruct (init_fresh _ _ _ _ _ Hinit) as (HC & b0 & Hb0 & Hlen0 & Hseed).
  destruct (run_updates_bank batches self0 b0 r self' Hb0 ltac:(lia) Hrun)
    as (b & seen & Hb & Hlen & Hpre & Hall & Hlook).
  specialize (Hlook c _ (Hseed c Hc)). rewrite HC in Hlook.
  set (d := foldl Deque.append (Deque.init [[zeros1 dim]] memory_length)
              (received C c seen)) in *.
  assert (Deque.maxlen d = memory_length) as Hmax.
  { unfold d. by rewrite foldl_append_maxlen, init_maxlen. }
  assert (Deque.items d
          = Deque.lastn memory_length ([zeros1 dim] :: received C c seen))
    as Hitems.
  { unfold d. rewrite foldl_append_items.
    - by rewrite init_items, init_maxlen, lastn_app_lastn.
    - rewrite init_maxlen. apply init_length. }
  exists b, d, seen. split_and!; try done.
  - rewrite Hitems, lastn_length. lia.
  - intros -> v1 v2 v3 v4 Hrcv. by rewrite Hitems, Hrcv.
Qed.

Lemma memory_bank_fifo_witness :
  let self' := (run_updates Demo.four_batches Demo.estimator).2 in
  __init__ Demo.no_file 2 3 3 "" = Some Demo.estimator ∧
  run_updates Demo.four_batches Demo.estimator = (Ok (), self') ∧
  2 < 3 ∧
  ∃ b d seen,
    MemoryBank self' = Some b ∧ b !! 2 = Some d ∧
    Deque.maxlen d = 3 ∧
    length (Deque.items d) ≤ 3 ∧
    seen `prefix_of` Demo.four_batches ∧
    (Ok () = Ok () → seen = Demo.four_batches) ∧
    Deque.items d
    = Deque.lastn 3 ([zeros1 2] :: received 3 2 seen) ∧
    (3 = 3 → ∀ v1 v2 v3 v4,
       received 3 2 seen = [v1; v2; v3; v4] →
       Deque.items d = [v2; v3; v4]).
Proof.
  intros self'.
  assert (__init__ Demo.no_file 2 3 3 "" = Some Demo.estimator) as H1
    by reflexivity.
  assert (run_updates Demo.four_batches Demo.estimator = (Ok (), self'))
    as H2 by (vm_compute; reflexivity).
  assert (2 < 3) as H3 by lia.
  split_and!; [exact H1|exact H2|exact H3|].
  exact (memory_bank_fifo Demo.no_file 2 3 3 Demo.four_batches
           Demo.estimator (Ok ()) self' 2 H1 H2 H3).
Defined.

(** C6.  A call of [update_proto] that returns, on features of shape
    [N, A]: the queue of every class present among the labels gets
    exactly one new entry, the mean feature vector over the pixels of
    that class in the batch, and the queue of every other class is left
    as it was. *)
Theorem update_proto_appends_class_means features labels self b self' :
  let A := length (nth 0 features []) in
  Forall (λ f, length f = A) features →
  MemoryBank self = Some b →
  update_proto features labels self = (Ok (), self') →
  ∃ b', MemoryBank self' = Some b' ∧ length b' = length b ∧
    ∀ c d, b !! c = Some d →
      b' !! c
      = Some (if bool_decide (Z.of_nat c ∈ labels)
              then Deque.append d [class_mean A features labels (Z.of_nat c)]
              else d).
Proof.
  intros A Hrect Hb Hrun.
  destruct (update_proto_Ok _ _ _ _ _ Hb Hrun)
    as (ave & b' & Have & -> & Hlen & Hlook).
  exists b'. split_and!; [done..|].
  intros c d Hc. rewrite (Hlook c d Hc).
  case_bool_decide as Hin; [|done].
  by rewrite (ave_CxA_class_mean _ _ _ _ c Have Hrect Hin).
Qed.

Lemma update_proto_appends_class_means_witness :
  let self' := (update_proto Demo.features3 Demo.labels3 Demo.estimator).2 in
  let b := default [] (MemoryBank Demo.estimator) in
  Forall (λ f, length f = 2) Demo.features3 ∧
  MemoryBank Demo.estimator = Some b ∧
  update_proto Demo.features3 Demo.labels3 Demo.estimator = (Ok (), self') ∧
  ∃ b', MemoryBank self' = Some b' ∧ length b' = length b ∧
    ∀ c d, b !! c = Some d →
      b' !! c
      = Some (if bool_decide (Z.of_nat c ∈ Demo.labels3)
              then Deque.append d
                     [class_mean 2 Demo.features3 Demo.labels3 (Z.of_nat c)]
              else d).
Proof.
  intros self' b.
  assert (Forall (λ f, length f = 2) Demo.features3) as H1
    by (repeat constructor).
  assert (MemoryBank Demo.estimator = Some b) as H2 by reflexivity.
  assert (update_proto Demo.features3 Demo.labels3 Demo.estimator
          = (Ok (), self')) as H3 by (vm_compute; reflexivity).
  split_and!; [exact H1|exact H2|exact H3|].
  exact (update_proto_appends_class_means Demo.features3 Demo.labels3
           Demo.estimator b self' H1 H2 H3).
Defined.

(** C7, as the code has it.  On an estimator that is constructed
    without a snapshot and with [memory_length >= 1], the queue of every
    class in [0, C) is non-empty after construction and after any
    sequence of updates, whether or not the sequence ends by raising. *)
Theorem memory_bank_nonempty_fresh
    load dim C memory_length batches self0 r self' c :
  1 ≤ memory_length →
  __init__ load dim C memory_length "" = Some self0 →
  run_updates batches self0 = (r, self') →
  c < C →
  ∃ b d, MemoryBank self' = Some b ∧ b !! c = Some d ∧ Deque.items d ≠ [].
Proof.
  intros Hm Hinit Hrun Hc.
  destruct (init_fresh _ _ _ _ _ Hinit) as (HC & b0 & Hb0 & Hlen0 & Hseed).
  destruct (run_updates_bank batches self0 b0 r self' Hb0 ltac:(lia) Hrun)
    as (b & seen & Hb & Hlen & Hpre & Hall & Hlook).
  specialize (Hlook c _ (Hseed c Hc)).
  eexists b, _. split_and!; [done..|].
  intros Hnil%(f_equal length). revert Hnil.
  rewrite foldl_append_items by (rewrite init_maxlen; apply init_length).
  rewrite init_items, init_maxlen, lastn_app_lastn, lastn_length.
  cbn [length app]. lia.
Qed.

Lemma memory_bank_nonempty_fresh_witness :
  let self' := (run_updates Demo.four_batches Demo.estimator).2 in
  1 ≤ 3 ∧
  __init__ Demo.no_file 2 3 3 "" = Some Demo.estimator ∧
  run_updates Demo.four_batches Demo.estimator = (Ok (), self') ∧
  1 < 3 ∧
  ∃ b d, MemoryBank self' = Some b ∧ b !! 1 = Some d ∧ Deque.items d ≠ [].
Proof.
  intros self'.
  assert (1 ≤ 3) as H0 by lia.
  assert (__init__ Demo.no_file 2 3 3 "" = Some Demo.estimator) as H1
    by reflexivity.
  assert (run_updates Demo.four_batches Demo.estimator = (Ok (), self'))
    as H2 by (vm_compute; reflexivity).
  assert (1 < 3) as H3 by lia.
  split_and!; [exact H0|exact H1|exact H2|exact H3|].
  exact (memory_bank_nonempty_fresh Demo.no_file 2 3 3 Demo.four_batches
           Demo.estimator (Ok ()) self' 1 H0 H1 H2 H3).
Defined.

(** C7 as stated fails on two inputs.  An estimator resumed from a
    snapshot without the key ['MemoryBank'] has no bank at all, and a
    fresh estimator with [memory_length = 0] has empty queues. *)
Lemma memory_bank_nonempty_counterexample :
  (∃ self0,
     __init__ Demo.snapshot_file 2 3 3 "latest.pth" = Some self0 ∧
     MemoryBank self0 = None) ∧
  (∃ self0 b d,
     __init__ Demo.no_file 2 3 0 "" = Some self0 ∧
     MemoryBank self0 = Some b ∧ b !! 0 = Some d ∧ Deque.items d = []).
Proof.
  split.
  - eexists. split; reflexivity.
  - eexists _, _, _. split_and!; reflexivity.
Qed.
End proto_claims.

Section tensor3_facts.
Context {A B : Type}.
Implicit Types (t : list (list (list A))) (f : A → B).

Lemma at3_map3 f t b r c : at3 (map3 f t) b r c = f <$> at3 t b r c.
Proof.
  unfold at3, at2, map3. rewrite list_lookup_fmap.
  destruct (t !! b) as [img|]; [simpl|done].
  rewrite list_lookup_fmap. destruct (img !! r) as [row|]; [simpl|done].
  by rewrite list_lookup_fmap.
Qed.

Lemma concat_map3 f t :
  mjoin (mjoin (map3 f t)) = f <$> mjoin (mjoin t).
Proof.
  unfold map3. induction t as [|img t IH]; [done|]. csimpl.
  rewrite !join_app, fmap_app, IH. f_equal.
  clear IH. induction img as [|row img IH]; [done|]. csimpl.
  by rewrite fmap_app, IH.
Qed.

Lemma numel3_map3 f t : numel3 (map3 f t) = numel3 t.
Proof. unfold numel3. by rewrite concat_map3, length_fmap. Qed.


Lemma elem_of_at3 t x :
  x ∈ mjoin (mjoin t) → ∃ b r c, at3 t b r c = Some x.
Proof.
  intros (row & Hx & (img & Hrow & Himg)%list_elem_of_join)%list_elem_of_join.
  apply list_elem_of_lookup_1 in Hx as [c Hc].
  apply list_elem_of_lookup_1 in Hrow as [r Hr].
  apply list_elem_of_lookup_1 in Himg as [b Hb].
  exists b, r, c. unfold at3, at2. rewrite Hb. simpl. rewrite Hr. by simpl.
Qed.
End tensor3_facts.

Lemma shape_map3 {A B} (f : A → B) (t : list (list (list A))) :
  shape (map3 f t) = shape t.
Proof.
  unfold shape, map3. rewrite <- list_fmap_compose. apply list_fmap_ext.
  intros _ img _. simpl. rewrite <- list_fmap_compose. apply list_fmap_ext.
  intros _ row _. simpl. by rewrite <- list_fmap_compose.
Qed.

Section pseudo_label_facts.
Import DACS.

Lemma max_dim1_Some ema_softmax pseudo_prob pseudo_label :
  max_dim1 ema_softmax = Some (pseudo_prob, pseudo_label) →
  ∃ vi, pseudo_prob = map3 fst vi ∧ pseudo_label = map3 snd vi.
Proof.
  unfold max_dim1. destruct (mapM _ _) as [vi|]; [|done].
  intros [= <- <-]. by exists vi.
Qed.

Lemma max_dim1_shapes ema_softmax pseudo_prob pseudo_label :
  max_dim1 ema_softmax = Some (pseudo_prob, pseudo_label) →
  shape pseudo_prob = shape pseudo_label
  ∧ numel3 pseudo_prob = numel3 pseudo_label.
Proof.
  intros (vi & -> & ->)%max_dim1_Some.
  by rewrite !shape_map3, !numel3_map3.
Qed.

Lemma ge_true (threshold p : Qc) :
  (long (ge threshold p) =? 1)%Z = true ↔ (threshold ≤ p)%Qc.
Proof.
  unfold ge, long, Qcle. rewrite <- Qle_bool_iff.
  by destruct (Qle_bool threshold p).
Qed.

Lemma sum_bool_trusted threshold pseudo_prob :
  sum_bool (ps_large_p threshold pseudo_prob)
  = trusted_pixels threshold pseudo_prob.
Proof.
  unfold sum_bool, ps_large_p, trusted_pixels. rewrite concat_map3.
  induction (mjoin (mjoin pseudo_prob)) as [|p l IH]; [done|].
  rewrite fmap_cons, !filter_cons.
  pose proof (ge_true threshold p) as Hp.
  destruct (long (ge threshold p) =? 1)%Z.
  - rewrite decide_True by done. rewrite decide_True by by apply Hp.
    simpl. by rewrite IH.
  - rewrite decide_False by done.
    rewrite decide_False by (intros H%Hp; done). done.
Qed.

Lemma trusted_le_numel threshold pseudo_prob :
  trusted_pixels threshold pseudo_prob ≤ numel3 pseudo_prob.
Proof. apply length_filter. Qed.

Lemma of_nat_this (n : nat) : (of_nat n : Q) == inject_Z (Z.of_nat n).
Proof. unfold of_nat. simpl. apply Qred_correct. Qed.

Lemma of_nat_0 : of_nat 0 = 0%Qc.
Proof. by apply Qc_is_canon. Qed.

Lemma of_nat_frac_bounds (n m : nat) :
  0 < m → n ≤ m → (0 ≤ of_nat n / of_nat m ≤ 1)%Qc.
Proof.
  intros Hm Hn.
  assert ((of_nat n / of_nat m)%Qc
          == inject_Z (Z.of_nat n) / inject_Z (Z.of_nat m))%Q as Heq.
  { unfold Qcdiv, Qcmult, Qcinv, of_nat. cbn [this Q2Qc].
    by rewrite !Qred_correct. }
  unfold Qcle. rewrite Heq. change (this 0%Qc) with 0%Q.
  change (this 1%Qc) with 1%Q.
  assert (0 < inject_Z (Z.of_nat m))%Q as Hpos.
  { change 0%Q with (inject_Z 0). rewrite <- Zlt_Qlt. lia. }
  split.
  - apply Qle_shift_div_l; [done|]. rewrite Qmult_0_l.
    change 0%Q with (inject_Z 0). rewrite <- Zle_Qle. lia.
  - apply Qle_shift_div_r; [done|]. rewrite Qmult_1_l.
    rewrite <- Zle_Qle. lia.
Qed.

(** C2.  On a batch with at least one pixel, the trust weight is the
    number of pixels whose confidence is at least the threshold divided
    by the number of pixels of the batch, and so it lies in [0, 1].  It
    is computed from the confidences alone: the bands that are zeroed
    in the weight map afterwards do not enter. *)
Theorem trust_weight_is_fraction
    threshold ema_softmax pseudo_prob pseudo_label :
  max_dim1 ema_softmax = Some (pseudo_prob, pseudo_label) →
  numel3 pseudo_label ≠ 0 →
  ∃ s, trust_weight threshold pseudo_prob pseudo_label = Some s ∧
    s = (of_nat (trusted_pixels threshold pseudo_prob)
         / of_nat (numel3 pseudo_prob))%Qc ∧
    numel3 pseudo_prob = numel3 pseudo_label ∧
    (0 ≤ s ≤ 1)%Qc.
Proof.
  intros [_ Hnum]%max_dim1_shapes Hne.
  unfold trust_weight. rewrite bool_decide_eq_false_2 by done.
  eexists. split; [done|]. rewrite sum_bool_trusted, <- Hnum.
  split_and!; [done..| |]; apply of_nat_frac_bounds;
    (lia || apply trusted_le_numel).
Qed.
End pseudo_label_facts.

Section weight_map_facts.
Import DACS.
Implicit Types (t : list (list (list Qc))).

Lemma lookup_map3 {A B} (f : A → B) (t : list (list (list A))) b :
  map3 f t !! b
  = (λ img : list (list A), (λ row : list A, f <$> row) <$> img) <$> t !! b.
Proof. unfold map3. by rewrite list_lookup_fmap. Qed.

Lemma at3_zero_top top t b r c :
  at3 (zero_top top t) b r c
  = (λ x, if (Z.of_nat r <? top)%Z then 0%Qc else x) <$> at3 t b r c.
Proof.
  unfold at3, at2, zero_top. rewrite list_lookup_fmap.
  destruct (t !! b) as [img|]; [simpl|done].
  rewrite list_lookup_imap. destruct (img !! r) as [row|]; [simpl|done].
  destruct (Z.of_nat r <? top)%Z.
  - rewrite list_lookup_fmap. by destruct (row !! c).
  - by destruct (row !! c).
Qed.

Lemma at3_zero_bottom bottom t b r c img :
  t !! b = Some img →
  at3 (zero_bottom bottom t) b r c
  = (λ x, if (Z.of_nat (length img) - bottom <=? Z.of_nat r)%Z
          then 0%Qc else x) <$> at3 t b r c.
Proof.
  intros Hb. unfold at3, at2, zero_bottom. rewrite list_lookup_fmap, Hb.
  simpl. rewrite list_lookup_imap.
  destruct (img !! r) as [row|]; [simpl|done].
  destruct (Z.of_nat (length img) - bottom <=? Z.of_nat r)%Z.
  - rewrite list_lookup_fmap. by destruct (row !! c).
  - by destruct (row !! c).
Qed.

Lemma shape_rows (f : nat → list Qc → list Qc) t :
  (∀ r row, (λ _, ()) <$> f r row = (λ _, ()) <$> row) →
  shape ((λ img : list (list Qc), imap f img) <$> t) = shape t.
Proof.
  intros Hf. unfold shape, map3. rewrite <- list_fmap_compose.
  apply list_fmap_ext. intros _ img _. simpl.
  apply list_eq. intros r.
  rewrite !list_lookup_fmap, list_lookup_imap.
  destruct (img !! r) as [row|]; [simpl|done]. by rewrite Hf.
Qed.

Lemma shape_zero_top top t : shape (zero_top top t) = shape t.
Proof.
  apply shape_rows. intros r row.
  destruct (Z.of_nat r <? top)%Z; [|done]. by rewrite <- list_fmap_compose.
Qed.

Lemma shape_zero_bottom bottom t : shape (zero_bottom bottom t) = shape t.
Proof.
  unfold shape, map3, zero_bottom. rewrite <- list_fmap_compose.
  apply list_fmap_ext. intros _ img _. simpl.
  apply list_eq. intros r.
  rewrite !list_lookup_fmap, list_lookup_imap.
  destruct (img !! r) as [row|]; [simpl|done].
  destruct (_ <=? _)%Z; [|done]. by rewrite <- list_fmap_compose.
Qed.

(** Two tensors of one shape have samples of the same height. *)
Lemma shape_height {A B} (t : list (list (list A)))
    (u : list (list (list B))) b img :
  shape t = shape u → t !! b = Some img →
  ∃ img', u !! b = Some img' ∧ length img' = length img.
Proof.
  intros Hs Hb. apply (f_equal (.!! b)) in Hs.
  unfold shape in Hs. rewrite !lookup_map3, Hb in Hs. simpl in Hs.
  destruct (u !! b) as [img'|]; [|done]. exists img'. split; [done|].
  injection Hs as Hs. apply (f_equal length) in Hs.
  by rewrite !length_fmap in Hs.
Qed.

Lemma shape_at3 {A B} (t : list (list (list A)))
    (u : list (list (list B))) b r c :
  shape t = shape u → is_Some (at3 t b r c) ↔ is_Some (at3 u b r c).
Proof.
  intros Hs.
  assert (at3 (shape t) b r c = at3 (shape u) b r c) as H by by rewrite Hs.
  unfold shape in H. rewrite !at3_map3 in H.
  rewrite <- !not_eq_None_Some.
  destruct (at3 t b r c), (at3 u b r c); naive_solver.
Qed.

Lemma shape_weight_map (top bottom : Z) s pseudo_prob :
  shape (weight_map top bottom s pseudo_prob) = shape pseudo_prob.
Proof.
  unfold weight_map, scale, ones_like.
  repeat case_match;
    by rewrite ?shape_zero_bottom, ?shape_zero_top, !shape_map3.
Qed.

(** An entry of the weight map. *)
Lemma at3_weight_map (top bottom : Z) s pseudo_prob b r c img :
  pseudo_prob !! b = Some img →
  at3 (weight_map top bottom s pseudo_prob) b r c
  = (λ _, if (0 <? top)%Z && (Z.of_nat r <? top)%Z
             || (0 <? bottom)%Z
                && (Z.of_nat (length img) - bottom <=? Z.of_nat r)%Z
          then 0%Qc else s) <$> at3 pseudo_prob b r c.
Proof.
  intros Hb. unfold weight_map.
  set (w0 := scale s (ones_like pseudo_prob)).
  assert (∀ r c, at3 w0 b r c = (λ _, s) <$> at3 pseudo_prob b r c) as Hw0.
  { intros r' c'. unfold w0, scale, ones_like. rewrite !at3_map3.
    destruct (at3 pseudo_prob b r' c'); [simpl|done].
    by rewrite Qcmult_1_r. }
  assert (shape w0 = shape pseudo_prob) as Hs0.
  { unfold w0, scale, ones_like. by rewrite !shape_map3. }
  destruct (0 <? top)%Z; destruct (0 <? bottom)%Z; simpl.
  - destruct (shape_height pseudo_prob (zero_top top w0) b img)
      as (img' & Hb' & Hlen);
      [by rewrite shape_zero_top|done|].
    rewrite (at3_zero_bottom _ _ _ _ _ _ Hb'), at3_zero_top, Hw0, Hlen.
    destruct (at3 pseudo_prob b r c); [simpl|done].
    by destruct (_ <=? _)%Z, (_ <? _)%Z.
  - rewrite at3_zero_top, Hw0, orb_false_r.
    by destruct (at3 pseudo_prob b r c).
  - destruct (shape_height pseudo_prob w0 b img) as (img' & Hb' & Hlen);
      [done..|].
    rewrite (at3_zero_bottom _ _ _ _ _ _ Hb'), Hw0, Hlen.
    by destruct (at3 pseudo_prob b r c).
  - apply Hw0.
Qed.

(** C5.  With [ignore_top > 0] and [ignore_bottom > 0], every entry of
    the weight map in one of the first [ignore_top] rows or in one of
    the last [ignore_bottom] rows of its sample is 0, whatever the
    confidences, every other entry is the trust-weight scalar, so the
    entries lie in {0, scalar}, and the map has the shape of the label
    map. *)
Theorem weight_map_bands
    (ignore_top ignore_bottom : Z) s ema_softmax pseudo_prob pseudo_label :
  max_dim1 ema_softmax = Some (pseudo_prob, pseudo_label) →
  (0 < ignore_top)%Z →
  (0 < ignore_bottom)%Z →
  let w := weight_map ignore_top ignore_bottom s pseudo_prob in
  shape w = shape pseudo_label ∧
  ∀ b lbl r c x,
    pseudo_label !! b = Some lbl → at3 w b r c = Some x →
    ((Z.of_nat r < ignore_top)%Z → x = 0%Qc) ∧
    ((Z.of_nat (length lbl) - ignore_bottom ≤ Z.of_nat r)%Z → x = 0%Qc) ∧
    ((ignore_top ≤ Z.of_nat r < Z.of_nat (length lbl) - ignore_bottom)%Z
     → x = s) ∧
    (x = 0%Qc ∨ x = s).
Proof.
  intros [Hshape _]%max_dim1_shapes Htop Hbottom w.
  split; [unfold w; by rewrite shape_weight_map|].
  intros b lbl r c x Hb Hx.
  destruct (shape_height pseudo_label pseudo_prob b lbl)
    as (img & Himg & Hlen); [done..|].
  unfold w in Hx. rewrite (at3_weight_map _ _ _ _ _ _ _ _ Himg), Hlen in Hx.
  destruct (at3 pseudo_prob b r c); [simpl in Hx|done].
  injection Hx as <-.
  apply Z.ltb_lt in Htop as ->. apply Z.ltb_lt in Hbottom as ->. simpl.
  destruct (Z.ltb_spec (Z.of_nat r) ignore_top);
    destruct (Z.leb_spec (Z.of_nat (length lbl) - ignore_bottom)
                (Z.of_nat r));
    simpl; split_and!; (done || lia || tauto).
Qed.
End weight_map_facts.

Section mixing_facts.
Import DACS.
Context `{Collaborators}.

Lemma at2_select {A} (mask : list (list bool)) (src tgt : list (list A)) r c :
  at2 (select mask src tgt) r c
  = (m ← at2 mask r c; x ← at2 src r c; y ← at2 tgt r c;
     Some (if m : bool then x else y)).
Proof.
  unfold at2, select. rewrite !lookup_zip_with.
  destruct (mask !! r) as [mrow|]; [simpl|done].
  destruct (src !! r) as [srow|]; [simpl|by destruct (mrow !! c)].
  destruct (tgt !! r) as [trow|];
    [simpl|by destruct (mrow !! c), (srow !! c)].
  rewrite !lookup_zip_with.
  destruct (mrow !! c) as [m|]; [simpl|done].
  destruct (srow !! c) as [x|]; [simpl|done].
  by destruct (trow !! c) as [y|].
Qed.

Lemma at2_ones (p : list (list Qc)) r c :
  at2 ((λ row : list Qc, (λ _, 1%Qc) <$> row) <$> p) r c
  = (λ _, 1%Qc) <$> at2 p r c.
Proof.
  unfold at2. rewrite list_lookup_fmap.
  destruct (p !! r) as [row|]; [simpl|done]. by rewrite list_lookup_fmap.
Qed.

Context (params : aug_params) (mix_masks : list (list (list bool)))
  (img target_img : list (list (list (list Qc))))
  (gt_semantic_seg : list (list (list (list Z))))
  (pseudo_label : list (list (list Z)))
  (gt_pixel_weight : list (list (list Qc))).

Local Abbreviation body :=
  (λ (acc : option mixing) (i : nat),
     acc ≫= λ st, mix_sample params mix_masks img target_img
                    gt_semantic_seg pseudo_label gt_pixel_weight st i).

Lemma mix_loop_None idx : foldl body None idx = None.
Proof. by induction idx. Qed.

Local Abbreviation mixed st st' i :=
  (mixed_sample params mix_masks img target_img gt_semantic_seg
     pseudo_label gt_pixel_weight st st' i).

Lemma mix_sample_Some st i st' :
  mix_sample params mix_masks img target_img gt_semantic_seg pseudo_label
    gt_pixel_weight st i = Some st' →
  mixed st st' i ∧ (∀ j, j ≠ i → same_sample st st' j) ∧
  length (mixed_img st') = length (mixed_img st) ∧
  length (mixed_lbl st') = length (mixed_lbl st).
Proof.
  unfold mix_sample. intros Hs.
  destruct (mix_masks !! i) as [mask|] eqn:E1; [simpl in Hs|done].
  destruct (img !! i) as [src|] eqn:E2; [simpl in Hs|done].
  destruct (target_img !! i) as [tgt|] eqn:E3; [simpl in Hs|done].
  destruct (gt_semantic_seg !! i) as [gt_i|] eqn:E4; [simpl in Hs|done].
  destruct (gt_i !! 0) as [g|] eqn:E5; [simpl in Hs|done].
  destruct (pseudo_label !! i) as [p|] eqn:E6; [simpl in Hs|done].
  destruct (gt_pixel_weight !! i) as [gw|] eqn:E7; [simpl in Hs|done].
  destruct (mixed_weight st !! i) as [w|] eqn:E8; [simpl in Hs|done].
  injection Hs as <-. simpl. split_and!.
  - exists mask, src, tgt, gt_i, g, p, gw, w. split_and!; try done.
    + intros Hi. by apply list_lookup_insert_eq.
    + intros Hi. by apply list_lookup_insert_eq.
    + apply list_lookup_insert_eq. by eapply lookup_lt_Some.
  - intros j Hj. unfold same_sample. simpl.
    by rewrite !list_lookup_insert_ne.
  - by rewrite length_insert.
  - by rewrite length_insert.
Qed.

Lemma mix_loop_Some idx :
  ∀ st st',
    NoDup idx → foldl body (Some st) idx = Some st' →
    length (mixed_img st') = length (mixed_img st) ∧
    length (mixed_lbl st') = length (mixed_lbl st) ∧
    ∀ i, (i ∈ idx → mixed st st' i)
         ∧ (i ∉ idx → same_sample st st' i).
Proof.
  induction idx as [|i0 idx IH]; intros st st' Hnd Hrun.
  { injection Hrun as <-. split_and!; [done..|].
    intros i. split; [by intros ?%elem_of_nil|done]. }
  apply NoDup_cons in Hnd as [Hi0 Hnd].
  change (foldl body
            (mix_sample params mix_masks img target_img gt_semantic_seg
               pseudo_label gt_pixel_weight st i0) idx = Some st') in Hrun.
  destruct (mix_sample _ _ _ _ _ _ _ st i0) as [st1|] eqn:E1;
    [|by rewrite (mix_loop_None idx) in Hrun].
  apply mix_sample_Some in E1 as (H0 & Hother & Hl1 & Hl2).
  destruct (IH st1 st' Hnd Hrun) as (Hl1' & Hl2' & Hrest).
  split_and!; [congruence..|]. intros i.
  destruct (decide (i = i0)) as [->|Hne].
  - split; [intros _|intros []; apply list_elem_of_here].
    destruct (Hrest i0) as [_ (S1 & S2 & S3)]; [done|].
    destruct H0 as (mask & src & tgt & gt_i & g & p & gw & w & ?&?&?&?&?&?&?&?
                    & M1 & M2 & M3).
    exists mask, src, tgt, gt_i, g, p, gw, w. split_and!; try done.
    + intros Hi. rewrite S1. by apply M1.
    + intros Hi. rewrite S2. by apply M2.
    + by rewrite S3.
  - destruct (Hother i Hne) as (O1 & O2 & O3).
    destruct (Hrest i) as [Hin Hout]. split.
    + intros Hi. apply elem_of_cons in Hi as [?|Hi]; [done|].
      destruct (Hin Hi) as (mask & src & tgt & gt_i & g & p & gw & w
                            & ?&?&?&?&?&?&?& Hw & M1 & M2 & M3).
      exists mask, src, tgt, gt_i, g, p, gw, w.
      split_and!; try done; [congruence| |].
      * intros Hi'. apply M1. congruence.
      * intros Hi'. apply M2. congruence.
    + intros Hi. rewrite not_elem_of_cons in Hi. destruct Hi as [_ Hi].
      destruct (Hout Hi) as (S1 & S2 & S3). unfold same_sample.
      split_and!; congruence.
Qed.
End mixing_facts.

Section mixing_claim.
Import DACS.
Context `{Collaborators}.

(** What the mixing loop returns: every sample of the batch has been
    mixed, and the two lists hold no [None]. *)
Lemma apply_mixing_inv params mix_masks img target_img gt_semantic_seg
    pseudo_label pseudo_weight mixed_img mixed_lbl mixed_weight :
  apply_mixing params mix_masks img target_img gt_semantic_seg pseudo_label
    pseudo_weight = Some (mixed_img, mixed_lbl, mixed_weight) →
  ∃ st,
    (∀ i, i < length img →
       mixed_sample params mix_masks img target_img gt_semantic_seg
         pseudo_label (ones_like pseudo_weight)
         (mk_mixing (replicate (length img) None)
            (replicate (length img) None) pseudo_weight) st i) ∧
    mapM id (DACS.mixed_img st) = Some mixed_img ∧
    mapM id (DACS.mixed_lbl st) = Some mixed_lbl ∧
    DACS.mixed_weight st = mixed_weight.
Proof.
  unfold apply_mixing. intros Hmix.
  destruct (foldl _ _ _) as [st|] eqn:Eloop; [simpl in Hmix|done].
  destruct (mapM id (DACS.mixed_img st)) as [mi|] eqn:Emi;
    [simpl in Hmix|done].
  destruct (mapM id (DACS.mixed_lbl st)) as [ml|] eqn:Eml;
    [simpl in Hmix|done].
  injection Hmix as <- <- <-. exists st. split_and!; [|done..].
  intros i Hi.
  apply mix_loop_Some in Eloop as (_ & _ & Hsamples); [|apply NoDup_seq].
  apply Hsamples, elem_of_seq. lia.
Qed.


(** C4.  The mixing loop, with [strong_transform] as the specification
    describes it.  For every sample, the mixed label is the source
    ground truth wherever the mix mask of the sample is 1 and the
    pseudo-label wherever it is 0; the mixed weight is the ground-truth
    weight 1 wherever the mask is 1 and the trust weight of the pixel
    wherever it is 0; and the mixed image is the composite of the two
    images under the same mask. *)
Theorem mixing_follows_mask params mix_masks img target_img gt_semantic_seg
    pseudo_label pseudo_weight mixed_img mixed_lbl mixed_weight :
  apply_mixing params mix_masks img target_img gt_semantic_seg pseudo_label
    pseudo_weight = Some (mixed_img, mixed_lbl, mixed_weight) →
  ∀ i, i < length img →
    ∃ mask src tgt gt_i g,
      mix_masks !! i = Some mask ∧ img !! i = Some src ∧
      target_img !! i = Some tgt ∧
      gt_semantic_seg !! i = Some gt_i ∧ gt_i !! 0 = Some g ∧
      mixed_img !! i
      = Some (augment params
                (zip_with (λ s t : list (list Qc), select mask s t)
                          src tgt)) ∧
      ∀ r c (m : bool), at2 mask r c = Some m →
        (∀ s t, at2 g r c = Some s → at3 pseudo_label i r c = Some t →
           at3 mixed_lbl i r c = Some (if m then s else t)) ∧
        (∀ w, at3 pseudo_weight i r c = Some w →
           at3 mixed_weight i r c = Some (if m then 1%Qc else w)).
Proof.
  intros Hmix i Hi.
  destruct (apply_mixing_inv _ _ _ _ _ _ _ _ _ _ Hmix)
    as (st & Hsamples & Emi & Eml & <-).
  destruct (Hsamples i Hi) as (mask & src & tgt & gt_i & g & p & gw & w
                               & ?&?&?&?&?& Hp & Hgw & Hw & M1 & M2 & M3).
  cbn [DACS.mixed_img DACS.mixed_lbl DACS.mixed_weight] in Hw, M1, M2.
  rewrite length_replicate in M1. rewrite length_replicate in M2.
  specialize (M1 Hi). specialize (M2 Hi).
  exists mask, src, tgt, gt_i, g. split_and!; try done.
  - apply mapM_Some in Emi.
    destruct (Forall2_lookup_l _ _ _ _ _ Emi M1) as (x & Hx & Heq).
    simpl in Heq. by injection Heq as <-.
  - intros r c m Hm. split.
    + intros s t Hs Ht. apply mapM_Some in Eml.
      destruct (Forall2_lookup_l _ _ _ _ _ Eml M2) as (x & Hx & Heq).
      simpl in Heq. injection Heq as <-. unfold at3 in *. rewrite Hx. simpl.
      rewrite Hp in Ht. simpl in Ht.
      by rewrite at2_select, Hm, Hs, Ht.
    + intros w0 Hw0. unfold at3 in *. rewrite M3. simpl.
      rewrite Hw in Hw0. simpl in Hw0.
      unfold ones_like in Hgw. rewrite lookup_map3, Hw in Hgw.
      injection Hgw as <-.
      by rewrite at2_select, Hm, at2_ones, Hw0.
Qed.
End mixing_claim.

Section wp_rules.
Context {S : Type}.
Implicit Types (self : S).

Lemma wp_elim {A} (m : M S A) (Q : result A → S → Prop) self r self' :
  m self = (r, self') → wp m Q self → Q r self'.
Proof. unfold wp. by intros ->. Qed.

Lemma wp_ret {A} (a : A) (Q : result A → S → Prop) self :
  Q (Ok a) self → wp (mret a) Q self.
Proof. done. Qed.

Lemma wp_raise {A} (e : exn) (Q : result A → S → Prop) self :
  Q (Raise e) self → wp (raise e) Q self.
Proof. done. Qed.

Lemma wp_get (Q : result S → S → Prop) self :
  Q (Ok self) self → wp get Q self.
Proof. done. Qed.

Lemma wp_put (Q : result () → S → Prop) self self' :
  Q (Ok ()) self' → wp (put self') Q self.
Proof. done. Qed.

Lemma wp_bind {A B} (m : M S A) (f : A → M S B)
    (Q : result B → S → Prop) self :
  wp m (λ r self1,
          match r with
          | Ok a => wp (f a) Q self1
          | Raise e => Q (Raise e) self1
          end) self →
  wp (m ≫= f) Q self.
Proof.
  unfold wp, mbind, M_bind. by destruct (m self) as [[a|e] self1].
Qed.

Lemma wp_try {A} (e : exn) (o : option A) (Q : result A → S → Prop) self :
  match o with Some a => Q (Ok a) self | None => Q (Raise e) self end →
  wp (try_ e o) Q self.
Proof. by destruct o. Qed.
End wp_rules.

Section step_rules.
Import DACS.

Lemma wp_backward tm loss (Q : result () → DACS.t → Prop) self :
  Q (Ok ()) (set_state self (local_iter self) (feat_distributions self)
               (grads self ++ [Backward tm loss])) →
  wp (backward tm loss) Q self.
Proof. done. Qed.

Lemma wp_incr_local_iter (Q : result () → DACS.t → Prop) self :
  Q (Ok ()) (set_state self (local_iter self + 1) (feat_distributions self)
               (grads self)) →
  wp incr_local_iter Q self.
Proof. done. Qed.

Lemma wp_on_feat_distributions {A} (m : M ProtoEstimator.t A)
    (Q : result A → DACS.t → Prop) self :
  (∀ r est, m (feat_distributions self) = (r, est) →
            Q r (set_state self (local_iter self) est (grads self))) →
  wp (on_feat_distributions m) Q self.
Proof.
  intros HQ. unfold wp, on_feat_distributions.
  destruct (m (feat_distributions self)) as [r est] eqn:E. by apply HQ.
Qed.
End step_rules.

Ltac wp_step :=
  lazymatch goal with
  | |- wp (mbind _ _) _ _ => apply wp_bind
  | |- wp (mret _) _ _ => apply wp_ret
  | |- wp (raise _) _ _ => apply wp_raise
  | |- wp get _ _ => apply wp_get
  | |- wp (put _) _ _ => apply wp_put
  | |- wp (DACS.backward _ _) _ _ => apply wp_backward
  | |- wp DACS.incr_local_iter _ _ => apply wp_incr_local_iter
  | |- wp (DACS.on_feat_distributions _) _ _ =>
      apply wp_on_feat_distributions;
      cbn [DACS.set_state DACS.local_iter DACS.feat_distributions DACS.grads];
      intros [[]|?] ? ?
  | |- wp (try_ _ (Some _)) _ _ => apply wp_try
  | |- wp (try_ _ None) _ _ => apply wp_try
  | |- wp (try_ _ ?o) _ _ =>
      first [ progress
                (match goal with Heq : o = _ |- _ => rewrite Heq end)
            | apply wp_try; destruct o as [?|] eqn:? ]
  | |- wp (let '(_, _) := ?x in _) _ _ =>
      first [ progress
                (match goal with Heq : x = _ |- _ => rewrite Heq end)
            | destruct x as [? ?] eqn:? ]
  | |- wp (if ?b then _ else _) _ _ => destruct b eqn:?
  end;
  cbn beta iota;
  cbn [DACS.set_state DACS.local_iter DACS.pseudo_threshold
       DACS.psweight_ignore_top DACS.psweight_ignore_bottom
       DACS.fdist_lambda DACS.enable_fdist DACS.debug_img_interval
       DACS.start_distribution_iter DACS.feat_distributions DACS.grads];
  repeat
    match goal with
    | |- context [DACS.calc_feat_dist (DACS.set_state ?s ?n ?e ?g)] =>
        change (DACS.calc_feat_dist (DACS.set_state s n e g))
          with (DACS.calc_feat_dist s)
    end.

Ltac wp_start Hrun :=
  lazymatch type of Hrun with
  | ?m ?s = (?r, ?s') =>
      pattern r, s';
      lazymatch goal with
      | |- ?Q r s' => refine (wp_elim m Q s r s' Hrun _); clear Hrun
      end
  end.


(** A backward pass of one term is not among the passes of other
    terms. *)
Ltac not_in_events :=
  let Hin := fresh in
  intros Hin; cbn [app] in Hin;
  repeat (apply elem_of_cons in Hin as [Hin|Hin]; [discriminate Hin|]);
  by apply elem_of_nil in Hin.

Ltac events :=
  eexists; split; [by rewrite <- ?app_assoc|]; cbn [app].

Section step_claims.
Import DACS.
Context `{Collaborators}.




(** C10, as the code has it.  The reshape to (2, 1, 512, 512) checks
    the number of entries of the pseudo-label map: when it is not
    2 * 1 * 512 * 512 the step raises, the memory bank is the one from
    before the step, and neither the contrastive nor the distillation
    term is back-propagated. *)
Theorem reshape_checks_entry_count
    img gt_semantic_seg target_img self r self' pseudo_prob pseudo_label :
  max_dim1 (teacher_softmax target_img) = Some (pseudo_prob, pseudo_label) →
  numel3 pseudo_label ≠ 2 * 1 * 512 * 512 →
  forward_train img gt_semantic_seg target_img self = (r, self') →
  (∃ e, r = Raise e) ∧
  feat_distributions self' = feat_distributions self ∧
  ∃ evs, grads self' = grads self ++ evs ∧
    ∀ v, (Backward Contrastive v ∉ evs) ∧ (Backward KL v ∉ evs).
Proof.
  intros Hmax Hne Hrun.
  assert (view4 2 1 512 512 pseudo_label = None) as Hview.
  { unfold view4. by rewrite bool_decide_eq_false_2. }
  wp_start Hrun. unfold forward_train.
  repeat wp_step;
    (split_and!; [by eexists|done|]; events; intros v; split;
     not_in_events).
Qed.

(** C3, as the code has it.  The contrastive term is computed and
    back-propagated in a step exactly when the iteration counter has
    reached [start_distribution_iter]: no step before the warm-up
    back-propagates it, and every step that returns after the warm-up
    does.  The log variables of the term are dropped: the dictionary
    that the step returns is made of the log variables of the source
    loss, of the feature distance and of the mixed loss, and the
    outcome of the step is the same for every value of the iteration
    counter. *)
Theorem contrastive_gate img gt_semantic_seg target_img self r self' :
  forward_train img gt_semantic_seg target_img self = (r, self') →
  (∃ evs, grads self' = grads self ++ evs ∧
     ((∃ v, Backward Contrastive v ∈ evs) →
      start_distribution_iter self ≤ local_iter self) ∧
     (∀ log_vars, r = Ok log_vars →
        start_distribution_iter self ≤ local_iter self →
        ∃ v, Backward Contrastive v ∈ evs)) ∧
  (∀ log_vars, r = Ok log_vars →
     let clean := student_forward_train img gt_semantic_seg None in
     let source_log := update ∅ (parse_losses clean.1).2 in
     ∃ mixed_img mixed_lbl mixed_weight,
       log_vars
       = update
           (if enable_fdist self
            then update source_log
                   (add_prefix
                      (calc_feat_dist self img gt_semantic_seg clean.2).2
                      "src")
            else source_log)
           (parse_losses
              (add_prefix
                 (student_forward_train mixed_img mixed_lbl
                    (Some mixed_weight)).1 "mix")).2) ∧
  ∀ n, (forward_train img gt_semantic_seg target_img
          (set_state self n (feat_distributions self) (grads self))).1 = r.
Proof.
  intros Hrun. split; [|split].
  - wp_start Hrun. unfold forward_train.
    repeat wp_step; events;
      (split; [intros [v Hv]|intros log_vars Hr Hge]);
      try discriminate Hr;
      lazymatch goal with
      | Hg : bool_decide (start_distribution_iter _ ≤ _) = true |- _ ≤ _ =>
          by apply bool_decide_eq_true_1 in Hg
      | Hg : bool_decide (start_distribution_iter _ ≤ _) = false,
        Hge : _ ≤ _ |- _ =>
          by apply bool_decide_eq_false_1 in Hg
      | Hv : _ ∈ _ |- _ ≤ _ => exfalso; revert Hv; not_in_events
      | |- ∃ _, _ ∈ _ => eexists; rewrite !elem_of_cons; by eauto 10
      end.
  - wp_start Hrun. unfold forward_train.
    repeat wp_step; intros log_vars Hr; try discriminate Hr;
      injection Hr as <-; cbn zeta;
      lazymatch goal with
      | Hs : student_forward_train ?mi ?ml (Some ?mw) = _ |- _ =>
          exists mi, ml, mw
      end;
      repeat (match goal with
              | Heq : _ = (_, _) |- _ => rewrite Heq; clear Heq
              end; cbn [fst snd]);
      reflexivity.
  - intros n.
    destruct (forward_train img gt_semantic_seg target_img (set_state _ _ _ _))
      as [r2 self2] eqn:Hrun2.
    cbn [fst]. revert r2 self2 Hrun2.
    wp_start Hrun. unfold forward_train.
    repeat wp_step; intros r2 self2 Hrun2;
      wp_start Hrun2; unfold forward_train;
      repeat wp_step; congruence.
Qed.

End step_claims.

(** Equality of concrete tensors: entry by entry, as rationals. *)
Ltac tensor_eq :=
  repeat
    lazymatch goal with
    | |- @eq Qc _ _ => apply Qc_is_canon; reflexivity
    | |- Some _ = Some _ => apply (f_equal Some)
    | |- _ :: _ = _ :: _ => apply (f_equal2 cons)
    | |- [] = [] => reflexivity
    end.

(** A decidable statement about large concrete data is decided by
    evaluation, so that the data are never spelled out. *)
Ltac vm_decide :=
  lazymatch goal with
  | |- ?P => refine (bool_decide_eq_true_1 P _); vm_compute; reflexivity
  end.

Section concrete_steps.
Import DACS DemoStep.


(** The scenario of the specification for the memory bank: with
    [memory_length = 3], class 2 receives four mean vectors and its
    queue holds the last three, in the order of insertion. *)
Example fifo_scenario :
  let self' :=
    (ProtoEstimator.run_updates Demo.four_batches Demo.estimator).2 in
  Deque.items
    <$> (ProtoEstimator.MemoryBank self' ≫= λ b, b !! 2)
  = Some [[[q 2 1; q 4 1]]; [[q 3 1; q 6 1]]; [[q 4 1; q 8 1]]].
Proof. vm_compute. tensor_eq. Qed.

Lemma trust_weight_is_fraction_witness :
  let pseudo_prob := (default ([], []) (max_dim1 softmax_4x4)).1 in
  let pseudo_label := (default ([], []) (max_dim1 softmax_4x4)).2 in
  max_dim1 softmax_4x4 = Some (pseudo_prob, pseudo_label) ∧
  numel3 pseudo_label ≠ 0 ∧
  ∃ s, trust_weight (q 9 10) pseudo_prob pseudo_label = Some s ∧
    s = (of_nat (trusted_pixels (q 9 10) pseudo_prob)
         / of_nat (numel3 pseudo_prob))%Qc ∧
    numel3 pseudo_prob = numel3 pseudo_label ∧
    (0 ≤ s ≤ 1)%Qc.
Proof.
  intros pseudo_prob pseudo_label.
  assert (max_dim1 softmax_4x4 = Some (pseudo_prob, pseudo_label)) as H1
    by (vm_compute; reflexivity).
  assert (numel3 pseudo_label ≠ 0) as H2 by (vm_compute; discriminate).
  split_and!; [exact H1|exact H2|].
  exact (trust_weight_is_fraction (q 9 10) softmax_4x4 pseudo_prob
           pseudo_label H1 H2).
Defined.

(** The scenario of the specification: with 4 of 16 pixels at a
    confidence of at least 0.9 the trust weight is 0.25, and with
    [ignore_top = 1] the four entries of the top row of the weight map
    are 0 and the others 0.25. *)
Example trust_weight_scenario :
  let pseudo_prob := (default ([], []) (max_dim1 softmax_4x4)).1 in
  let pseudo_label := (default ([], []) (max_dim1 softmax_4x4)).2 in
  trust_weight (q 9 10) pseudo_prob pseudo_label = Some (q 1 4) ∧
  weight_map 1 0 (q 1 4) pseudo_prob
  = [[replicate 4 0%Qc; replicate 4 (q 1 4); replicate 4 (q 1 4);
      replicate 4 (q 1 4)]].
Proof.
  split; vm_compute; tensor_eq.
Qed.

Lemma weight_map_bands_witness :
  let pseudo_prob := (default ([], []) (max_dim1 softmax_4x4)).1 in
  let pseudo_label := (default ([], []) (max_dim1 softmax_4x4)).2 in
  max_dim1 softmax_4x4 = Some (pseudo_prob, pseudo_label) ∧
  (0 < 1)%Z ∧ (0 < 1)%Z ∧
  let w := weight_map 1 1 (q 1 4) pseudo_prob in
  shape w = shape pseudo_label ∧
  ∀ b lbl r c x,
    pseudo_label !! b = Some lbl → at3 w b r c = Some x →
    ((Z.of_nat r < 1)%Z → x = 0%Qc) ∧
    ((Z.of_nat (length lbl) - 1 ≤ Z.of_nat r)%Z → x = 0%Qc) ∧
    ((1 ≤ Z.of_nat r < Z.of_nat (length lbl) - 1)%Z → x = q 1 4) ∧
    (x = 0%Qc ∨ x = q 1 4).
Proof.
  intros pseudo_prob pseudo_label.
  assert (max_dim1 softmax_4x4 = Some (pseudo_prob, pseudo_label)) as H1
    by (vm_compute; reflexivity).
  assert (0 < 1)%Z as H2 by lia.
  split_and!; [exact H1|exact H2|exact H2|].
  exact (weight_map_bands 1 1 (q 1 4) softmax_4x4 pseudo_prob pseudo_label
           H1 H2 H2).
Defined.

Lemma mixing_follows_mask_witness :
  let mixed :=
    default ([], [], [])
      (@apply_mixing collaborators () (@mix_masks_of collaborators gt_2x2) img_2x2
         target_2x2 gt_2x2 pseudo_label_2x2 pseudo_weight_2x2) in
  @apply_mixing collaborators () (@mix_masks_of collaborators gt_2x2) img_2x2
    target_2x2 gt_2x2 pseudo_label_2x2 pseudo_weight_2x2
  = Some (mixed.1.1, mixed.1.2, mixed.2) ∧
  1 < length img_2x2 ∧
  ∃ mask src tgt gt_i g,
    @mix_masks_of collaborators gt_2x2 !! 1 = Some mask ∧ img_2x2 !! 1 = Some src ∧
    target_2x2 !! 1 = Some tgt ∧
    gt_2x2 !! 1 = Some gt_i ∧ gt_i !! 0 = Some g ∧
    mixed.1.1 !! 1
    = Some (@augment collaborators ()
              (zip_with (λ s t : list (list Qc), select mask s t) src tgt)) ∧
    ∀ r c (m : bool), at2 mask r c = Some m →
      (∀ s t, at2 g r c = Some s → at3 pseudo_label_2x2 1 r c = Some t →
         at3 mixed.1.2 1 r c = Some (if m then s else t)) ∧
      (∀ w, at3 pseudo_weight_2x2 1 r c = Some w →
         at3 mixed.2 1 r c = Some (if m then 1%Qc else w)).
Proof.
  intros mixed.
  assert (@apply_mixing collaborators () (@mix_masks_of collaborators gt_2x2) img_2x2
            target_2x2 gt_2x2 pseudo_label_2x2 pseudo_weight_2x2
          = Some (mixed.1.1, mixed.1.2, mixed.2)) as H1
    by (vm_compute; reflexivity).
  assert (1 < length img_2x2) as H2 by (simpl; lia).
  split_and!; [exact H1|exact H2|].
  exact (@mixing_follows_mask collaborators ()
           (@mix_masks_of collaborators gt_2x2)
           img_2x2 target_2x2 gt_2x2 pseudo_label_2x2 pseudo_weight_2x2
           mixed.1.1 mixed.1.2 mixed.2 H1 1 H2).
Defined.

(** The mixed labels and weights of the two samples: the pixels of
    class 0 of the source keep their label and get weight 1. *)
Example mixing_scenario :
  @apply_mixing collaborators () (@mix_masks_of collaborators gt_2x2) img_2x2
    target_2x2 gt_2x2 pseudo_label_2x2 pseudo_weight_2x2
  = Some (mixed_2x2, [ [[0; 0]; [1; 0]]; [[0; 0]; [1; 0]] ]%Z,
          [ [[1%Qc; q 1 4]; [q 1 4; 1%Qc]];
            [[1%Qc; 1%Qc]; [q 1 4; q 1 4]] ]).
Proof.
  vm_compute. apply (f_equal Some).
  apply f_equal2; [apply f_equal2; [|reflexivity]|]; tensor_eq.
Qed.

Lemma contrastive_gate_witness :
  let out := @forward_train collaborators (grey 2 512 512)
               (labelled_0 2 512 512) (grey 2 512 512) self50 in
  @forward_train collaborators (grey 2 512 512) (labelled_0 2 512 512)
    (grey 2 512 512) self50 = (out.1, out.2) ∧
  (∃ evs, grads out.2 = grads self50 ++ evs ∧
     ((∃ v, Backward Contrastive v ∈ evs) →
      start_distribution_iter self50 ≤ local_iter self50) ∧
     (∀ log_vars, out.1 = Ok log_vars →
        start_distribution_iter self50 ≤ local_iter self50 →
        ∃ v, Backward Contrastive v ∈ evs)) ∧
  (∀ log_vars, out.1 = Ok log_vars →
     let clean :=
       @student_forward_train collaborators (grey 2 512 512)
         (labelled_0 2 512 512) None in
     let source_log := update ∅ (DemoStep.parse_losses clean.1).2 in
     ∃ mixed_img mixed_lbl mixed_weight,
       log_vars
       = update
           (if enable_fdist self50
            then update source_log
                   (DemoStep.add_prefix
                      (@calc_feat_dist collaborators self50
                         (grey 2 512 512) (labelled_0 2 512 512)
                         clean.2).2
                      "src")
            else source_log)
           (DemoStep.parse_losses
              (DemoStep.add_prefix
                 (@student_forward_train collaborators mixed_img mixed_lbl
                    (Some mixed_weight)).1 "mix")).2) ∧
  ∀ n, (@forward_train collaborators (grey 2 512 512)
          (labelled_0 2 512 512) (grey 2 512 512)
          (set_state self50 n (feat_distributions self50) (grads self50))).1
       = out.1.
Proof.
  intros out.
  assert (@forward_train collaborators (grey 2 512 512)
            (labelled_0 2 512 512) (grey 2 512 512) self50
          = (out.1, out.2)) as H1 by apply surjective_pairing.
  split; [exact H1|].
  exact (@contrastive_gate collaborators (grey 2 512 512)
           (labelled_0 2 512 512) (grey 2 512 512) self50 out.1 out.2 H1).
Defined.

(** C3 as stated fails in iteration 50, where the warm-up is over: the
    step returns, the contrastive term has been back-propagated, and
    the returned log variables are those of the source and of the
    mixed losses only. *)
Lemma contrastive_gate_counterexample :
  let out := @forward_train collaborators (grey 2 512 512)
               (labelled_0 2 512 512) (grey 2 512 512) self50 in
  start_distribution_iter self50 ≤ local_iter self50 ∧
  returns out.1 = true ∧
  terms out.2 = [Clean; Mix; Contrastive; KL] ∧
  logged out.1
  = ["mix.decode.acc_seg"; "mix.decode.loss_seg"; "loss";
     "decode.acc_seg"; "decode.loss_seg"]%string ∧
  "contrastive loss"%string ∉ logged out.1.
Proof.
  intros out.
  assert ((returns out.1, terms out.2, logged out.1)
          = (true, [Clean; Mix; Contrastive; KL],
             ["mix.decode.acc_seg"; "mix.decode.loss_seg"; "loss";
              "decode.acc_seg"; "decode.loss_seg"]%string)) as Hout
    by (vm_compute; reflexivity).
  apply pair_equal_spec in Hout as [Hout Hlogged].
  apply pair_equal_spec in Hout as [Hreturns Hterms].
  split_and!;
    [apply Nat.leb_le; reflexivity|exact Hreturns|exact Hterms
    |exact Hlogged|].
  rewrite Hlogged, !elem_of_cons, elem_of_nil. by intros [|[|[|[|[|]]]]].
Qed.


Lemma reshape_checks_entry_count_witness :
  let pseudo_prob := replicate 1 (replicate 2 (replicate 2 (q 1 2))) in
  let pseudo_label := replicate 1 (replicate 2 (replicate 2 0%Z)) in
  let out := @forward_train collaborators (grey 1 2 2) (labelled_0 1 2 2)
               (grey 1 2 2) self0 in
  max_dim1 (@teacher_softmax collaborators (grey 1 2 2))
  = Some (pseudo_prob, pseudo_label) ∧
  numel3 pseudo_label ≠ 2 * 1 * 512 * 512 ∧
  @forward_train collaborators (grey 1 2 2) (labelled_0 1 2 2) (grey 1 2 2)
    self0 = (out.1, out.2) ∧
  (∃ e, out.1 = Raise e) ∧
  feat_distributions out.2 = feat_distributions self0 ∧
  ∃ evs, grads out.2 = grads self0 ++ evs ∧
    ∀ v, (Backward Contrastive v ∉ evs) ∧ (Backward KL v ∉ evs).
Proof.
  intros pseudo_prob pseudo_label out.
  assert (max_dim1 (@teacher_softmax collaborators (grey 1 2 2))
          = Some (pseudo_prob, pseudo_label)) as H1 by reflexivity.
  assert (numel3 pseudo_label ≠ 2 * 1 * 512 * 512) as H2 by vm_decide.
  assert (@forward_train collaborators (grey 1 2 2) (labelled_0 1 2 2)
            (grey 1 2 2) self0 = (out.1, out.2)) as H3
    by apply surjective_pairing.
  split_and!; [exact H1|exact H2|exact H3|..];
    apply (@reshape_checks_entry_count collaborators (grey 1 2 2)
             (labelled_0 1 2 2) (grey 1 2 2) self0 out.1 out.2
             pseudo_prob pseudo_label H1 H2 H3).
Defined.

(** C10 as stated fails on a target batch of one image of 1024 x 512
    pixels: its pseudo-label map has 2 * 512 * 512 entries, the reshape
    accepts it, and the step returns. *)
Lemma reshape_checks_entry_count_counterexample :
  let out := @forward_train collaborators (grey 1 1024 512)
               (labelled_0 1 1024 512) (grey 1 1024 512) self0 in
  length (grey 1 1024 512) = 1 ∧
  (∃ pseudo_prob pseudo_label,
     max_dim1 (@teacher_softmax collaborators (grey 1 1024 512))
     = Some (pseudo_prob, pseudo_label) ∧
     shape pseudo_label = [replicate 1024 (replicate 512 ())] ∧
     is_Some (view4 2 1 512 512 pseudo_label)) ∧
  returns out.1 = true ∧
  terms out.2 = [Clean; Mix; KL].
Proof.
  intros out. split; [reflexivity|]. split.
  - exists (replicate 1 (replicate 1024 (replicate 512 (q 1 2)))),
           (replicate 1 (replicate 1024 (replicate 512 0%Z))).
    split_and!; vm_decide.
  - assert ((returns out.1, terms out.2) = (true, [Clean; Mix; KL]))
      as Hout by (vm_compute; reflexivity).
    by apply pair_equal_spec in Hout.
Qed.
End concrete_steps.


(** * Further properties of [ProtoEstimator] *)
Section proto_frame.
Import ProtoEstimator.
Implicit Types (features ave : list (list Qc)) (labels classes : list Z).
Implicit Types (self : ProtoEstimator.t).
Implicit Types (b : list (Deque.deque (list (list Qc)))).

(** What one append leaves as it is. *)
Lemma bank_append_frame ave cls self r self' :
  bank_append ave cls self = (r, self') →
  dim self' = dim self ∧ class_num self' = class_num self ∧
  CoVariance self' = CoVariance self ∧ Ave self' = Ave self ∧
  Amount self' = Amount self ∧
  (MemoryBank self = None → MemoryBank self' = None) ∧
  ∀ b, MemoryBank self = Some b →
    ∃ b', MemoryBank self' = Some b' ∧
      Forall2 (λ d d', Deque.maxlen d' = Deque.maxlen d) b b'.
Proof.
  unfold bank_append, mbind, M_bind, get, try_.
  destruct (MemoryBank self) as [b|] eqn:Eb; cbn.
  - destruct (b !! Z.to_nat cls) as [d|] eqn:Ed; cbn.
    + intros [= <- <-]. cbn. split_and!; [done..|].
      intros ? [= <-]. eexists. split; [done|].
      apply Forall2_same_length_lookup_2; [by rewrite length_insert|].
      intros i d1 d2 H1 H2.
      destruct (decide (i = Z.to_nat cls)) as [->|Hne].
      * rewrite list_lookup_insert_eq in H2 by by eapply lookup_lt_Some.
        injection H2 as <-. by simplify_eq.
      * rewrite list_lookup_insert_ne in H2 by done. by simplify_eq.
    + intros [= <- <-]. split_and!; [done..|].
      intros ? [= <-]. exists b. rewrite Eb. split; [done|].
      by apply Forall_Forall2_diag, Forall_true.
  - intros [= <- <-]. by split_and!.
Qed.

Lemma for_bank_append_frame ave classes :
  ∀ self r self',
    for_ classes (bank_append ave) self = (r, self') →
    dim self' = dim self ∧ class_num self' = class_num self ∧
    CoVariance self' = CoVariance self ∧ Ave self' = Ave self ∧
    Amount self' = Amount self ∧
    (MemoryBank self = None → MemoryBank self' = None) ∧
    ∀ b, MemoryBank self = Some b →
      ∃ b', MemoryBank self' = Some b' ∧
        Forall2 (λ d d', Deque.maxlen d' = Deque.maxlen d) b b'.
Proof.
  induction classes as [|cls classes IH]; intros self r self'.
  { intros [= <- <-]. split_and!; [done..|].
    intros b Hb. exists b. split; [done|].
    by apply Forall_Forall2_diag, Forall_true. }
  cbn [for_]. unfold mbind at 1, M_bind at 1.
  destruct (bank_append ave cls self) as [[[]|e] self1] eqn:E1.
  - intros Hrest. apply IH in Hrest as (R1 & R2 & R3 & R4 & R5 & R6 & R7).
    apply bank_append_frame in E1 as (S1 & S2 & S3 & S4 & S5 & S6 & S7).
    split_and!; [congruence..|auto|].
    intros b Hb. destruct (S7 b Hb) as (b1 & Hb1 & H1).
    destruct (R7 b1 Hb1) as (b' & Hb' & H2). exists b'. split; [done|].
    eapply Forall2_trans; [|exact H1|exact H2].
    simpl. intros; congruence.
  - intros [= <- <-]. by apply bank_append_frame in E1.
Qed.

(** X1.  [update_proto] writes nothing but the queues of the memory
    bank: whatever the outcome of the call, the dimension, the number of
    classes and the three accumulators ([CoVariance], [Ave], [Amount])
    are the ones from before, an estimator without a bank stays without
    one, and a bank keeps its number of queues and the capacity of each
    queue. *)
Theorem update_proto_keeps_accumulators features labels self r self' :
  update_proto features labels self = (r, self') →
  dim self' = dim self ∧ class_num self' = class_num self ∧
  CoVariance self' = CoVariance self ∧ Ave self' = Ave self ∧
  Amount self' = Amount self ∧
  (MemoryBank self = None → MemoryBank self' = None) ∧
  ∀ b, MemoryBank self = Some b →
    ∃ b', MemoryBank self' = Some b' ∧ length b' = length b ∧
      Forall2 (λ d d', Deque.maxlen d' = Deque.maxlen d) b b'.
Proof.
  rewrite update_proto_unfold.
  destruct (ave_CxA _ _ _) as [ave|].
  - intros (?&?&?&?&?&?& Hbank)%for_bank_append_frame.
    split_and!; [done..|].
    intros b Hb. destruct (Hbank b Hb) as (b' & Hb' & Hcap).
    exists b'. split_and!; [done| |done].
    symmetry. by eapply Forall2_length.
  - intros [= <- <-]. split_and!; [done..|].
    intros b Hb. exists b. split_and!; [done..|].
    by apply Forall_Forall2_diag, Forall_true.
Qed.

Lemma update_proto_keeps_accumulators_witness :
  let self' := (update_proto Demo.features3 Demo.labels3 Demo.estimator).2 in
  update_proto Demo.features3 Demo.labels3 Demo.estimator = (Ok (), self') ∧
  dim self' = dim Demo.estimator ∧
  class_num self' = class_num Demo.estimator ∧
  CoVariance self' = CoVariance Demo.estimator ∧
  Ave self' = Ave Demo.estimator ∧
  Amount self' = Amount Demo.estimator ∧
  (MemoryBank Demo.estimator = None → MemoryBank self' = None) ∧
  ∀ b, MemoryBank Demo.estimator = Some b →
    ∃ b', MemoryBank self' = Some b' ∧ length b' = length b ∧
      Forall2 (λ d d', Deque.maxlen d' = Deque.maxlen d) b b'.
Proof.
  intros self'.
  assert (update_proto Demo.features3 Demo.labels3 Demo.estimator
          = (Ok (), self')) as H1 by (vm_compute; reflexivity).
  split; [exact H1|].
  exact (update_proto_keeps_accumulators Demo.features3 Demo.labels3
           Demo.estimator (Ok ()) self' H1).
Defined.

(** X2.  On an estimator whose bank has a queue for each class,
    [update_proto] returns exactly when there are at most as many labels
    as pixels and every label is a class id in [0, class_num);
    otherwise it raises [RuntimeError] and leaves the estimator as it
    was.  In particular one label outside the range, such as an ignore
    label, makes the whole call fail. *)
Theorem update_proto_returns_iff features labels self b :
  MemoryBank self = Some b → class_num self ≤ length b →
  let valid :=
    length labels ≤ length features
    ∧ Forall (λ l, (0 ≤ l < Z.of_nat (class_num self))%Z) labels in
  (valid ↔ ∃ self', update_proto features labels self = (Ok (), self')) ∧
  (¬ valid → update_proto features labels self = (Raise RuntimeError, self)) ∧
  (∀ l, l ∈ labels → ¬ (0 ≤ l < Z.of_nat (class_num self))%Z →
        update_proto features labels self = (Raise RuntimeError, self)).
Proof.
  intros Hb HC valid.
  assert (¬ valid →
          update_proto features labels self = (Raise RuntimeError, self))
    as Hraise.
  { intros Hn%ave_CxA_None. by rewrite update_proto_unfold, Hn. }
  split_and!; [split| done |].
  - intros Hv.
    destruct (update_proto_total features labels self b Hb HC)
      as [Hok|[Hnone _]]; [done|].
    by apply ave_CxA_None in Hnone.
  - intros [self' Hok]. rewrite update_proto_unfold in Hok.
    destruct (ave_CxA _ _ _) as [ave|] eqn:Eave; [|done].
    by apply ave_CxA_Some in Eave.
  - intros l Hl Hout. apply Hraise. intros [_ Hrange].
    rewrite Forall_forall in Hrange. by apply Hout, Hrange.
Qed.

Lemma update_proto_returns_iff_witness :
  let b := default [] (MemoryBank Demo.estimator) in
  MemoryBank Demo.estimator = Some b ∧
  class_num Demo.estimator ≤ length b ∧
  let valid :=
    length [255%Z] ≤ length Demo.features3
    ∧ Forall (λ l, (0 ≤ l < Z.of_nat (class_num Demo.estimator))%Z)
        [255%Z] in
  (valid ↔ ∃ self', update_proto Demo.features3 [255%Z] Demo.estimator
                    = (Ok (), self')) ∧
  (¬ valid → update_proto Demo.features3 [255%Z] Demo.estimator
             = (Raise RuntimeError, Demo.estimator)) ∧
  (∀ l, l ∈ [255%Z] → ¬ (0 ≤ l < Z.of_nat (class_num Demo.estimator))%Z →
        update_proto Demo.features3 [255%Z] Demo.estimator
        = (Raise RuntimeError, Demo.estimator)).
Proof.
  intros b.
  assert (MemoryBank Demo.estimator = Some b) as H1 by reflexivity.
  assert (class_num Demo.estimator ≤ length b) as H2 by (vm_compute; lia).
  split_and!; [exact H1|exact H2|..];
    apply (update_proto_returns_iff Demo.features3 [255%Z] Demo.estimator
             b H1 H2).
Defined.
End proto_frame.

Section proto_order.
Import ProtoEstimator.
Implicit Types (features ave : list (list Qc)) (labels classes : list Z).
Implicit Types (self : ProtoEstimator.t).

Lemma vadd_swap (a1 a2 b : list Qc) :
  zip_with Qcplus a1 (zip_with Qcplus a2 b)
  = zip_with Qcplus a2 (zip_with Qcplus a1 b).
Proof.
  revert a2 b. induction a1 as [|x a1 IH]; intros [|y a2] [|z b]; try done.
  simpl. f_equal; [ring|apply IH].
Qed.

Lemma vsum_Permutation (v0 : list Qc) (rows rows' : list (list Qc)) :
  rows ≡ₚ rows' →
  foldr (zip_with Qcplus) v0 rows = foldr (zip_with Qcplus) v0 rows'.
Proof.
  intros Hp. apply (foldr_permutation eq (zip_with Qcplus) v0); [|done..].
  intros j1 a1 j2 a2 b _ _ _. apply vadd_swap.
Qed.

Lemma class_mean_Permutation A features labels features' labels' (k : Z) :
  zip features labels ≡ₚ zip features' labels' →
  class_mean A features labels k = class_mean A features' labels' k.
Proof.
  intros Hp. unfold class_mean.
  assert (class_pixels features labels k ≡ₚ class_pixels features' labels' k)
    as Hpix.
  { unfold class_pixels. by rewrite Hp. }
  by rewrite (Permutation_length Hpix), (vsum_Permutation _ _ _ Hpix).
Qed.

Lemma unique_Permutation labels labels' :
  labels ≡ₚ labels' → unique labels = unique labels'.
Proof.
  intros Hp. unfold unique.
  apply (Sorted_unique Z.le); [apply Sorted_merge_sort, _..|].
  rewrite !merge_sort_Permutation.
  apply NoDup_Permutation; [apply NoDup_remove_dups..|].
  intros x. by rewrite !elem_of_remove_dups, Hp.
Qed.

Lemma bank_append_ext ave ave' (cls : Z) self :
  nth (Z.to_nat cls) ave [] = nth (Z.to_nat cls) ave' [] →
  bank_append ave cls self = bank_append ave' cls self.
Proof.
  intros Hn. unfold bank_append, mbind, M_bind, get, try_.
  destruct (MemoryBank self) as [b|]; [cbn|done].
  destruct (b !! Z.to_nat cls) as [d|]; [cbn|done].
  by rewrite Hn.
Qed.

Lemma for_bank_append_ext ave ave' classes :
  (∀ cls, cls ∈ classes →
          nth (Z.to_nat cls) ave [] = nth (Z.to_nat cls) ave' []) →
  ∀ self, for_ classes (bank_append ave) self
          = for_ classes (bank_append ave') self.
Proof.
  induction classes as [|cls classes IH]; intros Hn self; [done|].
  cbn [for_]. unfold mbind, M_bind.
  rewrite (bank_append_ext ave ave') by apply Hn, list_elem_of_here.
  destruct (bank_append ave' cls self) as [[[]|e] self1]; [|done].
  apply IH. intros k Hk. by apply Hn, list_elem_of_further.
Qed.

(** X3.  The order of the pixels of a batch does not matter: when the
    pixels of a batch of shape [N, A] are permuted together with their
    labels, [update_proto] has the same outcome and leaves the same
    estimator. *)
Theorem update_proto_permutation features labels features' labels' self :
  let A := length (nth 0 features []) in
  length features = length labels →
  length features' = length labels' →
  Forall (λ f, length f = A) features →
  zip features labels ≡ₚ zip features' labels' →
  update_proto features labels self = update_proto features' labels' self.
Proof.
  intros A Hlen Hlen' Hrect Hperm.
  assert (labels ≡ₚ labels') as Hl.
  { rewrite <- (snd_zip features labels), <- (snd_zip features' labels')
      by lia. by rewrite Hperm. }
  assert (features ≡ₚ features') as Hf.
  { rewrite <- (fst_zip features labels), <- (fst_zip features' labels')
      by lia. by rewrite Hperm. }
  assert (Forall (λ f, length f = A) features') as Hrect'
    by by rewrite <- Hf.
  assert (length (nth 0 features' []) = A) as HA'.
  { destruct features' as [|f' fs'].
    - apply Permutation_nil_r in Hf. by subst features.
    - by apply Forall_cons in Hrect' as [? _]. }
  rewrite !update_proto_unfold.
  destruct (ave_CxA _ features labels) as [ave|] eqn:E;
    destruct (ave_CxA _ features' labels') as [ave'|] eqn:E'.
  - rewrite <- (unique_Permutation _ _ Hl).
    apply for_bank_append_ext. intros cls Hcls.
    rewrite unique_elem_of in Hcls.
    pose proof (ave_CxA_Some _ _ _ _ E) as [_ Hrange].
    rewrite Forall_forall in Hrange. specialize (Hrange cls Hcls).
    assert (Z.of_nat (Z.to_nat cls) ∈ labels) as Hin
      by by rewrite Z2Nat.id by lia.
    rewrite (ave_CxA_class_mean _ _ _ _ _ E Hrect Hin).
    rewrite <- HA' in Hrect'.
    rewrite (ave_CxA_class_mean _ _ _ _ (Z.to_nat cls) E' Hrect')
      by by rewrite <- Hl.
    fold A. rewrite HA'. by apply class_mean_Permutation.
  - apply ave_CxA_Some in E as [? Hrange]. apply ave_CxA_None in E'.
    destruct E'. split; [lia|by rewrite <- Hl].
  - apply ave_CxA_Some in E' as [? Hrange]. apply ave_CxA_None in E.
    destruct E. split; [lia|by rewrite Hl].
  - done.
Qed.

Lemma update_proto_permutation_witness :
  let features' := [[q 7 1; q 7 2]; [q 1 1; q 2 1]; [q 3 1; q 5 1]] in
  let labels' := [2; 2; 0]%Z in
  length Demo.features3 = length Demo.labels3 ∧
  length features' = length labels' ∧
  Forall (λ f, length f = 2) Demo.features3 ∧
  zip Demo.features3 Demo.labels3 ≡ₚ zip features' labels' ∧
  update_proto Demo.features3 Demo.labels3 Demo.estimator
  = update_proto features' labels' Demo.estimator.
Proof.
  intros features' labels'.
  assert (length Demo.features3 = length Demo.labels3) as H1 by reflexivity.
  assert (length features' = length labels') as H2 by reflexivity.
  assert (Forall (λ f, length f = 2) Demo.features3) as H3
    by (repeat constructor).
  assert (zip Demo.features3 Demo.labels3 ≡ₚ zip features' labels') as H4.
  { simpl. etrans; [apply Permutation_skip, Permutation_swap|].
    apply Permutation_swap. }
  split_and!; [exact H1|exact H2|exact H3|exact H4|].
  exact (update_proto_permutation Demo.features3 Demo.labels3 features'
           labels' Demo.estimator H1 H2 H3 H4).
Defined.

(** X4.  An estimator that is resumed from a snapshot.  When the
    snapshot cannot be loaded the constructor raises.  When the snapshot
    has no entry ['MemoryBank'], the object is constructed without a
    bank: a call of [update_proto] without labels returns and changes
    nothing, and every call with at least one label (all of them valid)
    raises [AttributeError] and changes nothing. *)
Theorem resume_without_bank load dim C memory_length resume :
  resume ≠ ""%string →
  (load resume = None → __init__ load dim C memory_length resume = None) ∧
  ∀ ck, load resume = Some ck → ck_MemoryBank ck = None →
    ∃ self0,
      __init__ load dim C memory_length resume = Some self0 ∧
      MemoryBank self0 = None ∧
      Ave self0 = ck_Ave ck ∧ Amount self0 = ck_Amount ck ∧
      CoVariance self0 = ck_CoVariance ck ∧
      (∀ features, update_proto features [] self0 = (Ok (), self0)) ∧
      ∀ features labels,
        labels ≠ [] → length labels ≤ length features →
        Forall (λ l, (0 ≤ l < Z.of_nat C)%Z) labels →
        update_proto features labels self0 = (Raise AttributeError, self0).
Proof.
  intros Hres. unfold __init__. rewrite bool_decide_eq_false_2 by done.
  split; [by intros ->|]. intros ck -> Hck. cbn. rewrite Hck.
  eexists. split_and!; [done..| |].
  - intros features. rewrite update_proto_unfold. cbn [class_num].
    destruct (ave_CxA C features []) as [ave|] eqn:E; [done|].
    apply ave_CxA_None in E. destruct E. split; [simpl; lia|constructor].
  - intros features labels Hne Hlen Hrange.
    rewrite update_proto_unfold. cbn [class_num].
    destruct (ave_CxA C features labels) as [ave|] eqn:E.
    + destruct (unique labels) as [|cls classes] eqn:Eu.
      * destruct labels as [|l labels]; [done|].
        assert (l ∈ unique (l :: labels)) as Hin
          by apply unique_elem_of, list_elem_of_here.
        rewrite Eu in Hin. by apply elem_of_nil in Hin.
      * done.
    + apply ave_CxA_None in E. by destruct E.
Qed.

Lemma resume_without_bank_witness :
  "latest.pth"%string ≠ ""%string ∧
  (Demo.snapshot_file "latest.pth" = None →
   __init__ Demo.snapshot_file 2 3 3 "latest.pth" = None) ∧
  ∀ ck, Demo.snapshot_file "latest.pth" = Some ck → ck_MemoryBank ck = None →
    ∃ self0,
      __init__ Demo.snapshot_file 2 3 3 "latest.pth" = Some self0 ∧
      MemoryBank self0 = None ∧
      Ave self0 = ck_Ave ck ∧ Amount self0 = ck_Amount ck ∧
      CoVariance self0 = ck_CoVariance ck ∧
      (∀ features, update_proto features [] self0 = (Ok (), self0)) ∧
      ∀ features labels,
        labels ≠ [] → length labels ≤ length features →
        Forall (λ l, (0 ≤ l < Z.of_nat 3)%Z) labels →
        update_proto features labels self0 = (Raise AttributeError, self0).
Proof.
  assert ("latest.pth"%string ≠ ""%string) as H1 by discriminate.
  split; [exact H1|].
  exact (resume_without_bank Demo.snapshot_file 2 3 3 "latest.pth" H1).
Defined.
End proto_order.

Section proto_absent.
Import ProtoEstimator.
Implicit Types (features ave : list (list Qc)) (labels : list Z).

Lemma class_pixels_absent features labels (k : Z) :
  k ∉ labels → class_pixels features labels k = [].
Proof.
  revert features. induction labels as [|l labels IH]; intros features Hk.
  { apply class_pixels_nil_r. }
  apply not_elem_of_cons in Hk as [Hne Hk].
  destruct features as [|f features]; [done|].
  rewrite class_pixels_cons, bool_decide_eq_false_2 by done. by apply IH.
Qed.

Lemma sum0_length (C A : nat) (t : list (list (list Qc))) :
  Forall (λ s, length s = C) t → length (sum0 C A t) = C.
Proof.
  induction 1 as [|s t Hs _ IH].
  - apply length_replicate.
  - rewrite sum0_cons, length_zip_with. lia.
Qed.

Lemma scatter_rows_lengths (C : nat) (m : list (list Qc)) labels :
  Forall (λ row, length row = C) m →
  Forall (λ row, length row = C) (scatter_rows m labels).
Proof.
  intros Hm. revert labels.
  induction Hm as [|row m Hrow Hm IH]; intros [|l labels]; simpl;
    [constructor..|by constructor|].
  constructor; [by rewrite length_insert|apply IH].
Qed.

Lemma vdiv_replicate (n : nat) (x y : Qc) :
  zip_with Qcdiv (replicate n x) (replicate n y) = replicate n (x / y)%Qc.
Proof. induction n as [|n IH]; simpl; [done|]. by rewrite IH. Qed.

(** X5.  The class means of a batch of shape [N, A] form a tensor with
    one row per class, and the row of a class without a pixel in the
    batch is the zero vector: its count is replaced by 1 before the
    division, so the division never fails. *)
Theorem ave_CxA_absent_class C features labels ave :
  let A := length (nth 0 features []) in
  ave_CxA C features labels = Some ave →
  Forall (λ f, length f = A) features →
  length ave = C ∧
  ∀ c, c < C → Z.of_nat c ∉ labels → ave !! c = Some (zeros1 A).
Proof.
  intros A Have Hrect.
  pose proof (ave_CxA_Some _ _ _ _ Have) as [Hlen Hrange].
  assert (Forall (λ l, (0 ≤ l)%Z) labels) as Hnn.
  { eapply Forall_impl; [exact Hrange|]. simpl. lia. }
  unfold ave_CxA in Have. fold A in Have.
  destruct (scatter_ _ _ _) as [m|] eqn:E; [|done].
  apply scatter_Some in E as (-> & _ & _).
  simpl in Have. injection Have as <-.
  assert (Forall (λ row : list Qc, length row = C)
            (scatter_rows (zeros2 (length features) C) labels)) as Hrows.
  { apply scatter_rows_lengths, Forall_replicate, length_replicate. }
  split.
  - rewrite length_zip_with, length_fmap, !sum0_length; [lia|..].
    + apply Forall_fmap. eapply Forall_impl; [exact Hrows|].
      simpl. intros row Hrow. by rewrite length_fmap.
    + apply Forall_forall. intros s Hs.
      apply elem_of_lookup_zip_with in Hs as (i & x & y & -> & Hx & Hy).
      rewrite list_lookup_fmap in Hx. rewrite list_lookup_fmap in Hy.
      destruct (features !! i) as [f|]; [|done].
      destruct (scatter_rows _ _ !! i) as [row|] eqn:Erow; [|done].
      simpl in Hx, Hy. injection Hx as <-. injection Hy as <-.
      rewrite length_zip_with, length_replicate, length_fmap.
      rewrite Forall_forall in Hrows.
      rewrite (Hrows row) by by eapply list_elem_of_lookup_2. lia.
  - intros c Hc Habsent. rewrite lookup_zip_with.
    rewrite (feature_sum C A c Hc) by done. simpl.
    rewrite list_lookup_fmap, (amount_sum C A c Hc) by done. simpl.
    rewrite class_pixels_absent by done. simpl.
    rewrite fmap_replicate.
    f_equal. unfold zeros1. rewrite vdiv_replicate. f_equal.
Qed.

Lemma ave_CxA_absent_class_witness :
  let ave := default [] (ave_CxA 3 Demo.features3 Demo.labels3) in
  ave_CxA 3 Demo.features3 Demo.labels3 = Some ave ∧
  Forall (λ f, length f = 2) Demo.features3 ∧
  length ave = 3 ∧
  ∀ c, c < 3 → Z.of_nat c ∉ Demo.labels3 → ave !! c = Some (zeros1 2).
Proof.
  intros ave.
  assert (ave_CxA 3 Demo.features3 Demo.labels3 = Some ave) as H1
    by (vm_compute; reflexivity).
  assert (Forall (λ f, length f = 2) Demo.features3) as H2
    by (repeat constructor).
  split_and!; [exact H1|exact H2|..];
    apply (ave_CxA_absent_class 3 Demo.features3 Demo.labels3 ave H1 H2).
Defined.
End proto_absent.

(** * The module-level helpers *)
Section params_equal.
Implicit Types (ema_model model extra : list (string * flat_tensor)).

Lemma torch_equal_eq (a b : flat_tensor) : torch_equal a b = true ↔ a = b.
Proof.
  unfold torch_equal. rewrite andb_true_iff, !bool_decide_eq_true.
  destruct a, b; simpl. split; [by intros [-> ->]|by intros [= -> ->]].
Qed.

Lemma params_equal_cons ema_param param ema_model model :
  _params_equal (ema_param :: ema_model) (param :: model)
  = torch_equal ema_param.2 param.2 && _params_equal ema_model model.
Proof.
  unfold _params_equal. simpl. by destruct (torch_equal _ _).
Qed.

(** X6.  [_params_equal] returns [True] exactly when, at every position
    at which both models have a parameter, the two tensors have the same
    size and the same entries. *)
Theorem params_equal_iff ema_model model :
  _params_equal ema_model model = true ↔
  ∀ i ema_param param,
    ema_model !! i = Some ema_param → model !! i = Some param →
    ema_param.2 = param.2.
Proof.
  revert model. induction ema_model as [|e ema_model IH]; intros model.
  { split; [by intros _ i ? ? ?|done]. }
  destruct model as [|p model].
  { split; [by intros _ i ? ? ? ?|done]. }
  rewrite params_equal_cons, andb_true_iff, torch_equal_eq, IH. split.
  - intros [H0 Hrest] [|i] ema_param param; simpl.
    + by intros [= <-] [= <-].
    + apply Hrest.
  - intros Hall. split.
    + by apply (Hall 0).
    + intros i. apply (Hall (S i)).
Qed.

(** X7.  The parameters are compared position by position and only as
    far as the shorter model goes: parameters that one model has beyond
    the other never enter, on either side, and neither do the names. *)
Theorem params_equal_by_position ema_model model extra
    (rename : string → string) :
  length ema_model ≤ length model →
  _params_equal ema_model (model ++ extra) = _params_equal ema_model model ∧
  _params_equal (model ++ extra) ema_model = _params_equal model ema_model ∧
  _params_equal (prod_map rename id <$> ema_model) model
  = _params_equal ema_model model ∧
  _params_equal model (prod_map rename id <$> ema_model)
  = _params_equal model ema_model.
Proof.
  revert model. induction ema_model as [|e ema_model IH]; intros model Hlen.
  { unfold _params_equal. simpl. by rewrite !zip_with_nil_r. }
  destruct model as [|p model]; [simpl in Hlen; lia|].
  simpl in Hlen. destruct (IH model) as (H1 & H2 & H3 & H4); [lia|].
  cbn [app fmap list_fmap]. rewrite !params_equal_cons.
  rewrite H1, H2. fold (fmap (M:=list) (prod_map rename id) ema_model).
  by rewrite H3, H4.
Qed.

Lemma params_equal_by_position_witness :
  let w := mk_flat [2] [q 1 2; q 3 4] in
  let b := mk_flat [1] [q 1 1] in
  length [("backbone.w"%string, w)]
  ≤ length [("module.w"%string, w)] ∧
  _params_equal [("backbone.w"%string, w)]
    ([("module.w"%string, w)] ++ [("head.b"%string, b)])
  = _params_equal [("backbone.w"%string, w)] [("module.w"%string, w)] ∧
  _params_equal ([("module.w"%string, w)] ++ [("head.b"%string, b)])
    [("backbone.w"%string, w)]
  = _params_equal [("module.w"%string, w)] [("backbone.w"%string, w)] ∧
  _params_equal (prod_map (String.append "ema.") id
                   <$> [("backbone.w"%string, w)])
    [("module.w"%string, w)]
  = _params_equal [("backbone.w"%string, w)] [("module.w"%string, w)] ∧
  _params_equal [("module.w"%string, w)]
    (prod_map (String.append "ema.") id <$> [("backbone.w"%string, w)])
  = _params_equal [("module.w"%string, w)] [("backbone.w"%string, w)].
Proof.
  intros w b.
  assert (length [("backbone.w"%string, w)]
          ≤ length [("module.w"%string, w)]) as H1 by (simpl; lia).
  split; [exact H1|].
  exact (params_equal_by_position [("backbone.w"%string, w)]
           [("module.w"%string, w)] [("head.b"%string, b)]
           (String.append "ema.") H1).
Defined.
End params_equal.

Section grad_magnitude.
Local Open Scope Qc_scope.
Implicit Types (grads : list flat_tensor) (l : list Qc).

Lemma abs_nonneg (x : Qc) : 0 ≤ abs x.
Proof.
  unfold abs. case_bool_decide as Hx.
  - apply Qclt_le_weak, Qcopp_le_compat in Hx.
    by replace (- 0) with 0 in Hx by ring.
  - by apply Qcnot_lt_le.
Qed.

Lemma foldl_max_spec l :
  ∀ m0,
    let m := foldl (λ m y : Qc, if bool_decide (m < y) then y else m) m0 l in
    (m = m0 ∨ m ∈ l) ∧ m0 ≤ m ∧ ∀ x, x ∈ l → x ≤ m.
Proof.
  induction l as [|y l IH]; intros m0; simpl.
  { split_and!; [by left|apply Qcle_refl|by intros x ?%elem_of_nil]. }
  destruct (IH (if bool_decide (m0 < y) then y else m0)) as (Hm & Hge & Hall).
  set (m := foldl _ _ l) in *.
  assert (m0 ≤ m ∧ y ≤ m) as [H0 Hy].
  { case_bool_decide as Hlt.
    - split; [|done]. eapply Qcle_trans; [|exact Hge].
      by apply Qclt_le_weak.
    - split; [done|]. eapply Qcle_trans; [|exact Hge].
      by apply Qcnot_lt_le. }
  split_and!; [|done|].
  - destruct Hm as [Hm|Hm]; [|right; by apply list_elem_of_further].
    case_bool_decide; [right; rewrite Hm; apply list_elem_of_here|by left].
  - intros x [->|Hx]%elem_of_cons; [done|by apply Hall].
Qed.

Lemma py_max_Some l m :
  py_max l = Some m → m ∈ l ∧ ∀ x, x ∈ l → x ≤ m.
Proof.
  destruct l as [|x0 l]; [done|]. simpl. intros [= <-].
  destruct (foldl_max_spec l x0) as (Hm & Hge & Hall). split.
  - destruct Hm as [->|Hm]; [apply list_elem_of_here|].
    by apply list_elem_of_further.
  - intros x [->|Hx]%elem_of_cons; [done|by apply Hall].
Qed.

(** X8.  The gradient magnitude for [norm_type = inf].  The call raises
    exactly when there is no gradient or when one of the gradients has
    no entry; otherwise it returns the largest absolute value among all
    the entries of all the gradients: every entry is bounded by it, it
    is attained by one of them, and it is not negative. *)
Theorem grad_magnitude_inf torch_norm grads :
  (calc_grad_magnitude torch_norm grads Infinity = None ↔
   grads = [] ∨ ∃ p, p ∈ grads ∧ entries p = []) ∧
  ∀ m, calc_grad_magnitude torch_norm grads Infinity = Some m →
    (∀ p x, p ∈ grads → x ∈ entries p → abs x ≤ m) ∧
    (∃ p x, p ∈ grads ∧ x ∈ entries p ∧ m = abs x) ∧
    0 ≤ m.
Proof.
  unfold calc_grad_magnitude. split.
  - destruct (mapM abs_max grads) as [maxes|] eqn:E; simpl.
    + pose proof (length_mapM _ _ _ E) as Hlen.
      apply mapM_Some in E. split.
      * destruct maxes as [|mx maxes]; [|done]. intros _. left.
        by destruct grads.
      * intros [->|(p & Hp & Hnil)].
        { apply Forall2_nil_inv_l in E. by subst maxes. }
        apply list_elem_of_lookup_1 in Hp as [i Hp].
        destruct (Forall2_lookup_l _ _ _ _ _ E Hp) as (mx & _ & Hmx).
        unfold abs_max in Hmx. by rewrite Hnil in Hmx.
    + split; [|done]. intros _. right.
      apply mapM_None, Exists_exists in E as (p & Hp & Hmx).
      exists p. split; [done|]. unfold abs_max, py_max in Hmx.
      by destruct (entries p).
  - intros m Hm.
    destruct (mapM abs_max grads) as [maxes|] eqn:E; [simpl in Hm|done].
    apply mapM_Some in E. apply py_max_Some in Hm as [Hin Hall].
    assert (∃ p x, p ∈ grads ∧ x ∈ entries p ∧ m = abs x) as Hatt.
    { apply list_elem_of_lookup_1 in Hin as [i Hi].
      destruct (Forall2_lookup_r _ _ _ _ _ E Hi) as (p & Hp & Hmx).
      apply py_max_Some in Hmx as [(x & -> & Hx)%list_elem_of_fmap _].
      exists p, x. split; [by eapply list_elem_of_lookup_2|done]. }
    split_and!; [|done|].
    + intros p x Hp Hx. apply list_elem_of_lookup_1 in Hp as [i Hp].
      destruct (Forall2_lookup_l _ _ _ _ _ E Hp) as (mx & Hi & Hmx).
      apply py_max_Some in Hmx as [_ Hle].
      eapply Qcle_trans; [apply Hle; by apply list_elem_of_fmap_2|].
      apply Hall. by eapply list_elem_of_lookup_2.
    + destruct Hatt as (p & x & _ & _ & ->). apply abs_nonneg.
Qed.
End grad_magnitude.

(** * Further properties of the pseudo-label generation *)
Section argmax.
Import DACS.
Local Open Scope Qc_scope.
Implicit Types (acc : list (list (Qc * Z))) (p : list (list Qc)).
Implicit Types (seen ps : list (list (list Qc))).

Lemma at2_max_step (k : Z) acc p r c :
  at2 (max_step k acc p) r c
  = match at2 acc r c, at2 p r c with
    | Some mi, Some v => Some (if Qle_bool v mi.1 then mi else (v, k))
    | _, _ => None
    end.
Proof.
  unfold at2, max_step. rewrite lookup_zip_with.
  destruct (acc !! r) as [arow|]; [simpl|done].
  destruct (p !! r) as [prow|]; [simpl|by destruct (arow !! c)].
  rewrite lookup_zip_with.
  destruct (arow !! c) as [mi|]; [simpl|done].
  by destruct (prow !! c).
Qed.

Lemma at3_app_l {A} (t u : list (list (list A))) j r c :
  (j < length t)%nat → at3 (t ++ u) j r c = at3 t j r c.
Proof. intros Hj. unfold at3. by rewrite lookup_app_l. Qed.

Lemma at3_is_Some_lt {A} (t : list (list (list A))) j r c x :
  at3 t j r c = Some x → (j < length t)%nat.
Proof.
  unfold at3. destruct (t !! j) eqn:E; [|done].
  intros _. by eapply lookup_lt_Some.
Qed.

Lemma at3_snoc {A} (t : list (list (list A))) (u : list (list A)) j r c x :
  at3 (t ++ [u]) j r c = Some x →
  ((j < length t)%nat ∧ at3 t j r c = Some x)
  ∨ (j = length t ∧ at2 u r c = Some x).
Proof.
  intros Hx. pose proof (at3_is_Some_lt _ _ _ _ _ Hx) as Hj.
  rewrite length_app in Hj. simpl in Hj.
  destruct (decide (j < length t)%nat) as [Hlt|Hge].
  - left. by rewrite at3_app_l in Hx.
  - right. assert (j = length t) as -> by lia. split; [done|].
    unfold at3 in Hx. by rewrite list_lookup_middle in Hx.
Qed.

(** The running maximum at one pixel: after the planes [seen] it is the
    entry of a plane [n], no entry of a plane is larger, and the entries
    of the planes before [n] are smaller; and so it is after the planes
    [ps] that follow. *)
Lemma max_planes_spec ps r c :
  ∀ seen acc (m : Qc) (i : Z),
    at2 (max_planes (Z.of_nat (length seen)) acc ps) r c = Some (m, i) →
    (∀ (m0 : Qc) (i0 : Z), at2 acc r c = Some (m0, i0) →
       ∃ n : nat, i0 = Z.of_nat n ∧ at3 seen n r c = Some m0 ∧
         ∀ (j : nat) (v : Qc), at3 seen j r c = Some v →
                               v ≤ m0 ∧ ((j < n)%nat → v < m0)) →
    ∃ n : nat, i = Z.of_nat n ∧ at3 (seen ++ ps) n r c = Some m ∧
      ∀ (j : nat) (v : Qc), at3 (seen ++ ps) j r c = Some v →
                            v ≤ m ∧ ((j < n)%nat → v < m).
Proof.
  induction ps as [|p ps IH]; intros seen acc m i Hres Hacc.
  { rewrite app_nil_r. by apply Hacc. }
  cbn [max_planes] in Hres.
  replace (Z.of_nat (length seen) + 1)%Z
    with (Z.of_nat (length (seen ++ [p]))) in Hres
    by (rewrite length_app; simpl; lia).
  rewrite (assoc_L _ seen [p] ps : seen ++ p :: ps = (seen ++ [p]) ++ ps).
  eapply IH; [exact Hres|]. clear Hres IH.
  intros m1 i1. rewrite at2_max_step.
  destruct (at2 acc r c) as [[m0 i0]|] eqn:E0; [|done].
  destruct (at2 p r c) as [v|] eqn:Ev; [|done].
  destruct (Hacc m0 i0 eq_refl) as (n & -> & Hn & Hall).
  pose proof (at3_is_Some_lt _ _ _ _ _ Hn) as Hlt.
  simpl. destruct (Qle_bool v m0) eqn:Hle; intros [= <- <-].
  - apply Qle_bool_iff in Hle. exists n. split; [done|].
    split; [by rewrite at3_app_l|].
    intros j w [[Hj Hw]|[-> Hw]]%at3_snoc; [by apply Hall|].
    split; [|lia]. rewrite Ev in Hw. by injection Hw as <-.
  - assert (m0 < v) as Hgt.
    { apply Qcnot_le_lt. intros H%Qle_bool_iff. by rewrite H in Hle. }
    exists (length seen). split; [done|]. split.
    { unfold at3. by rewrite list_lookup_middle. }
    intros j w [[Hj Hw]|[-> Hw]]%at3_snoc.
    + destruct (Hall j w Hw) as [Hw0 _]. split.
      * apply Qclt_le_weak. by eapply Qcle_lt_trans.
      * intros _. by eapply Qcle_lt_trans.
    + rewrite Ev in Hw. injection Hw as <-.
      split; [apply Qcle_refl|lia].
Qed.

(** X9.  The pseudo-label of a pixel is the first class of maximal
    probability, and its confidence is that probability: no class has
    a larger probability at the pixel, and every class with a smaller
    id has a smaller one. *)
Theorem pseudo_label_is_argmax
    ema_softmax pseudo_prob pseudo_label b r c (p : Qc) :
  max_dim1 ema_softmax = Some (pseudo_prob, pseudo_label) →
  at3 pseudo_prob b r c = Some p →
  ∃ sample (k : nat),
    ema_softmax !! b = Some sample ∧
    at3 pseudo_label b r c = Some (Z.of_nat k) ∧
    at3 sample k r c = Some p ∧
    ∀ (j : nat) (v : Qc), at3 sample j r c = Some v →
                          v ≤ p ∧ ((j < k)%nat → v < p).
Proof.
  unfold max_dim1. intros Hmax Hp.
  destruct (mapM max_dim1_sample ema_softmax) as [vi|] eqn:Evi; [|done].
  injection Hmax as <- <-. apply mapM_Some in Evi.
  rewrite at3_map3 in Hp.
  destruct (at3 vi b r c) as [[m i]|] eqn:Emi; [|done].
  injection Hp as <-.
  unfold at3 in Emi. destruct (vi !! b) as [res|] eqn:Eres; [|done].
  simpl in Emi.
  destruct (Forall2_lookup_r _ _ _ _ _ Evi Eres) as (sample & Hs & Hres).
  destruct sample as [|p0 ps]; [done|]. injection Hres as <-.
  destruct (max_planes_spec ps r c [p0]
              ((λ row : list Qc, (λ v : Qc, (v, 0%Z)) <$> row) <$> p0) m i Emi)
    as (k & -> & Hk & Hall).
  { intros m0 i0 H0. exists 0%nat.
    assert (at2 p0 r c = Some m0 ∧ i0 = 0%Z) as [H1 ->].
    { unfold at2 in *. rewrite list_lookup_fmap in H0.
      destruct (p0 !! r) as [row|]; [|done]. simpl in *.
      rewrite list_lookup_fmap in H0.
      destruct (row !! c); [|done]. by injection H0 as <- <-. }
    split; [done|]. split; [done|].
    intros [|j] v Hv; [|by apply at3_is_Some_lt in Hv; simpl in Hv; lia].
    unfold at3 in Hv. simpl in Hv. rewrite H1 in Hv. injection Hv as <-.
    split; [apply Qcle_refl|lia]. }
  exists (p0 :: ps), k. split_and!; [done| |done..].
  rewrite at3_map3. unfold at3. rewrite Eres. simpl. by rewrite Emi.
Qed.

Lemma pseudo_label_is_argmax_witness :
  let pseudo_prob := (default ([], []) (max_dim1 DemoStep.softmax_4x4)).1 in
  let pseudo_label := (default ([], []) (max_dim1 DemoStep.softmax_4x4)).2 in
  max_dim1 DemoStep.softmax_4x4 = Some (pseudo_prob, pseudo_label) ∧
  at3 pseudo_prob 0 0 3 = Some (q 3 5) ∧
  ∃ sample (k : nat),
    DemoStep.softmax_4x4 !! 0%nat = Some sample ∧
    at3 pseudo_label 0 0 3 = Some (Z.of_nat k) ∧
    at3 sample k 0 3 = Some (q 3 5) ∧
    ∀ (j : nat) (v : Qc), at3 sample j 0 3 = Some v →
                          v ≤ q 3 5 ∧ ((j < k)%nat → v < q 3 5).
Proof.
  intros pseudo_prob pseudo_label.
  assert (max_dim1 DemoStep.softmax_4x4 = Some (pseudo_prob, pseudo_label))
    as H1 by (vm_compute; reflexivity).
  assert (at3 pseudo_prob 0 0 3 = Some (q 3 5)) as H2.
  { vm_compute. apply (f_equal Some). by apply Qc_is_canon. }
  split_and!; [exact H1|exact H2|].
  exact (pseudo_label_is_argmax DemoStep.softmax_4x4 pseudo_prob
           pseudo_label 0 0 3 (q 3 5) H1 H2).
Defined.
End argmax.

Section reshape.
Context {A : Type}.
Implicit Types (l : list A).

Lemma chunks_length (k n : nat) l : length (chunks k n l) = k.
Proof. revert l. induction k as [|k IH]; intros l; simpl; [done|]. by rewrite IH. Qed.

Lemma chunks_join (k n : nat) l :
  length l = k * n → mjoin (chunks k n l) = l.
Proof.
  revert l. induction k as [|k IH]; intros l Hl; simpl.
  - by destruct l.
  - rewrite IH by (rewrite length_drop; lia). apply take_drop.
Qed.

Lemma chunks_sizes (k n : nat) l :
  length l = k * n → Forall (λ u, length u = n) (chunks k n l).
Proof.
  revert l. induction k as [|k IH]; intros l Hl; simpl; constructor.
  - rewrite length_take. lia.
  - apply IH. rewrite length_drop. lia.
Qed.

Lemma join_fmap_id (g : list A → list (list A)) (us : list (list A)) :
  Forall (λ u, mjoin (g u) = u) us → mjoin (mjoin (g <$> us)) = mjoin us.
Proof.
  induction 1 as [|u us Hu _ IH]; [done|].
  csimpl. by rewrite join_app, Hu, IH.
Qed.

(** X10.  The reshape of the pseudo-label map keeps the labels and
    their order: when [view(a, b, c, d)] succeeds, the result has the
    shape (a, b, c, d) and its entries, read in row-major order, are
    those of the map. *)
Theorem view4_round_trip (a b c d : nat) (t : list (list (list A))) v :
  view4 a b c d t = Some v →
  mjoin (mjoin (mjoin v)) = mjoin (mjoin t) ∧
  length v = a ∧
  Forall (λ s, length s = b ∧
               Forall (λ u, length u = c ∧
                            Forall (λ row, length row = d) u) s) v.
Proof.
  unfold view4, numel3. case_bool_decide as Hn; [|done]. intros [= <-].
  set (l := mjoin (mjoin t)) in *.
  assert (length l = a * (b * c * d)) as Hl by lia.
  pose proof (chunks_sizes a (b * c * d) l Hl) as Hss.
  split_and!.
  - rewrite <- (chunks_join a (b * c * d) l Hl) at 2.
    generalize (chunks a (b * c * d) l) Hss. clear.
    induction 1 as [|s ss Hs _ IH]; [done|].
    csimpl. rewrite !join_app, IH. f_equal.
    assert (length s = b * (c * d)) as Hs' by lia.
    rewrite join_fmap_id; [by apply chunks_join|].
    eapply Forall_impl; [apply (chunks_sizes _ _ _ Hs')|].
    simpl. intros u Hu. by apply chunks_join.
  - by rewrite length_fmap, chunks_length.
  - apply Forall_fmap. eapply Forall_impl; [exact Hss|].
    simpl. intros s Hs. rewrite length_fmap, chunks_length.
    split; [done|]. apply Forall_fmap.
    assert (length s = b * (c * d)) as Hs' by lia.
    eapply Forall_impl; [apply (chunks_sizes _ _ _ Hs')|].
    simpl. intros u Hu. rewrite chunks_length. split; [done|].
    by apply chunks_sizes.
Qed.
End reshape.

Lemma view4_round_trip_witness :
  let t := [[[1; 2; 3]; [4; 5; 6]]; [[7; 8; 9]; [10; 11; 12]]]%Z in
  let v := [[[[1; 2]; [3; 4]; [5; 6]]]; [[[7; 8]; [9; 10]; [11; 12]]]]%Z in
  view4 2 1 3 2 t = Some v ∧
  mjoin (mjoin (mjoin v)) = mjoin (mjoin t) ∧
  length v = 2 ∧
  Forall (λ s, length s = 1 ∧
               Forall (λ u, length u = 3 ∧
                            Forall (λ row : list Z, length row = 2) u) s) v.
Proof.
  intros t v.
  assert (view4 2 1 3 2 t = Some v) as H1 by reflexivity.
  split; [exact H1|].
  exact (view4_round_trip 2 1 3 2 t v H1).
Defined.

Section trust_weight_order.
Import DACS.
Local Open Scope Qc_scope.

Lemma filter_length_mono {X} (P Q : X → Prop)
    `{!∀ x, Decision (P x)} `{!∀ x, Decision (Q x)} (l : list X) :
  (∀ x, x ∈ l → P x → Q x) →
  (length (filter P l) ≤ length (filter Q l))%nat.
Proof.
  induction l as [|x l IH]; intros HPQ; [done|].
  rewrite !filter_cons.
  assert (length (filter P l) ≤ length (filter Q l))%nat as Hl.
  { apply IH. intros y Hy. by apply HPQ, list_elem_of_further. }
  destruct (decide (P x)) as [HP|HP].
  - rewrite decide_True by (apply HPQ; [apply list_elem_of_here|done]).
    simpl. lia.
  - destruct (decide (Q x)); simpl; lia.
Qed.

Lemma filter_all {X} (P : X → Prop) `{!∀ x, Decision (P x)} (l : list X) :
  (∀ x, x ∈ l → P x) → filter P l = l.
Proof.
  induction l as [|x l IH]; intros Hl; [done|].
  rewrite filter_cons, decide_True by apply Hl, list_elem_of_here.
  f_equal. apply IH. intros y Hy. by apply Hl, list_elem_of_further.
Qed.

Lemma of_nat_div_mono (n1 n2 m : nat) :
  (n1 ≤ n2)%nat → of_nat n1 / of_nat m ≤ of_nat n2 / of_nat m.
Proof.
  intros Hn. unfold Qcdiv. apply Qcmult_le_compat_r.
  - unfold Qcle. rewrite !of_nat_this, <- Zle_Qle. lia.
  - destruct m as [|m].
    + rewrite of_nat_0. by unfold Qcle.
    + apply Qclt_le_weak. unfold Qclt, Qcinv, of_nat. cbn [this Q2Qc].
      rewrite !Qred_correct. apply Qinv_lt_0_compat.
      change 0%Q with (inject_Z 0). rewrite <- Zlt_Qlt. lia.
Qed.

(** X11.  The trust weight does not grow with the threshold: of two
    thresholds on the same batch, the larger one gives the smaller (or
    the same) weight.  When every pixel reaches the threshold, the
    weight is 1. *)
Theorem trust_weight_antitone
    (t1 t2 : Qc) pseudo_prob pseudo_label (s1 s2 : Qc) :
  t1 ≤ t2 →
  trust_weight t1 pseudo_prob pseudo_label = Some s1 →
  trust_weight t2 pseudo_prob pseudo_label = Some s2 →
  s2 ≤ s1 ∧
  ((∀ b r c p, at3 pseudo_prob b r c = Some p → t1 ≤ p) →
   numel3 pseudo_prob = numel3 pseudo_label → s1 = 1).
Proof.
  unfold trust_weight. intros Ht.
  case_bool_decide as Hz; [done|]. intros [= <-] [= <-].
  rewrite !sum_bool_trusted. split.
  - apply of_nat_div_mono. unfold trusted_pixels.
    apply filter_length_mono. intros p _ Hp. by eapply Qcle_trans.
  - intros Hall Hnum. unfold trusted_pixels.
    rewrite filter_all.
    + fold (numel3 pseudo_prob). rewrite Hnum.
      apply Qcmult_inv_r. intros H0.
      destruct (numel3 pseudo_label) as [|n]; [done|].
      pose proof (is_zero_of_nat_S n) as Hnz. rewrite H0 in Hnz. done.
    + intros p (b & r & c & Hp)%elem_of_at3. by eapply Hall.
Qed.

Lemma trust_weight_antitone_witness :
  let pseudo_prob := (default ([], []) (max_dim1 DemoStep.softmax_4x4)).1 in
  let pseudo_label := (default ([], []) (max_dim1 DemoStep.softmax_4x4)).2 in
  q 1 2 ≤ q 9 10 ∧
  trust_weight (q 1 2) pseudo_prob pseudo_label = Some 1 ∧
  trust_weight (q 9 10) pseudo_prob pseudo_label = Some (q 1 4) ∧
  q 1 4 ≤ 1 ∧
  ((∀ b r c p, at3 pseudo_prob b r c = Some p → q 1 2 ≤ p) →
   numel3 pseudo_prob = numel3 pseudo_label → 1 = 1).
Proof.
  intros pseudo_prob pseudo_label.
  assert (q 1 2 ≤ q 9 10) as H1 by (by vm_compute).
  assert (trust_weight (q 1 2) pseudo_prob pseudo_label = Some 1) as H2
    by (vm_compute; tensor_eq).
  assert (trust_weight (q 9 10) pseudo_prob pseudo_label = Some (q 1 4))
    as H3 by (vm_compute; tensor_eq).
  split_and!; [exact H1|exact H2|exact H3|..];
    apply (trust_weight_antitone (q 1 2) (q 9 10) pseudo_prob pseudo_label
             1 (q 1 4) H1 H2 H3).
Defined.

(** X12.  The edges of the two band parameters.  A parameter that is 0
    or negative switches its band off: with both switched off every
    entry of the weight map is the scalar.  A band that is at least as
    high as the sample covers it: every entry of the sample is 0. *)
Theorem weight_map_band_edges
    (top bottom : Z) (s : Qc) pseudo_prob b img r c (x : Qc) :
  pseudo_prob !! b = Some img →
  at3 (weight_map top bottom s pseudo_prob) b r c = Some x →
  ((top ≤ 0)%Z → (bottom ≤ 0)%Z → x = s) ∧
  ((0 < top)%Z → (Z.of_nat (length img) ≤ top)%Z → x = 0) ∧
  ((0 < bottom)%Z → (Z.of_nat (length img) ≤ bottom)%Z → x = 0).
Proof.
  intros Hb Hx. rewrite (at3_weight_map _ _ _ _ _ _ _ _ Hb) in Hx.
  assert (r < length img)%nat as Hr.
  { unfold at3, at2 in Hx. rewrite Hb in Hx. simpl in Hx.
    destruct (img !! r) as [row|] eqn:Er; [|done].
    by eapply lookup_lt_Some. }
  destruct (at3 pseudo_prob b r c); [simpl in Hx|done].
  injection Hx as <-. split_and!.
  - intros Ht Hbt.
    rewrite (proj2 (Z.ltb_ge 0 top)), (proj2 (Z.ltb_ge 0 bottom)) by lia.
    done.
  - intros Ht Hcover.
    rewrite (proj2 (Z.ltb_lt 0 top)) by done.
    rewrite (proj2 (Z.ltb_lt (Z.of_nat r) top)) by lia. done.
  - intros Hbt Hcover.
    rewrite (proj2 (Z.ltb_lt 0 bottom)) by done.
    rewrite (proj2 (Z.leb_le (Z.of_nat (length img) - bottom) (Z.of_nat r)))
      by lia.
    by rewrite orb_true_r.
Qed.

Lemma weight_map_band_edges_witness :
  let pseudo_prob := (default ([], []) (max_dim1 DemoStep.softmax_4x4)).1 in
  let img := default [] (pseudo_prob !! 0%nat) in
  pseudo_prob !! 0%nat = Some img ∧
  at3 (weight_map (-3) 7 (q 1 4) pseudo_prob) 0 2 1 = Some 0 ∧
  ((-3 ≤ 0)%Z → (7 ≤ 0)%Z → 0 = q 1 4) ∧
  ((0 < -3)%Z → (Z.of_nat (length img) ≤ -3)%Z → 0 = 0) ∧
  ((0 < 7)%Z → (Z.of_nat (length img) ≤ 7)%Z → 0 = 0).
Proof.
  intros pseudo_prob img.
  assert (pseudo_prob !! 0%nat = Some img) as H1 by reflexivity.
  assert (at3 (weight_map (-3) 7 (q 1 4) pseudo_prob) 0 2 1 = Some 0)
    as H2 by (vm_compute; tensor_eq).
  split_and!; [exact H1|exact H2|..];
    apply (weight_map_band_edges (-3) 7 (q 1 4) pseudo_prob 0 img 2 1 0
             H1 H2).
Defined.
End trust_weight_order.

(** * Further properties of the mixing loop *)
Section mixing_bounds.
Import DACS.
Context `{Collaborators}.
Context (params : aug_params) (mix_masks : list (list (list bool)))
  (img target_img : list (list (list (list Qc))))
  (gt_semantic_seg : list (list (list (list Z))))
  (pseudo_label : list (list (list Z))).


End mixing_bounds.

Section mixing_shape.
Import DACS.
Context `{Collaborators}.


Lemma same_domain_length {A B} (l : list A) (k : list B) :
  (∀ i, is_Some (l !! i) ↔ is_Some (k !! i)) → length l = length k.
Proof.
  intros Hdom.
  destruct (decide (length l < length k)) as [Hlt|Hge].
  { apply lookup_lt_is_Some, Hdom, lookup_lt_is_Some in Hlt. lia. }
  destruct (decide (length k < length l)) as [Hlt|Hge'].
  { apply lookup_lt_is_Some, Hdom, lookup_lt_is_Some in Hlt. lia. }
  lia.
Qed.



(** X14.  What the mixing loop returns has the size of the source
    batch: there are as many mixed images and mixed labels as source
    images, the weight tensor keeps its number of samples, and the
    weights of a target sample beyond the source batch are the ones
    from before the loop. *)
Theorem apply_mixing_batch_size params mix_masks img target_img
    gt_semantic_seg pseudo_label pseudo_weight mixed_img mixed_lbl
    mixed_weight :
  apply_mixing params mix_masks img target_img gt_semantic_seg pseudo_label
    pseudo_weight = Some (mixed_img, mixed_lbl, mixed_weight) →
  length mixed_img = length img ∧ length mixed_lbl = length img ∧
  length mixed_weight = length pseudo_weight ∧
  ∀ i, length img ≤ i → mixed_weight !! i = pseudo_weight !! i.
Proof.
  unfold apply_mixing. intros Hmix.
  destruct (foldl _ _ _) as [st|] eqn:Eloop; [simpl in Hmix|done].
  destruct (mapM id (DACS.mixed_img st)) as [mi|] eqn:Emi;
    [simpl in Hmix|done].
  destruct (mapM id (DACS.mixed_lbl st)) as [ml|] eqn:Eml;
    [simpl in Hmix|done].
  injection Hmix as <- <- <-.
  apply mix_loop_Some in Eloop as (Hl1 & Hl2 & Hsamples); [|apply NoDup_seq].
  cbn [DACS.mixed_img DACS.mixed_lbl] in Hl1, Hl2.
  rewrite length_replicate in Hl1. rewrite length_replicate in Hl2.
  apply length_mapM in Emi. apply length_mapM in Eml.
  assert (∀ i, length img ≤ i →
               DACS.mixed_weight st !! i = pseudo_weight !! i) as Hrest.
  { intros i Hi. destruct (Hsamples i) as [_ Hsame].
    destruct Hsame as (_ & _ & Hw); [|done].
    rewrite elem_of_seq. lia. }
  split_and!; [lia|lia| |done].
  apply same_domain_length. intros i.
  destruct (decide (i < length img)) as [Hi|Hi].
  - destruct (Hsamples i) as [Hin _].
    destruct Hin as (?&?&?&?&?&?&?&w&?&?&?&?&?&?&?& Hw &_&_& M3).
    { apply elem_of_seq. lia. }
    cbn [DACS.mixed_weight] in Hw. rewrite M3, Hw. split; by eexists.
  - by rewrite Hrest by lia.
Qed.

End mixing_shape.

Section mixing_shape_demo.
Import DACS DemoStep.

Lemma apply_mixing_batch_size_witness :
  let mixed :=
    default ([], [], [])
      (@apply_mixing collaborators ()
         (@mix_masks_of collaborators gt_2x2)
         (take 1 img_2x2) target_2x2 gt_2x2
         pseudo_label_2x2 pseudo_weight_2x2) in
  @apply_mixing collaborators ()
    (@mix_masks_of collaborators gt_2x2)
    (take 1 img_2x2) target_2x2 gt_2x2
    pseudo_label_2x2 pseudo_weight_2x2
  = Some (mixed.1.1, mixed.1.2, mixed.2) ∧
  length mixed.1.1 = length (take 1 img_2x2) ∧
  length mixed.1.2 = length (take 1 img_2x2) ∧
  length mixed.2 = length pseudo_weight_2x2 ∧
  ∀ i, length (take 1 img_2x2) ≤ i →
       mixed.2 !! i = pseudo_weight_2x2 !! i.
Proof.
  intros mixed.
  assert (@apply_mixing collaborators ()
            (@mix_masks_of collaborators gt_2x2)
            (take 1 img_2x2) target_2x2 gt_2x2
            pseudo_label_2x2 pseudo_weight_2x2
          = Some (mixed.1.1, mixed.1.2, mixed.2)) as H1
    by (vm_compute; reflexivity).
  split; [exact H1|].
  exact (@apply_mixing_batch_size collaborators ()
           (@mix_masks_of collaborators gt_2x2)
           (take 1 img_2x2) target_2x2 gt_2x2
           pseudo_label_2x2 pseudo_weight_2x2
           mixed.1.1 mixed.1.2 mixed.2 H1).
Defined.
End mixing_shape_demo.

(** * Further properties of the training step *)

(** The conditions that a run of the step has tested are used to
    decide the same conditions in the statement. *)
Ltac known_tests :=
  repeat
    match goal with
    | Ht : ?b = true |- context [?b] => rewrite Ht
    | Ht : ?b = false |- context [?b] => rewrite Ht
    end;
  cbn [app].

Section step_order.
Import DACS.
Context `{Collaborators}.

(** X15.  The backward passes of a step come in one order: the source
    loss, the feature distance when it is enabled, the mixed loss, the
    contrastive loss when the warm-up is over, and the distillation
    loss.  A step that returns has made all of them, each once; a step
    that raises has made the first ones of them, in this order. *)
Theorem backward_order img gt_semantic_seg target_img self r self' :
  forward_train img gt_semantic_seg target_img self = (r, self') →
  let all :=
    [Clean] ++ (if enable_fdist self then [FDist] else []) ++ [Mix]
    ++ (if bool_decide (start_distribution_iter self ≤ local_iter self)
        then [Contrastive] else [])
    ++ [KL] in
  ∃ evs, grads self' = grads self ++ evs ∧
    event_term <$> evs `prefix_of` all ∧
    (∀ log_vars, r = Ok log_vars → event_term <$> evs = all).
Proof.
  intros Hrun all. unfold all. clear all.
  wp_start Hrun. unfold forward_train.
  repeat wp_step; events; known_tests;
    (split; [by eexists|]); intros log_vars Hr; by try discriminate Hr.
Qed.
End step_order.

Section step_state.
Import DACS.
Context `{Collaborators}.

(** X16.  The iteration counter counts the steps that returned: a step
    that returns adds 1 to it and a step that raises leaves it as it
    was.  No step writes the threshold, the two band parameters, the
    feature-distance settings, the debug interval or the warm-up
    threshold. *)
Theorem step_counter img gt_semantic_seg target_img self r self' :
  forward_train img gt_semantic_seg target_img self = (r, self') →
  local_iter self'
  = (if r is Ok _ then local_iter self + 1 else local_iter self) ∧
  pseudo_threshold self' = pseudo_threshold self ∧
  psweight_ignore_top self' = psweight_ignore_top self ∧
  psweight_ignore_bottom self' = psweight_ignore_bottom self ∧
  fdist_lambda self' = fdist_lambda self ∧
  enable_fdist self' = enable_fdist self ∧
  debug_img_interval self' = debug_img_interval self ∧
  start_distribution_iter self' = start_distribution_iter self.
Proof.
  intros Hrun. wp_start Hrun. unfold forward_train.
  repeat wp_step; by split_and!.
Qed.

(** X17.  In every step that returns, during the warm-up as well as
    after it, the memory bank is updated with the features that
    [contrast_preparations] makes of the teacher's context features and
    of the reshaped pseudo-labels; and the contrastive loss that is
    back-propagated is computed from the bank as it is after this
    update. *)
Theorem contrastive_reads_updated_bank
    img gt_semantic_seg target_img self log_vars self' :
  forward_train img gt_semantic_seg target_img self = (Ok log_vars, self') →
  ∃ pseudo_prob pseudo_label pseudo_label_cl bank,
    max_dim1 (teacher_softmax target_img) = Some (pseudo_prob, pseudo_label) ∧
    view4 2 1 512 512 pseudo_label = Some pseudo_label_cl ∧
    (let fm := contrast_preparations
                 (teacher_extract_decode_context target_img)
                 pseudo_label_cl in
     ProtoEstimator.update_proto fm.1 fm.2 (feat_distributions self)
     = (Ok (), feat_distributions self')) ∧
    ProtoEstimator.MemoryBank (feat_distributions self') = Some bank ∧
    ∃ evs, grads self' = grads self ++ evs ∧
      ∀ v, Backward Contrastive v ∈ evs →
        v = (parse_losses
               {[ "contrastive loss"%string :=
                    bank_contrastive
                      (student_extract_decode_context target_img)
                      pseudo_label_cl bank ]}).1.
Proof.
  intros Hrun. remember (Ok log_vars) as r eqn:Hr. revert Hr.
  wp_start Hrun. unfold forward_train.
  repeat wp_step; intros Hr; try discriminate Hr;
    (eexists _, _, _, _; split_and!;
     [ done | done
     | by match goal with
          | Hc : contrast_preparations _ _ = _ |- _ => rewrite Hc
          end
     | done
     | events; intros v Hv;
       repeat (apply elem_of_cons in Hv as [Hv|Hv]; [try discriminate Hv|]);
       try (by apply elem_of_nil in Hv);
       injection Hv as ->;
       by match goal with
          | Hp : parse_losses {[ "contrastive loss"%string := _ ]} = _ |- _ =>
              rewrite Hp
          end ]).
Qed.
End step_state.

Section proto_exceptions.
Import ProtoEstimator.


End proto_exceptions.

Section step_edges.
Import DACS.
Context `{Collaborators}.


(** X19.  An empty target batch.  The teacher has no pixel to label, the
    division of the trust weight is a division by 0, and the step raises
    [ZeroDivisionError]; by then the source loss (and the feature
    distance, when it is enabled) has been back-propagated, and nothing
    else: the memory bank and the counter are untouched. *)
Theorem empty_target_batch img gt_semantic_seg target_img self r self' :
  teacher_softmax target_img = [] →
  forward_train img gt_semantic_seg target_img self = (r, self') →
  r = Raise ZeroDivisionError ∧
  feat_distributions self' = feat_distributions self ∧
  local_iter self' = local_iter self ∧
  ∃ evs, grads self' = grads self ++ evs ∧
    event_term <$> evs
    = [Clean] ++ (if enable_fdist self then [FDist] else []).
Proof.
  intros Hempty Hrun.
  assert (max_dim1 (teacher_softmax target_img) = Some ([], [])) as Hmax
    by by rewrite Hempty.
  assert (trust_weight (pseudo_threshold self) [] [] = None) as Htw by done.
  wp_start Hrun. unfold forward_train.
  repeat wp_step; (split_and!; [done..|]); events; by known_tests.
Qed.
End step_edges.

Section step_batches.
Import DACS.
Context `{Collaborators}.


Lemma trust_weight_Some (threshold : Qc) pseudo_prob pseudo_label (s : Qc) :
  trust_weight threshold pseudo_prob pseudo_label = Some s →
  s = (of_nat (trusted_pixels threshold pseudo_prob)
       / of_nat (numel3 pseudo_label))%Qc.
Proof.
  unfold trust_weight. case_bool_decide; [done|].
  rewrite sum_bool_trusted. by intros [= <-].
Qed.

(** X21.  The distillation loss of a step that returns is the last
    backward pass of the step.  It is the divergence between the
    student on the augmented view of the target batch and the teacher
    on the plain view, multiplied by the trust weight of the batch, the
    fraction of trusted pixels from before the bands are zeroed. *)
Theorem distillation_scaled_by_trust_weight
    img gt_semantic_seg target_img self log_vars self' :
  forward_train img gt_semantic_seg target_img self = (Ok log_vars, self') →
  ∃ pseudo_prob pseudo_label s,
    max_dim1 (teacher_softmax target_img) = Some (pseudo_prob, pseudo_label) ∧
    s = (of_nat (trusted_pixels (pseudo_threshold self) pseudo_prob)
         / of_nat (numel3 pseudo_label))%Qc ∧
    let views :=
      target_strong_transform (draw_strong_parameters img)
        (target_masks_of pseudo_label) target_img in
    last (grads self')
    = Some (Backward KL
              (parse_losses
                 {[ "KL_div_loss_trg"%string :=
                      (s * kl_div (student_encode_decode views.1)
                             (teacher_encode_decode views.2))%Qc ]}).1).
Proof.
  intros Hrun. remember (Ok log_vars) as r eqn:Hr. revert Hr.
  wp_start Hrun. unfold forward_train.
  repeat wp_step; intros Hr; try discriminate Hr;
    (eexists _, _, _; split_and!;
     [ done
     | by apply trust_weight_Some
     | rewrite last_snoc;
       repeat (match goal with
               | Heq : _ = (_, _) |- _ => rewrite Heq; clear Heq
               end; cbn [fst snd]);
       done ]).
Qed.

End step_batches.

(** * [train_step] and training sessions *)
Section train_step_facts.
Import DACS.
Implicit Types (call : data_batch → M DACS.t (gmap string Qc)).
Implicit Types (s : DACS.t * optimizer).

(** What [train_step] does, by the outcome of the call of [self]. *)
Lemma train_step_unfold call data_batch s :
  let self0 :=
    set_state s.1 (local_iter s.1) (feat_distributions s.1) [] in
  train_step call data_batch s
  = match call data_batch self0 with
    | (Ok log_vars, self') =>
        (Ok (mk_outputs (delete "loss"%string log_vars)
               (length (db_img_metas data_batch))),
         (self', mk_optimizer (applied s.2 ++ [grads self'])))
    | (Raise e, self') => (Raise e, (self', s.2))
    end.
Proof.
  destruct s as [self opt]. cbn [fst snd].
  unfold train_step, mbind, M_bind, zero_grad, on_self, step, mret, M_ret.
  cbn [fst snd].
  by destruct (call data_batch _) as [[log_vars|e] self'].
Qed.

(** X23.  The outputs of [train_step].  The log variables are those of
    the call of [self] without the entry ['loss']: no such key is
    returned, and every other key has the value that the call gave it.
    The number of samples is the number of entries of [img_metas],
    whatever the number of images. *)
Theorem train_step_outputs call data_batch s out s' :
  train_step call data_batch s = (Ok out, s') →
  ∃ log_vars,
    (call data_batch
       (set_state s.1 (local_iter s.1) (feat_distributions s.1) [])).1
    = Ok log_vars ∧
    out_log_vars out !! "loss"%string = None ∧
    (∀ k, k ≠ "loss"%string → out_log_vars out !! k = log_vars !! k) ∧
    out_num_samples out = length (db_img_metas data_batch).
Proof.
  rewrite train_step_unfold. cbn zeta.
  destruct (call data_batch _) as [[log_vars|e] self']; [|done].
  intros [= <- <-]. exists log_vars. cbn. split_and!; [done| | |done].
  - apply lookup_delete_eq.
  - intros k Hk. by apply lookup_delete_ne.
Qed.

(** X24.  The optimizer in [train_step].  The gradient buffers are
    cleared before the call of [self], whatever they held.  When the
    call returns, the optimizer makes exactly one step, on the
    gradients that this call has left in the buffers; when the call
    raises, [train_step] raises the same exception and the optimizer
    makes no step, but the buffers keep what the call has
    back-propagated before it raised. *)
Theorem train_step_optimizer call data_batch s r s' :
  train_step call data_batch s = (r, s') →
  let fw :=
    call data_batch
      (set_state s.1 (local_iter s.1) (feat_distributions s.1) []) in
  s'.1 = fw.2 ∧
  match fw.1 with
  | Ok _ => (∃ out, r = Ok out) ∧ applied s'.2 = applied s.2 ++ [grads fw.2]
  | Raise e => r = Raise e ∧ s'.2 = s.2
  end.
Proof.
  rewrite train_step_unfold. cbn zeta.
  destruct (call data_batch _) as [[log_vars|e] self']; intros [= <- <-].
  - split; [done|]. split; [by eexists|done].
  - by split.
Qed.
End train_step_facts.

Section sessions.
Import DACS.

(** The terms of a step, as a run of the step finds them. *)
Lemma forward_train_summary `{Collaborators}
    img gt_semantic_seg target_img self r self' :
  forward_train img gt_semantic_seg target_img self = (r, self') →
  start_distribution_iter self' = start_distribution_iter self ∧
  local_iter self'
  = (if r is Ok _ then local_iter self + 1 else local_iter self) ∧
  ∃ evs, grads self' = grads self ++ evs ∧
    (∀ log_vars, r = Ok log_vars →
       event_term <$> evs
       = [Clean] ++ (if enable_fdist self then [FDist] else []) ++ [Mix]
         ++ (if bool_decide (start_distribution_iter self ≤ local_iter self)
             then [Contrastive] else [])
         ++ [KL]).
Proof.
  intros Hrun. wp_start Hrun. unfold forward_train.
  repeat wp_step; (split_and!; [done..|]); events; known_tests;
    intros log_vars Hr; by try discriminate Hr.
Qed.

Lemma contrastive_in_terms (fdist gate : bool) :
  Contrastive ∈ [Clean] ++ (if fdist then [FDist] else []) ++ [Mix]
                ++ (if gate then [Contrastive] else []) ++ [KL]
  ↔ gate = true.
Proof.
  destruct fdist, gate; cbn [app]; rewrite ?elem_of_cons, elem_of_nil;
    (split; [|by auto 10]); intros Hin;
    repeat (destruct Hin as [Hin|Hin]; try done).
Qed.

(** X25.  One iteration of training with the step of this class: when
    [train_step] returns, the optimizer has made one step, and the
    gradients it has applied are those of the losses of this iteration
    alone, in the order of the step, whatever the buffers held before;
    the contrastive loss is among them exactly when the warm-up is
    over.  The iteration counter has moved by 1. *)
Theorem train_step_applies_own_losses `{Collaborators} data_batch s out s' :
  train_step forward data_batch s = (Ok out, s') →
  ∃ evs,
    applied s'.2 = applied s.2 ++ [evs] ∧ grads s'.1 = evs ∧
    event_term <$> evs
    = [Clean] ++ (if enable_fdist s.1 then [FDist] else []) ++ [Mix]
      ++ (if bool_decide (start_distribution_iter s.1 ≤ local_iter s.1)
          then [Contrastive] else [])
      ++ [KL] ∧
    (Contrastive ∈ event_term <$> evs
     ↔ start_distribution_iter s.1 ≤ local_iter s.1) ∧
    local_iter s'.1 = local_iter s.1 + 1.
Proof.
  rewrite train_step_unfold. cbn zeta. unfold forward.
  destruct (forward_train _ _ _ _) as [[log_vars|e] self'] eqn:Hrun; [|done].
  intros [= <- <-]. cbn [fst snd applied].
  apply forward_train_summary in Hrun as (_ & Hiter & evs & Hgrads & Hterms).
  cbn [set_state enable_fdist start_distribution_iter local_iter grads]
    in Hiter, Hgrads, Hterms.
  cbn [app] in Hgrads. specialize (Hterms log_vars eq_refl).
  exists evs. split_and!; [by rewrite Hgrads|done|done| |done].
  rewrite Hterms, contrastive_in_terms. apply bool_decide_eq_true.
Qed.

(** A session keeps the iteration counter equal to the number of steps
    of the optimizer, and step [k] of the optimizer has the contrastive
    loss exactly when [k] is at least the warm-up threshold. *)
Lemma train_invariant its :
  ∀ s r s',
    local_iter s.1 = length (applied s.2) →
    (∀ k evs, applied s.2 !! k = Some evs →
       Contrastive ∈ event_term <$> evs ↔ start_distribution_iter s.1 ≤ k) →
    train its s = (r, s') →
    start_distribution_iter s'.1 = start_distribution_iter s.1 ∧
    local_iter s'.1 = length (applied s'.2) ∧
    length (applied s'.2) ≤ length (applied s.2) + length its ∧
    (r = Ok () → length (applied s'.2) = length (applied s.2) + length its) ∧
    ∀ k evs, applied s'.2 !! k = Some evs →
      Contrastive ∈ event_term <$> evs ↔ start_distribution_iter s.1 ≤ k.
Proof.
  induction its as [|it its IH]; intros s r s' Hiter Hsteps.
  { intros [= <- <-]. split_and!; [done|done|simpl; lia|simpl; lia|done]. }
  unfold train. cbn [for_]. unfold mbind at 1, M_bind at 1.
  unfold mbind at 1, M_bind at 1. rewrite train_step_unfold. cbn zeta.
  unfold forward at 1.
  destruct (forward_train _ _ _ _) as [[log_vars|e] self1] eqn:Hrun.
  - apply forward_train_summary in Hrun
      as (Hstart & Hiter1 & evs & Hgrads & Hterms).
    cbn [set_state enable_fdist start_distribution_iter local_iter grads]
      in Hstart, Hiter1, Hgrads, Hterms.
    cbn [app] in Hgrads. specialize (Hterms log_vars eq_refl).
    unfold mret at 1, M_ret at 1. intros Hrest.
    apply IH in Hrest as (R1 & R2 & R3 & R4 & R5); cbn [fst snd applied].
    + cbn [fst snd applied] in R1, R2, R3, R4, R5.
      rewrite length_app in R3, R4. simpl in R3, R4.
      rewrite Hstart in R1, R5.
      split_and!; [done|done|simpl; lia| |done].
      intros Hr. specialize (R4 Hr). simpl. lia.
    + rewrite length_app. simpl. lia.
    + intros k evs' Hk. rewrite Hstart.
      apply lookup_app_Some in Hk as [Hk|[Hge Hk]]; [by apply Hsteps|].
      apply list_lookup_singleton_Some in Hk as [Hk <-].
      rewrite Hgrads, Hterms, contrastive_in_terms, bool_decide_eq_true.
      rewrite Hiter. split; lia.
  - intros [= <- <-]. cbn [fst snd].
    apply forward_train_summary in Hrun as (Hstart & Hiter1 & _).
    cbn [set_state start_distribution_iter local_iter] in Hstart, Hiter1.
    split_and!; [done|congruence|lia|done|done].
Qed.

(** X26.  The warm-up of a training session.  In a session that starts
    from a freshly constructed object and optimizer, the iteration
    counter is the number of steps that the optimizer has made, one per
    iteration that returned; and the gradients of step [k] of the
    optimizer (counted from 0) include those of the contrastive loss
    exactly when [k] is at least 50. *)
Theorem warm_up_in_optimizer_steps c self0 its r s' :
  DACS.__init__ c = Some self0 →
  train its (self0, mk_optimizer []) = (r, s') →
  local_iter s'.1 = length (applied s'.2) ∧
  length (applied s'.2) ≤ length its ∧
  (r = Ok () → length (applied s'.2) = length its) ∧
  ∀ k evs, applied s'.2 !! k = Some evs →
    Contrastive ∈ event_term <$> evs ↔ 50 ≤ k.
Proof.
  intros Hinit Hrun.
  assert (local_iter self0 = 0 ∧ start_distribution_iter self0 = 50)
    as [H0 H50].
  { unfold DACS.__init__ in Hinit. case_bool_decide; [|done].
    destruct (ProtoEstimator.__init__ _ _ _ _ _); [|done].
    by injection Hinit as <-. }
  apply train_invariant in Hrun as (_ & R2 & R3 & R4 & R5);
    cbn [fst snd applied]; [|done|by intros k evs ?].
  cbn [fst snd applied length] in R3, R4, R5. rewrite H50 in R5.
  by split_and!.
Qed.
End sessions.

Section bank_in_sessions.
Import DACS.

(** The step touches the estimator through [update_proto] only. *)
Lemma forward_train_bank `{Collaborators}
    img gt_semantic_seg target_img self r self' :
  forward_train img gt_semantic_seg target_img self = (r, self') →
  feat_distributions self' = feat_distributions self
  ∨ ∃ features labels r0,
      ProtoEstimator.update_proto features labels (feat_distributions self)
      = (r0, feat_distributions self').
Proof.
  intros Hrun. wp_start Hrun. unfold forward_train.
  repeat wp_step; first [by left|right; by eexists _, _, _].
Qed.

(** [update_proto] keeps a bank of non-empty queues within their
    capacity, whatever its outcome. *)
Lemma update_proto_bounded features labels est r est' (n : nat) :
  1 ≤ n →
  (∃ b, ProtoEstimator.MemoryBank est = Some b ∧
     length b = ProtoEstimator.class_num est ∧
     ∀ cls d, b !! cls = Some d →
       Deque.maxlen d = n ∧ 1 ≤ length (Deque.items d) ≤ n) →
  ProtoEstimator.update_proto features labels est = (r, est') →
  ProtoEstimator.class_num est' = ProtoEstimator.class_num est ∧
  ∃ b, ProtoEstimator.MemoryBank est' = Some b ∧
    length b = ProtoEstimator.class_num est' ∧
    ∀ cls d, b !! cls = Some d →
      Deque.maxlen d = n ∧ 1 ≤ length (Deque.items d) ≤ n.
Proof.
  intros Hn (b & Hb & Hlen & Hbound) Hrun.
  destruct (update_proto_total features labels est b Hb ltac:(lia))
    as [[est1 Hok]|[_ Hfail]].
  - rewrite Hok in Hrun. injection Hrun as <- <-.
    destruct (update_proto_Ok _ _ _ _ _ Hb Hok)
      as (ave & b' & _ & -> & Hlen' & Hlook).
    split; [done|]. exists b'. split_and!; [done|simpl; lia|].
    intros cls d' Hd'.
    destruct (lookup_lt_is_Some_2 b cls) as [d Hd].
    { rewrite <- Hlen'. by eapply lookup_lt_Some. }
    rewrite (Hlook cls d Hd) in Hd'. injection Hd' as <-.
    destruct (Hbound cls d Hd) as (Hmax & Hlo & Hhi).
    case_bool_decide; [|done].
    rewrite append_maxlen. split; [done|].
    rewrite append_items by lia.
    rewrite lastn_length, length_app. simpl. lia.
  - rewrite Hfail in Hrun. injection Hrun as <- <-.
    split; [done|]. by exists b.
Qed.

Lemma train_bank_bounded its (n : nat) :
  1 ≤ n →
  ∀ s r s',
    (∃ b, ProtoEstimator.MemoryBank (feat_distributions s.1) = Some b ∧
       length b = ProtoEstimator.class_num (feat_distributions s.1) ∧
       ∀ cls d, b !! cls = Some d →
         Deque.maxlen d = n ∧ 1 ≤ length (Deque.items d) ≤ n) →
    train its s = (r, s') →
    ProtoEstimator.class_num (feat_distributions s'.1)
    = ProtoEstimator.class_num (feat_distributions s.1) ∧
    ∃ b, ProtoEstimator.MemoryBank (feat_distributions s'.1) = Some b ∧
      length b = ProtoEstimator.class_num (feat_distributions s'.1) ∧
      ∀ cls d, b !! cls = Some d →
        Deque.maxlen d = n ∧ 1 ≤ length (Deque.items d) ≤ n.
Proof.
  intros Hn. induction its as [|it its IH]; intros s r s' Hinv.
  { by intros [= <- <-]. }
  unfold train. cbn [for_]. unfold mbind at 1, M_bind at 1.
  unfold mbind at 1, M_bind at 1. rewrite train_step_unfold. cbn zeta.
  unfold forward at 1.
  destruct (forward_train _ _ _ _) as [r1 self1] eqn:Hrun.
  assert (ProtoEstimator.class_num (feat_distributions self1)
          = ProtoEstimator.class_num (feat_distributions s.1) ∧
          ∃ b, ProtoEstimator.MemoryBank (feat_distributions self1) = Some b ∧
            length b = ProtoEstimator.class_num (feat_distributions self1) ∧
            ∀ cls d, b !! cls = Some d →
              Deque.maxlen d = n ∧ 1 ≤ length (Deque.items d) ≤ n)
    as [Hcls Hinv1].
  { apply forward_train_bank in Hrun as [Heq|(f & l & r0 & Hupd)];
      cbn [set_state feat_distributions] in *.
    - by rewrite Heq.
    - by eapply update_proto_bounded. }
  destruct r1 as [log_vars|e].
  - unfold mret at 1, M_ret at 1. intros Hrest.
    eapply IH in Hrest as [Hcls' Hinv']; [|done].
    cbn [fst snd] in Hcls'. split; [congruence|done].
  - intros [= <- <-]. by split.
Qed.

(** X27.  The memory bank in a training session.  In a session that
    starts from a freshly constructed object, after any number of
    iterations, the last of which may have raised, the bank has its 19
    queues, each with capacity 200, and every queue holds at least one
    and at most 200 entries. *)
Theorem bank_bounded_in_session c self0 its r s' :
  DACS.__init__ c = Some self0 →
  train its (self0, mk_optimizer []) = (r, s') →
  ∃ bank,
    ProtoEstimator.MemoryBank (feat_distributions s'.1) = Some bank ∧
    length bank = 19 ∧
    ∀ cls d, bank !! cls = Some d →
      Deque.maxlen d = 200 ∧ 1 ≤ length (Deque.items d) ≤ 200.
Proof.
  intros Hinit Hrun. unfold DACS.__init__ in Hinit.
  case_bool_decide; [|done].
  destruct (ProtoEstimator.__init__ _ _ _ _ _) as [est|] eqn:Eest; [|done].
  injection Hinit as <-.
  destruct (init_fresh _ _ _ _ _ Eest) as (HC & b0 & Hb0 & Hlen0 & Hseed).
  eapply (train_bank_bounded its 200) in Hrun
    as (H19 & b & Hb & Hlen & Hbound); [|lia|].
  - cbn [fst feat_distributions] in H19.
    exists b. split_and!; [done|lia|done].
  - cbn [fst feat_distributions]. exists b0. split_and!; [done|lia|].
    intros cls d Hd.
    rewrite Hseed in Hd by (apply lookup_lt_Some in Hd; lia).
    injection Hd as <-. rewrite init_maxlen, init_items. split; [done|].
    rewrite lastn_length. simpl. lia.
Qed.

(** X28.  The construction of the object.  It fails exactly when the
    mixing mode is not ['class'].  The object it makes is in iteration
    0 with empty gradient buffers and a warm-up threshold of 50; the
    feature distance is enabled exactly when its coefficient is
    positive; and the memory bank has 19 queues of capacity 200, each
    holding one zero vector of dimension 512. *)
Theorem init_object c :
  (DACS.__init__ c = None ↔ cfg_mix c ≠ "class"%string) ∧
  ∀ self, DACS.__init__ c = Some self →
    local_iter self = 0 ∧ grads self = [] ∧
    start_distribution_iter self = 50 ∧
    (enable_fdist self = true ↔ (0 < cfg_imnet_feature_dist_lambda c)%Qc) ∧
    ∃ bank,
      ProtoEstimator.MemoryBank (feat_distributions self) = Some bank ∧
      length bank = 19 ∧
      ∀ cls d, bank !! cls = Some d →
        Deque.items d = [[zeros1 512]] ∧ Deque.maxlen d = 200.
Proof.
  unfold DACS.__init__.
  destruct (ProtoEstimator.__init__ _ _ _ _ _) as [est|] eqn:Eest; [|done].
  destruct (init_fresh _ _ _ _ _ Eest) as (HC & b0 & Hb0 & Hlen0 & Hseed).
  split.
  - case_bool_decide; split; done.
  - intros self. case_bool_decide; [|done]. intros [= <-]. cbn.
    split_and!; [done..|apply bool_decide_eq_true|].
    exists b0. split_and!; [done..|].
    intros cls d Hd.
    rewrite Hseed in Hd by (apply lookup_lt_Some in Hd; lia).
    injection Hd as <-. by rewrite init_maxlen, init_items.
Qed.
End bank_in_sessions.

(** * The steps and iterations on concrete batches *)
Section concrete_iterations.
Import DACS DemoStep DemoTrain.

(** The step of iteration 50 returns, and so does [train_step] on the
    same batch. *)
Lemma step50_returns :
  let out := @forward_train collaborators (grey 2 512 512)
               (labelled_0 2 512 512) (grey 2 512 512) self50 in
  @forward_train collaborators (grey 2 512 512) (labelled_0 2 512 512)
    (grey 2 512 512) self50 = (Ok (returned ∅ out.1), out.2).
Proof.
  intros out. change (out = (Ok (returned ∅ out.1), out.2)).
  assert (returns out.1 = true) as Hret by (vm_compute; reflexivity).
  clearbody out.
  destruct out as [[log_vars|e] self']; [reflexivity|discriminate].
Qed.

Lemma train_step50_returns :
  let tr := train_step (@forward collaborators) batch_512 stale50 in
  train_step (@forward collaborators) batch_512 stale50
  = (Ok (returned (mk_outputs ∅ 0) tr.1), tr.2).
Proof.
  intros tr. change (tr = (Ok (returned (mk_outputs ∅ 0) tr.1), tr.2)).
  assert (returns tr.1 = true) as Hret by (vm_compute; reflexivity).
  clearbody tr.
  destruct tr as [[out|e] s']; [reflexivity|discriminate].
Qed.

Lemma backward_order_witness :
  let out := @forward_train collaborators (grey 2 512 512)
               (labelled_0 2 512 512) (grey 2 512 512) self50 in
  @forward_train collaborators (grey 2 512 512) (labelled_0 2 512 512)
    (grey 2 512 512) self50 = (out.1, out.2) ∧
  let all :=
    [Clean] ++ (if enable_fdist self50 then [FDist] else []) ++ [Mix]
    ++ (if bool_decide (start_distribution_iter self50 ≤ local_iter self50)
        then [Contrastive] else [])
    ++ [KL] in
  ∃ evs, grads out.2 = grads self50 ++ evs ∧
    event_term <$> evs `prefix_of` all ∧
    (∀ log_vars, out.1 = Ok log_vars → event_term <$> evs = all).
Proof.
  intros out.
  assert (@forward_train collaborators (grey 2 512 512)
            (labelled_0 2 512 512) (grey 2 512 512) self50
          = (out.1, out.2)) as H1 by apply surjective_pairing.
  split; [exact H1|].
  exact (@backward_order collaborators (grey 2 512 512)
           (labelled_0 2 512 512) (grey 2 512 512) self50 out.1 out.2
           H1).
Defined.

Lemma step_counter_witness :
  let out := @forward_train collaborators (grey 2 512 512)
               (labelled_0 2 512 512) (grey 2 512 512) self50 in
  @forward_train collaborators (grey 2 512 512) (labelled_0 2 512 512)
    (grey 2 512 512) self50 = (out.1, out.2) ∧
  local_iter out.2
  = (if out.1 is Ok _ then local_iter self50 + 1 else local_iter self50) ∧
  pseudo_threshold out.2 = pseudo_threshold self50 ∧
  psweight_ignore_top out.2 = psweight_ignore_top self50 ∧
  psweight_ignore_bottom out.2 = psweight_ignore_bottom self50 ∧
  fdist_lambda out.2 = fdist_lambda self50 ∧
  enable_fdist out.2 = enable_fdist self50 ∧
  debug_img_interval out.2 = debug_img_interval self50 ∧
  start_distribution_iter out.2 = start_distribution_iter self50.
Proof.
  intros out.
  assert (@forward_train collaborators (grey 2 512 512)
            (labelled_0 2 512 512) (grey 2 512 512) self50
          = (out.1, out.2)) as H1 by apply surjective_pairing.
  split; [exact H1|].
  exact (@step_counter collaborators (grey 2 512 512)
           (labelled_0 2 512 512) (grey 2 512 512) self50 out.1 out.2
           H1).
Defined.

Lemma contrastive_reads_updated_bank_witness :
  let out := @forward_train collaborators (grey 2 512 512)
               (labelled_0 2 512 512) (grey 2 512 512) self50 in
  @forward_train collaborators (grey 2 512 512) (labelled_0 2 512 512)
    (grey 2 512 512) self50 = (Ok (returned ∅ out.1), out.2) ∧
  ∃ pseudo_prob pseudo_label pseudo_label_cl bank,
    max_dim1 (@teacher_softmax collaborators (grey 2 512 512))
    = Some (pseudo_prob, pseudo_label) ∧
    view4 2 1 512 512 pseudo_label = Some pseudo_label_cl ∧
    (let fm := @contrast_preparations collaborators
                 (@teacher_extract_decode_context collaborators
                    (grey 2 512 512))
                 pseudo_label_cl in
     ProtoEstimator.update_proto fm.1 fm.2 (feat_distributions self50)
     = (Ok (), feat_distributions out.2)) ∧
    ProtoEstimator.MemoryBank (feat_distributions out.2) = Some bank ∧
    ∃ evs, grads out.2 = grads self50 ++ evs ∧
      ∀ v, Backward Contrastive v ∈ evs →
        v = (DemoStep.parse_losses
               {[ "contrastive loss"%string :=
                    @bank_contrastive collaborators
                      (@student_extract_decode_context collaborators
                         (grey 2 512 512))
                      pseudo_label_cl bank ]}).1.
Proof.
  intros out. pose proof step50_returns as H1. cbv zeta in H1.
  split; [exact H1|].
  exact (@contrastive_reads_updated_bank collaborators (grey 2 512 512)
           (labelled_0 2 512 512) (grey 2 512 512) self50
           (returned ∅ out.1) out.2 H1).
Defined.


Lemma empty_target_batch_witness :
  let out := @forward_train collaborators (grey 2 2 2) (labelled_0 2 2 2)
               [] self0 in
  @teacher_softmax collaborators [] = [] ∧
  @forward_train collaborators (grey 2 2 2) (labelled_0 2 2 2) [] self0
  = (out.1, out.2) ∧
  out.1 = Raise ZeroDivisionError ∧
  feat_distributions out.2 = feat_distributions self0 ∧
  local_iter out.2 = local_iter self0 ∧
  ∃ evs, grads out.2 = grads self0 ++ evs ∧
    event_term <$> evs
    = [Clean] ++ (if enable_fdist self0 then [FDist] else []).
Proof.
  intros out.
  assert (@teacher_softmax collaborators [] = []) as H1 by reflexivity.
  assert (@forward_train collaborators (grey 2 2 2) (labelled_0 2 2 2) []
            self0 = (out.1, out.2)) as H2 by apply surjective_pairing.
  split; [exact H1|]. split; [exact H2|].
  exact (@empty_target_batch collaborators (grey 2 2 2)
           (labelled_0 2 2 2) [] self0 out.1 out.2 H1 H2).
Defined.


Lemma distillation_scaled_by_trust_weight_witness :
  let out := @forward_train collaborators (grey 2 512 512)
               (labelled_0 2 512 512) (grey 2 512 512) self50 in
  @forward_train collaborators (grey 2 512 512) (labelled_0 2 512 512)
    (grey 2 512 512) self50 = (Ok (returned ∅ out.1), out.2) ∧
  ∃ pseudo_prob pseudo_label s,
    max_dim1 (@teacher_softmax collaborators (grey 2 512 512))
    = Some (pseudo_prob, pseudo_label) ∧
    s = (of_nat (trusted_pixels (pseudo_threshold self50) pseudo_prob)
         / of_nat (numel3 pseudo_label))%Qc ∧
    let views :=
      @target_strong_transform collaborators
        (@draw_strong_parameters collaborators (grey 2 512 512))
        (@target_masks_of collaborators pseudo_label) (grey 2 512 512) in
    last (grads out.2)
    = Some (Backward KL
              (DemoStep.parse_losses
                 {[ "KL_div_loss_trg"%string :=
                      (s * @kl_div collaborators
                             (@student_encode_decode collaborators views.1)
                             (@teacher_encode_decode collaborators views.2))%Qc
                 ]}).1).
Proof.
  intros out. pose proof step50_returns as H1. cbv zeta in H1.
  split; [exact H1|].
  exact (@distillation_scaled_by_trust_weight collaborators (grey 2 512 512)
           (labelled_0 2 512 512) (grey 2 512 512) self50
           (returned ∅ out.1) out.2 H1).
Defined.

Lemma train_step_outputs_witness :
  let s0 := (self0, mk_optimizer []) in
  let tr := train_step logging_call small_batch s0 in
  train_step logging_call small_batch s0
  = (Ok (returned (mk_outputs ∅ 0) tr.1), tr.2) ∧
  ∃ log_vars,
    (logging_call small_batch
       (set_state s0.1 (local_iter s0.1) (feat_distributions s0.1) [])).1
    = Ok log_vars ∧
    out_log_vars (returned (mk_outputs ∅ 0) tr.1) !! "loss"%string = None ∧
    (∀ k, k ≠ "loss"%string →
          out_log_vars (returned (mk_outputs ∅ 0) tr.1) !! k
          = log_vars !! k) ∧
    out_num_samples (returned (mk_outputs ∅ 0) tr.1)
    = length (db_img_metas small_batch).
Proof.
  intros s0 tr.
  assert (train_step logging_call small_batch s0
          = (Ok (returned (mk_outputs ∅ 0) tr.1), tr.2)) as H1
    by reflexivity.
  split; [exact H1|].
  exact (train_step_outputs logging_call small_batch s0
           (returned (mk_outputs ∅ 0) tr.1) tr.2 H1).
Defined.

Lemma train_step_optimizer_witness :
  let s0 := (self0, mk_optimizer []) in
  let tr := train_step logging_call small_batch s0 in
  train_step logging_call small_batch s0 = (tr.1, tr.2) ∧
  let fw :=
    logging_call small_batch
      (set_state s0.1 (local_iter s0.1) (feat_distributions s0.1) []) in
  tr.2.1 = fw.2 ∧
  match fw.1 with
  | Ok _ =>
      (∃ out, tr.1 = Ok out) ∧ applied tr.2.2 = applied s0.2 ++ [grads fw.2]
  | Raise e => tr.1 = Raise e ∧ tr.2.2 = s0.2
  end.
Proof.
  intros s0 tr.
  assert (train_step logging_call small_batch s0 = (tr.1, tr.2)) as H1
    by apply surjective_pairing.
  split; [exact H1|].
  exact (train_step_optimizer logging_call small_batch s0 tr.1 tr.2 H1).
Defined.

Lemma train_step_applies_own_losses_witness :
  let tr := train_step (@forward collaborators) batch_512 stale50 in
  train_step (@forward collaborators) batch_512 stale50
  = (Ok (returned (mk_outputs ∅ 0) tr.1), tr.2) ∧
  ∃ evs,
    applied tr.2.2 = applied stale50.2 ++ [evs] ∧
    grads tr.2.1 = evs ∧
    event_term <$> evs
    = [Clean] ++ (if enable_fdist stale50.1 then [FDist] else []) ++ [Mix]
      ++ (if bool_decide
               (start_distribution_iter stale50.1 ≤ local_iter stale50.1)
          then [Contrastive] else [])
      ++ [KL] ∧
    (Contrastive ∈ event_term <$> evs
     ↔ start_distribution_iter stale50.1 ≤ local_iter stale50.1) ∧
    local_iter tr.2.1 = local_iter stale50.1 + 1.
Proof.
  intros tr. pose proof train_step50_returns as H1. cbv zeta in H1.
  split; [exact H1|].
  exact (@train_step_applies_own_losses collaborators batch_512 stale50
           (returned (mk_outputs ∅ 0) tr.1) tr.2 H1).
Defined.

Lemma warm_up_in_optimizer_steps_witness :
  let its := [mk_iteration collaborators batch_512;
              mk_iteration collaborators batch_512] in
  let tr := train its (self0, mk_optimizer []) in
  DACS.__init__ cfg = Some self0 ∧
  train its (self0, mk_optimizer []) = (tr.1, tr.2) ∧
  local_iter tr.2.1 = length (applied tr.2.2) ∧
  length (applied tr.2.2) ≤ length its ∧
  (tr.1 = Ok () → length (applied tr.2.2) = length its) ∧
  ∀ k evs, applied tr.2.2 !! k = Some evs →
    Contrastive ∈ event_term <$> evs ↔ 50 ≤ k.
Proof.
  intros its tr.
  assert (DACS.__init__ cfg = Some self0) as H1 by reflexivity.
  assert (train its (self0, mk_optimizer []) = (tr.1, tr.2)) as H2
    by apply surjective_pairing.
  split; [exact H1|]. split; [exact H2|].
  exact (warm_up_in_optimizer_steps cfg self0 its tr.1 tr.2 H1 H2).
Defined.

Lemma bank_bounded_in_session_witness :
  let its := [mk_iteration collaborators batch_512;
              mk_iteration collaborators small_batch] in
  let tr := train its (self0, mk_optimizer []) in
  DACS.__init__ cfg = Some self0 ∧
  train its (self0, mk_optimizer []) = (tr.1, tr.2) ∧
  ∃ bank,
    ProtoEstimator.MemoryBank (feat_distributions tr.2.1) = Some bank ∧
    length bank = 19 ∧
    ∀ cls d, bank !! cls = Some d →
      Deque.maxlen d = 200 ∧ 1 ≤ length (Deque.items d) ≤ 200.
Proof.
  intros its tr.
  assert (DACS.__init__ cfg = Some self0) as H1 by reflexivity.
  assert (train its (self0, mk_optimizer []) = (tr.1, tr.2)) as H2
    by apply surjective_pairing.
  split; [exact H1|]. split; [exact H2|].
  exact (bank_bounded_in_session cfg self0 its tr.1 tr.2 H1 H2).
Defined.

(** Iteration 50 on a batch of two images of 512 x 512 pixels, with one
    stale gradient in the buffers: [train_step] returns, the optimizer
    has applied the four losses of the iteration and not the stale
    gradient, the log variables have no entry ['loss'], and there are
    two samples. *)
Example train_step_scenario :
  let tr := train_step (@forward collaborators) batch_512 stale50 in
  let out := returned (mk_outputs ∅ 0) tr.1 in
  returns tr.1 = true ∧
  ((λ evs : list event, event_term <$> evs) <$> applied tr.2.2)
  = [[Clean; Mix; Contrastive; KL]] ∧
  (map_to_list (out_log_vars out)).*1
  = ["mix.decode.acc_seg"; "mix.decode.loss_seg";
     "decode.acc_seg"; "decode.loss_seg"]%string ∧
  out_num_samples out = 2 ∧
  local_iter tr.2.1 = 51.
Proof.
  intros tr out.
  assert ((returns tr.1,
           (λ evs : list event, event_term <$> evs) <$> applied tr.2.2,
           (map_to_list (out_log_vars out)).*1,
           out_num_samples out, local_iter tr.2.1)
          = (true, [[Clean; Mix; Contrastive; KL]],
             ["mix.decode.acc_seg"; "mix.decode.loss_seg";
              "decode.acc_seg"; "decode.loss_seg"]%string, 2, 51)) as Hout
    by (vm_compute; reflexivity).
  apply pair_equal_spec in Hout as [Hout H5].
  apply pair_equal_spec in Hout as [Hout H4].
  apply pair_equal_spec in Hout as [Hout H3].
  apply pair_equal_spec in Hout as [H1 H2].
  split_and!; [exact H1|exact H2|exact H3|exact H4|exact H5].
Qed.
End concrete_iterations.
